(** * The IMA boot-test harness of buckos-build: archive builder, image
    builder, boot orchestrator and scenario checks

    Shallow embedding of [tests/test_ima_qemu.py] (with the boot step of
    [tests/verify_iso_boot.py] for comparison).

    Conventions of the embedding
    - a Python [int] is a [Z]; [len] returns a [Z];
    - a Python [str] is the list of its code points ([N]);
    - a Python [bytes] value is a [list byte];
    - a raised exception is the [Raise] branch of [result];
    - the outside world (external tools, the file system, the clock) is an
      oracle record [World]; what the harness does to the outside is logged
      in a trace of events.

    Left out of the embedding: the normalisation [pathlib.Path] applies to
    the string it is given, the [OSError]s of [mkdir], [copy2] and
    [write_text], the difference between captured bytes and captured
    text, and the pytest markers that skip the test class. *)

From Stdlib Require Import List ZArith NArith Lia Bool String Ascii.
From Stdlib.Strings Require Import Byte.
Import ListNotations.

Local Open Scope Z_scope.

(* ------------------------------------------------------------------ *)
(** ** Python values *)
(* ------------------------------------------------------------------ *)

Definition str := list N.
Definition bytes := list byte.

Definition len {A : Type} (l : list A) : Z := Z.of_nat (List.length l).

(** A string literal of the source, read as code points. *)
Definition lit (s : string) : str :=
  List.map N_of_ascii (list_ascii_of_string s).

Definition NUL : byte := x00.
Definition newline : str := [10%N].

Fixpoint str_eqb (a b : str) : bool :=
  match a, b with
  | [], [] => true
  | x :: a', y :: b' => N.eqb x y && str_eqb a' b'
  | _, _ => false
  end.

(** [sep.join(parts)] *)
Fixpoint join (sep : str) (parts : list str) : str :=
  match parts with
  | [] => []
  | [p] => p
  | p :: rest => p ++ sep ++ join sep rest
  end.

(* ------------------------------------------------------------------ *)
(** ** Exceptions and the error monad *)
(* ------------------------------------------------------------------ *)

Inductive exn : Type :=
| AssertionError (msg : str)
| Skipped (reason : str)                      (* pytest.skip *)
| Failed (reason : str)                       (* pytest.fail *)
| UnicodeEncodeError (codec : str) (position : nat) (char : N)
| UnicodeDecodeError (codec : str) (position : nat)
| OSError (path : str)
| CalledProcessError (cmd : list str) (returncode : Z) (output err : str)
| TimeoutExpired (cmd : list str) (timeout : Z) (output err : str).

Inductive result (A : Type) : Type :=
| Ok (a : A)
| Raise (e : exn).
Arguments Ok {A} a.
Arguments Raise {A} e.

Definition rbind {A B : Type} (r : result A) (k : A -> result B) : result B :=
  match r with
  | Ok a => k a
  | Raise e => Raise e
  end.

Declare Scope result_scope.
Delimit Scope result_scope with result.
Notation "x <- e ;; k" := (rbind e (fun x => k))
  (at level 61, e at next level, right associativity) : result_scope.

Definition is_ok {A : Type} (r : result A) : bool :=
  match r with Ok _ => true | Raise _ => false end.

(* ------------------------------------------------------------------ *)
(** ** [str.encode("ascii")] and the [08X] format *)
(* ------------------------------------------------------------------ *)

Definition ascii_byte (c : N) : byte :=
  match Byte.of_N c with Some b => b | None => x00 end.

Definition is_ascii (c : N) : bool := (c <? 128)%N.

(** The strict ASCII codec: the first code point above 127 raises. *)
Fixpoint encode_ascii_from (pos : nat) (s : str) : result bytes :=
  match s with
  | [] => Ok []
  | c :: s' =>
      if is_ascii c then
        match encode_ascii_from (S pos) s' with
        | Ok bs => Ok (ascii_byte c :: bs)
        | Raise e => Raise e
        end
      else Raise (UnicodeEncodeError (lit "ascii") pos c)
  end.

Definition encode_ascii (s : str) : result bytes := encode_ascii_from 0 s.

(** One upper-case hexadecimal digit. *)
Definition hex_char (d : N) : N :=
  (if d <? 10 then 48 + d else 55 + d)%N.

(** Digits of [n], most significant first; [fuel] bounds their number. *)
Fixpoint hex_digits (fuel : nat) (n : N) : str :=
  match fuel with
  | O => []
  | S f =>
      if (n <? 16)%N then [hex_char n]
      else hex_digits f (n / 16)%N ++ [hex_char (n mod 16)%N]
  end.

Definition hex_upper (n : N) : str := hex_digits (S (N.to_nat (N.size n))) n.

Definition zero_pad (width : nat) (s : str) : str :=
  List.repeat 48%N (width - List.length s) ++ s.

(** [f"{n:08X}"]: at least 8 characters, zero filled after the sign. *)
Definition format_08X (n : Z) : str :=
  if n <? 0 then 45%N :: zero_pad 7 (hex_upper (Z.abs_N n))
  else zero_pad 8 (hex_upper (Z.abs_N n)).

(* ------------------------------------------------------------------ *)
(** ** The cpio newc archive builder *)
(* ------------------------------------------------------------------ *)

Local Open Scope result_scope.

Definition _cpio_header
  (ino mode uid gid nlink mtime filesize devmajor devminor
   rdevmajor rdevminor namesize : Z) : result bytes :=
  encode_ascii
    (lit "070701"
     ++ format_08X ino
     ++ format_08X mode
     ++ format_08X uid
     ++ format_08X gid
     ++ format_08X nlink
     ++ format_08X mtime
     ++ format_08X filesize
     ++ format_08X devmajor
     ++ format_08X devminor
     ++ format_08X rdevmajor
     ++ format_08X rdevminor
     ++ format_08X namesize
     ++ format_08X 0).

(** [io.BytesIO]: an append-only buffer. *)
Definition BytesIO : Type := bytes.
Definition BytesIO_new : BytesIO := [].
Definition bwrite (buf : BytesIO) (b : bytes) : BytesIO := buf ++ b.
Definition getvalue (buf : BytesIO) : bytes := buf.

(** [b"\x00" * k] *)
Definition zeros (k : Z) : bytes := List.repeat NUL (Z.to_nat k).

(** The padding written after a part that ends at offset [pos]:
    [if pos % 4: buf.write(b"\x00" * (4 - pos % 4))]. *)
Definition pad4 (buf : BytesIO) (pos : Z) : BytesIO :=
  if pos mod 4 =? 0 then buf else bwrite buf (zeros (4 - pos mod 4)).

Definition _cpio_entry (name : str) (data : bytes) (mode ino nlink : Z)
  : result bytes :=
  let namesize := len name + 1 in
  hdr <- _cpio_header ino mode 0 0 nlink 0 (len data) 0 0 0 0 namesize ;;
  let buf := BytesIO_new in
  let buf := bwrite buf hdr in
  name_b <- encode_ascii name ;;
  let buf := bwrite buf (name_b ++ [NUL]) in
  let pos := len hdr + namesize in
  let buf := pad4 buf pos in
  let buf := bwrite buf data in
  let buf := pad4 buf (len data) in
  Ok (getvalue buf).

(** Octal mode constants of the source: [0o40755], [0o100644], [0o100755]. *)
Definition mode_dir : Z := 16877.
Definition mode_cert : Z := 33188.
Definition mode_init : Z := 33261.

Definition _cpio_dir (name : str) (ino : Z) : result bytes :=
  _cpio_entry name [] mode_dir ino 2.

Definition TRAILER : str := lit "TRAILER!!!".

Definition _cpio_trailer : result bytes :=
  _cpio_entry TRAILER [] 0 0 1.

(* ------------------------------------------------------------------ *)
(** ** [str] methods used by the harness *)
(* ------------------------------------------------------------------ *)

Definition N_in (c : N) (l : list N) : bool := List.existsb (N.eqb c) l.

(** [str.isspace] for one code point: the Unicode white space. *)
Definition is_space (c : N) : bool :=
  ((9 <=? c) && (c <=? 13) || (28 <=? c) && (c <=? 32)
   || (8192 <=? c) && (c <=? 8202)
   || N_in c [133; 160; 5760; 8232; 8233; 8239; 8287; 12288])%N.

(** The line boundaries of [str.splitlines]. *)
Definition is_linebreak (c : N) : bool :=
  N_in c [10; 11; 12; 13; 28; 29; 30; 133; 8232; 8233]%N.

Fixpoint drop_ws (s : str) : str :=
  match s with
  | [] => []
  | c :: s' => if is_space c then drop_ws s' else s
  end.

(** [s.strip()] *)
Definition strip (s : str) : str :=
  List.rev (drop_ws (List.rev (drop_ws s))).

(** [s.splitlines()]; [cur] is the line being read, reversed. *)
Fixpoint splitlines_aux (cur : str) (s : str) : list str :=
  match s with
  | [] => match cur with [] => [] | _ => [List.rev cur] end
  | c :: s' =>
      if is_linebreak c then
        match s' with
        | c2 :: s'' =>
            if (c =? 13)%N && (c2 =? 10)%N
            then List.rev cur :: splitlines_aux [] s''
            else List.rev cur :: splitlines_aux [] s'
        | [] => List.rev cur :: splitlines_aux [] s'
        end
      else splitlines_aux (c :: cur) s'
  end.

Definition splitlines (s : str) : list str := splitlines_aux [] s.

(** The longest prefix without white space, and what follows it. *)
Fixpoint span_token (s : str) : str * str :=
  match s with
  | [] => ([], [])
  | c :: s' =>
      if is_space c then ([], s)
      else let (t, r) := span_token s' in (c :: t, r)
  end.

(** [line.split(None, 1)]: the first token, then the rest of the line
    after the white space that follows the token (the rest is not split
    again and keeps its inner and trailing white space). *)
Definition split_max1 (line : str) : list str :=
  match drop_ws line with
  | [] => []
  | s =>
      let (tok, rest) := span_token s in
      match drop_ws rest with
      | [] => [tok]
      | r => [tok; r]
      end
  end.

(** [line.split()]: every white-space separated token. *)
Fixpoint split_ws_aux (cur : str) (s : str) : list str :=
  match s with
  | [] => match cur with [] => [] | _ => [List.rev cur] end
  | c :: s' =>
      if is_space c then
        match cur with
        | [] => split_ws_aux [] s'
        | _ => List.rev cur :: split_ws_aux [] s'
        end
      else split_ws_aux (c :: cur) s'
  end.

Definition split_ws (s : str) : list str := split_ws_aux [] s.

Definition last_token (line : str) : option str :=
  match List.rev (split_ws line) with
  | [] => None
  | t :: _ => Some t
  end.

Fixpoint starts_with (p s : str) : bool :=
  match p, s with
  | [], _ => true
  | a :: p', b :: s' => (a =? b)%N && starts_with p' s'
  | _ :: _, [] => false
  end.

(** [needle in hay] *)
Fixpoint contains (needle hay : str) : bool :=
  starts_with needle hay
  || match hay with
     | [] => false
     | _ :: hay' => contains needle hay'
     end.

(* ------------------------------------------------------------------ *)
(** ** Paths *)
(* ------------------------------------------------------------------ *)

(** A [pathlib.Path], as the string [str(p)] gives. *)
Record Path : Type := mkPath { path_str : str }.

(** [p / name] *)
Definition path_join (p : Path) (name : str) : Path :=
  mkPath (path_str p ++ lit "/" ++ name).

(** [s.split(sep)] for a separator of one character. *)
Fixpoint split_on (sep : N) (s : str) : list str :=
  match s with
  | [] => [[]]
  | c :: s' =>
      if (c =? sep)%N then [] :: split_on sep s'
      else match split_on sep s' with
           | x :: xs => (c :: x) :: xs
           | [] => [[c]]
           end
  end.

(** The root of a POSIX path and what follows it: exactly two leading
    slashes are kept as they are, one slash or more than two give one. *)
Definition splitroot (s : str) : str * str :=
  match s with
  | [] => ([], [])
  | c0 :: r1 =>
      if (c0 =? 47)%N then
        match r1 with
        | [] => (lit "/", r1)
        | c1 :: r2 =>
            if (c1 =? 47)%N then
              match r2 with
              | [] => (lit "//", r2)
              | c2 :: _ => if (c2 =? 47)%N then (lit "/", r1) else (lit "//", r2)
              end
            else (lit "/", r1)
        end
      else ([], s)
  end.

(** A component [pathlib] keeps: neither empty nor [.]. *)
Definition kept_part (x : str) : bool :=
  match x with
  | [] => false
  | [c] => negb (c =? 46)%N
  | _ :: _ :: _ => true
  end.

(** [str(pathlib.PurePosixPath(s))]: the root, then the components that
    are kept, joined by single slashes; [.] when nothing is left. *)
Definition posix_str (s : str) : str :=
  let (root, rel) := splitroot s in
  match root ++ join (lit "/") (List.filter kept_part (split_on 47 rel)) with
  | [] => lit "."
  | c :: r => c :: r
  end.

(** [pathlib.Path(s)] *)
Definition Path_of (s : str) : Path := mkPath (posix_str s).

(* ------------------------------------------------------------------ *)
(** ** The outside world *)
(* ------------------------------------------------------------------ *)

(** How an external command behaves once started: how long it runs before
    it exits on its own, what it then returns, and what it had written to
    its pipes by any earlier time. *)
Record process : Type := {
  proc_duration : Z;
  proc_returncode : Z;
  proc_stdout : str;
  proc_stderr : str;
  proc_captured : Z -> str * str
}.

Record World : Type := {
  which : str -> option str;                       (* shutil.which *)
  spawn : list str -> option str -> process;       (* argv, cwd *)
  path_exists : str -> bool;                       (* Path.exists, when asked *)
  file_bytes : str -> option bytes;                (* Path.read_bytes *)
  temp_name : str -> nat -> str;                   (* tempfile.mkdtemp(dir=..) *)
  uuid4_hex : nat -> str;                          (* uuid.uuid4().hex *)
  time_now : Z                                     (* time.time() *)
}.

(** The compression library under [gzip]. *)
Record Zlib : Type := {
  deflate : Z -> bytes -> bytes;                   (* raw deflate at a level *)
  crc32 : bytes -> Z
}.

Inductive event : Type :=
| EvExec (cmd : list str) (cwd : option str)
| EvKill (cmd : list str)
| EvMkdir (p : str)
| EvWriteBytes (p : str) (b : bytes)
| EvWriteText (p : str) (s : str)
| EvCopy (src dst : str).

(** What the harness has done so far: the number of fresh names drawn and
    the events emitted, oldest first. *)
Record St : Type := mkSt { fresh : nat; trace : list event }.

Definition st0 : St := mkSt 0 [].

(** Computations that may raise and that act on the outside. *)
Definition M (A : Type) : Type := St -> result A * St.

Definition ret {A : Type} (a : A) : M A := fun st => (Ok a, st).

Definition raise {A : Type} (e : exn) : M A := fun st => (Raise e, st).

Definition bind {A B : Type} (m : M A) (k : A -> M B) : M B :=
  fun st =>
    match m st with
    | (Ok a, st') => k a st'
    | (Raise e, st') => (Raise e, st')
    end.

Definition lift {A : Type} (r : result A) : M A := fun st => (r, st).

Definition emit (e : event) : M unit :=
  fun st => (Ok tt, mkSt (fresh st) (trace st ++ [e])).

Definition next_fresh : M nat :=
  fun st => (Ok (fresh st), mkSt (S (fresh st)) (trace st)).

(** [assert cond, msg] *)
Definition assert_ (cond : bool) (msg : str) : M unit :=
  if cond then ret tt else raise (AssertionError msg).

Declare Scope io_scope.
Delimit Scope io_scope with io.
Notation "x <- e ;; k" := (bind e (fun x => k))
  (at level 61, e at next level, right associativity) : io_scope.
Notation "e ;;; k" := (bind e (fun _ => k))
  (at level 61, right associativity) : io_scope.

(* ------------------------------------------------------------------ *)
(** ** The harness *)
(* ------------------------------------------------------------------ *)

Record CompletedProcess : Type := {
  returncode : Z;
  stdout : str;
  stderr : str
}.

Definition byte_of_Z (v : Z) : byte := ascii_byte (Z.to_N (v mod 256)).

(** [write32u]: four bytes, little endian. *)
Definition write32u (v : Z) : bytes :=
  [byte_of_Z v; byte_of_Z (v / 256); byte_of_Z (v / 65536);
   byte_of_Z (v / 16777216)].

Section Harness.

Variable zlib : Zlib.
Variable w : World.

Local Open Scope io_scope.

(** [subprocess.run(cmd, cwd=.., capture_output=True, check=.., timeout=..)]:
    the child is started; when it outlives the timeout it is killed and
    [TimeoutExpired] is raised with what was captured; with [check], a
    non-zero exit status raises [CalledProcessError]. *)
Definition subprocess_run (cmd : list str) (cwd : option str)
  (check : bool) (timeout : option Z) : M CompletedProcess :=
  let p := spawn w cmd cwd in
  emit (EvExec cmd cwd) ;;;
  let expired :=
    match timeout with
    | Some t => t <? proc_duration p
    | None => false
    end in
  if expired then
    emit (EvKill cmd) ;;;
    let t := match timeout with Some t => t | None => 0 end in
    raise (TimeoutExpired cmd t (fst (proc_captured p t))
                          (snd (proc_captured p t)))
  else if check && negb (proc_returncode p =? 0) then
    raise (CalledProcessError cmd (proc_returncode p)
                              (proc_stdout p) (proc_stderr p))
  else
    ret {| returncode := proc_returncode p;
           stdout := proc_stdout p;
           stderr := proc_stderr p |}.

(** [tempfile.mkdtemp(dir=d)] *)
Definition mkdtemp (d : Path) : M Path :=
  n <- next_fresh ;;
  let p := temp_name w (path_str d) n in
  emit (EvMkdir p) ;;;
  ret (mkPath p).

Definition read_bytes (p : Path) : M bytes :=
  match file_bytes w (path_str p) with
  | Some b => ret b
  | None => raise (OSError (path_str p))
  end.

(** *** buck2 build helper *)

(** The loop of [_buck2_build] over the output lines: the first line that
    [split(None, 1)] cuts in two gives the path, [Path(parts[1])]. *)
Fixpoint first_output_path (lines : list str) : option Path :=
  match lines with
  | [] => None
  | line :: rest =>
      match split_max1 line with
      | [_; p] => Some (Path_of p)
      | _ => first_output_path rest
      end
  end.

Definition _buck2_build (repo_root : Path) (target : str) (timeout : Z)
  : M Path :=
  match which w (lit "buck2") with
  | None => raise (Skipped (lit "buck2 not found on PATH"))
  | Some _ =>
      n <- next_fresh ;;
      let iso_name := lit "ima-" ++ List.firstn 12 (uuid4_hex w n) in
      result <- subprocess_run
                  [lit "buck2"; lit "--isolation-dir"; iso_name;
                   lit "build"; lit "--show-full-output";
                   lit "-c"; lit "buckos.use_host_toolchain=true";
                   target]
                  (Some (path_str repo_root)) false (Some timeout) ;;
      assert_ (returncode result =? 0)
              (lit "buck2 build failed for " ++ target ++ lit ":"
               ++ newline ++ stderr result) ;;;
      match first_output_path (splitlines (strip (stdout result))) with
      | Some p => ret p
      | None =>
          raise (Failed (lit "Could not parse output path from: "
                         ++ stdout result))
      end
  end.

(** *** initramfs *)

(** [gzip.GzipFile(fileobj=buf, mode="wb", mtime=mtime)], one [write] and
    the close: the ten-byte member header (no file name: the buffer has
    none), the deflate stream at the default level 9, the CRC and the
    length.  Without an [mtime] the clock is read. *)
Definition gzip_member (mtime : option Z) (payload : bytes) : bytes :=
  let stamp := match mtime with Some t => t | None => time_now w end in
  [x1f; x8b; x08; x00] ++ write32u stamp ++ [x02; xff]
  ++ deflate zlib 9 payload
  ++ write32u (crc32 zlib payload)
  ++ write32u (Z.land (len payload) 4294967295).

(** One [entries.write(_cpio_dir(d, ino)); ino += 1] of the loop. *)
Definition write_dir (acc : result (BytesIO * Z)) (d : str)
  : result (BytesIO * Z) :=
  match acc with
  | Raise e => Raise e
  | Ok (entries, ino) =>
      match _cpio_dir d ino with
      | Raise e => Raise e
      | Ok b => Ok (bwrite entries b, ino + 1)
      end
  end.

Definition initramfs_dirs : list str :=
  [lit "dev"; lit "etc"; lit "etc/keys"; lit "mnt"; lit "proc"; lit "sys"].

(** The archive part of [build_initramfs]: [raw = entries.getvalue()]. *)
Definition initramfs_cpio (init_data cert_data : bytes) : result bytes :=
  (let ino := 1 in
   let entries := BytesIO_new in
   b <- _cpio_dir (lit ".") ino ;;
   let entries := bwrite entries b in
   let ino := ino + 1 in
   st <- List.fold_left write_dir initramfs_dirs (Ok (entries, ino)) ;;
   let (entries, ino) := (st : BytesIO * Z) in
   b <- _cpio_entry (lit "etc/keys/x509_ima.der") cert_data mode_cert ino 1 ;;
   let entries := bwrite entries b in
   let ino := ino + 1 in
   b <- _cpio_entry (lit "init") init_data mode_init ino 1 ;;
   let entries := bwrite entries b in
   let ino := ino + 1 in
   b <- _cpio_trailer ;;
   let entries := bwrite entries b in
   Ok (getvalue entries))%result.

Definition build_initramfs (init_path cert_der_path : Path) : M bytes :=
  init_data <- read_bytes init_path ;;
  cert_data <- read_bytes cert_der_path ;;
  raw <- lift (initramfs_cpio init_data cert_data) ;;
  ret (gzip_member (Some 0) raw).

(** *** ext4 image *)

Definition build_ext4_image (binary_path tmp_dir : Path) (signed : bool)
  (key_path : option Path) : M Path :=
  work <- mkdtemp tmp_dir ;;
  let img := path_join work (lit "disk.img") in
  let empty_dir := path_join work (lit "empty") in
  emit (EvMkdir (path_str empty_dir)) ;;;
  _ <- subprocess_run
         [lit "mke2fs"; lit "-t"; lit "ext4"; lit "-d";
          path_str empty_dir; path_str img; lit "8M"]
         None true None ;;
  let batch := path_join work (lit "debugfs.cmds") in
  let cmds :=
    [lit "write " ++ path_str binary_path ++ lit " /ima-test";
     lit "set_inode_field /ima-test mode 0100755"] in
  cmds <-
    (if signed then
       match key_path with
       | None => raise (AssertionError [])
       | Some key =>
           let local_bin := path_join work (lit "ima-test") in
           emit (EvCopy (path_str binary_path) (path_str local_bin)) ;;;
           _ <- subprocess_run
                  [lit "evmctl"; lit "ima_sign"; lit "--sigfile";
                   lit "--key"; path_str key; path_str local_bin]
                  None false None ;;
           let sig_file := mkPath (path_str local_bin ++ lit ".sig") in
           assert_ (path_exists w (path_str sig_file))
                   (lit "evmctl did not create " ++ path_str sig_file) ;;;
           ret (cmds ++ [lit "ea_set /ima-test security.ima -f "
                         ++ path_str sig_file])
       end
     else ret cmds) ;;
  emit (EvWriteText (path_str batch) (join newline cmds ++ newline)) ;;;
  _ <- subprocess_run
         [lit "debugfs"; lit "-w"; lit "-f"; path_str batch; path_str img]
         None true None ;;
  ret img.

(** *** QEMU runner *)

Definition qemu_cmd (kernel initrd disk : Path) (cmdline_extra : str)
  : list str :=
  [lit "qemu-system-x86_64";
   lit "-kernel"; path_str kernel;
   lit "-initrd"; path_str initrd;
   lit "-drive";
   lit "file=" ++ path_str disk ++ lit ",format=raw,if=virtio,readonly=on";
   lit "-append"; lit "console=ttyS0 panic=-1 " ++ cmdline_extra;
   lit "-nographic";
   lit "-no-reboot"; lit "-m"; lit "256M";
   lit "-enable-kvm"; lit "-cpu"; lit "host"].

Definition run_qemu (kernel : Path) (initramfs_data : bytes) (disk : Path)
  (cmdline_extra : str) (tmp_dir : Path) (timeout : Z) : M str :=
  work <- mkdtemp tmp_dir ;;
  let initrd := path_join work (lit "initramfs.cpio.gz") in
  emit (EvWriteBytes (path_str initrd) initramfs_data) ;;;
  let cmd := qemu_cmd kernel initrd disk cmdline_extra in
  result <- subprocess_run cmd None false (Some timeout) ;;
  ret (stdout result ++ stderr result).

(** The boot step of [verify_iso_boot.main], which catches the timeout. *)
Definition iso_boot_output (qemu_bin iso_file : str) : M str :=
  let cmd :=
    [qemu_bin; lit "-cdrom"; iso_file;
     lit "-nographic"; lit "-no-reboot"; lit "-m"; lit "512M";
     lit "-enable-kvm"; lit "-cpu"; lit "host";
     lit "-boot"; lit "d"] in
  fun st =>
    match subprocess_run cmd None false (Some 60) st with
    | (Ok r, st') => (Ok (stdout r ++ stderr r), st')
    | (Raise (TimeoutExpired _ _ _ _), st') => (Ok [], st')
    | (Raise e, st') => (Raise e, st')
    end.

(** *** Test cases *)

Definition IMA_TEST_PASS : str := lit "IMA-TEST-PASS".
Definition IMA_RESULT_PASS : str := lit "IMA-RESULT:PASS".

Definition test_enforced_signed_binary_runs
  (ima_kernel ima_test_binary ima_init_binary ima_cert_der ima_key
   ima_tmp_dir : Path) : M unit :=
  disk <- build_ext4_image ima_test_binary ima_tmp_dir true (Some ima_key) ;;
  initramfs <- build_initramfs ima_init_binary ima_cert_der ;;
  output <- run_qemu ima_kernel initramfs disk
              (lit "ima_appraise=enforce ima_test_mode=enforce_signed")
              ima_tmp_dir 30 ;;
  assert_ (contains IMA_TEST_PASS output)
          (lit "Binary did not run:" ++ newline ++ output) ;;;
  assert_ (contains IMA_RESULT_PASS output)
          (lit "Init reported failure:" ++ newline ++ output).

Definition test_enforced_unsigned_binary_rejected
  (ima_kernel ima_test_binary ima_init_binary ima_cert_der
   ima_tmp_dir : Path) : M unit :=
  disk <- build_ext4_image ima_test_binary ima_tmp_dir false None ;;
  initramfs <- build_initramfs ima_init_binary ima_cert_der ;;
  output <- run_qemu ima_kernel initramfs disk
              (lit "ima_appraise=enforce ima_test_mode=enforce_unsigned")
              ima_tmp_dir 30 ;;
  assert_ (negb (contains IMA_TEST_PASS output))
          (lit "Unsigned binary should not have run:" ++ newline ++ output) ;;;
  assert_ (contains IMA_RESULT_PASS output)
          (lit "Init should report EACCES as expected:" ++ newline ++ output).

Definition test_disabled_unsigned_binary_runs
  (ima_kernel ima_test_binary ima_init_binary ima_cert_der
   ima_tmp_dir : Path) : M unit :=
  disk <- build_ext4_image ima_test_binary ima_tmp_dir false None ;;
  initramfs <- build_initramfs ima_init_binary ima_cert_der ;;
  output <- run_qemu ima_kernel initramfs disk
              (lit "ima_appraise=off ima_test_mode=noima")
              ima_tmp_dir 30 ;;
  assert_ (contains IMA_TEST_PASS output)
          (lit "Binary did not run:" ++ newline ++ output) ;;;
  assert_ (contains IMA_RESULT_PASS output)
          (lit "Init reported failure:" ++ newline ++ output).

End Harness.

(* ------------------------------------------------------------------ *)
(** ** The archive as a list of entries *)
(* ------------------------------------------------------------------ *)

(** What one call of [_cpio_entry] is given, but for the inode. *)
Record entry : Type := mkEntry {
  e_name : str;
  e_data : bytes;
  e_mode : Z;
  e_nlink : Z
}.

Definition dir_entry (name : str) : entry := mkEntry name [] mode_dir 2.

(** The write sequence of [build_initramfs] for any list of entries:
    [entries.write(_cpio_entry(.., ino=ino)); ino += 1] for each. *)
Fixpoint write_entries (entries : BytesIO) (ino : Z) (es : list entry)
  : result (BytesIO * Z) :=
  match es with
  | [] => Ok (entries, ino)
  | e :: es' =>
      (b <- _cpio_entry (e_name e) (e_data e) (e_mode e) ino (e_nlink e) ;;
       write_entries (bwrite entries b) (ino + 1) es')%result
  end.

(** The entries, numbered from inode 1, then the trailer. *)
Definition cpio_archive (es : list entry) : result bytes :=
  (st <- write_entries BytesIO_new 1 es ;;
   b <- _cpio_trailer ;;
   Ok (getvalue (bwrite (fst st) b)))%result.

(** The entries [build_initramfs] writes before the trailer. *)
Definition initramfs_entries (init_data cert_data : bytes) : list entry :=
  dir_entry (lit ".")
  :: List.map dir_entry initramfs_dirs
  ++ [mkEntry (lit "etc/keys/x509_ima.der") cert_data mode_cert 1;
      mkEntry (lit "init") init_data mode_init 1].

(* ------------------------------------------------------------------ *)
(** ** A reader of the newc format *)
(* ------------------------------------------------------------------ *)

(** The reader follows the format, not the builder: a 6-byte magic, 13
    fields of 8 hexadecimal digits, the name ([namesize] bytes, a C
    string), padding to a multiple of 4, the content ([filesize] bytes),
    padding to a multiple of 4; it stops at the entry named
    [TRAILER!!!]. *)

Definition obind {A B : Type} (o : option A) (k : A -> option B) : option B :=
  match o with
  | Some a => k a
  | None => None
  end.

Declare Scope opt_scope.
Delimit Scope opt_scope with opt.
Notation "x <- e ;; k" := (obind e (fun x => k))
  (at level 61, e at next level, right associativity) : opt_scope.

Definition hex_val (b : byte) : option N :=
  let n := Byte.to_N b in
  (if (48 <=? n) && (n <=? 57) then Some (n - 48)
   else if (65 <=? n) && (n <=? 70) then Some (n - 55)
   else if (97 <=? n) && (n <=? 102) then Some (n - 87)
   else None)%N.

Fixpoint parse_hex_acc (acc : N) (bs : bytes) : option N :=
  match bs with
  | [] => Some acc
  | b :: bs' =>
      match hex_val b with
      | Some d => parse_hex_acc (acc * 16 + d)%N bs'
      | None => None
      end
  end.

Definition parse_hex (bs : bytes) : option N := parse_hex_acc 0%N bs.

(** One 8-digit field and what follows it. *)
Definition take_field (bs : bytes) : option (N * bytes) :=
  if (List.length bs <? 8)%nat then None
  else (v <- parse_hex (List.firstn 8 bs) ;; Some (v, List.skipn 8 bs))%opt.

Fixpoint bytes_eqb (a b : bytes) : bool :=
  match a, b with
  | [], [] => true
  | x :: a', y :: b' => Byte.eqb x y && bytes_eqb a' b'
  | _, _ => false
  end.

Record cpio_rec : Type := mkRec {
  r_ino : N;
  r_mode : N;
  r_nlink : N;
  r_name : bytes;
  r_data : bytes
}.

Definition newc_magic : bytes := List.map ascii_byte (lit "070701").

(** Bytes to skip after a part that ends at offset [n]. *)
Definition pad_len (n : nat) : nat := ((4 - n mod 4) mod 4)%nat.

(** The bytes of a C string: up to the first NUL. *)
Fixpoint c_string (bs : bytes) : bytes :=
  match bs with
  | [] => []
  | b :: bs' => if Byte.eqb b NUL then [] else b :: c_string bs'
  end.

Definition read_entry (bs : bytes) : option (cpio_rec * bytes) :=
  (if bytes_eqb (List.firstn 6 bs) newc_magic then
     f1 <- take_field (List.skipn 6 bs) ;;      (* ino *)
     f2 <- take_field (snd f1) ;;               (* mode *)
     f3 <- take_field (snd f2) ;;               (* uid *)
     f4 <- take_field (snd f3) ;;               (* gid *)
     f5 <- take_field (snd f4) ;;               (* nlink *)
     f6 <- take_field (snd f5) ;;               (* mtime *)
     f7 <- take_field (snd f6) ;;               (* filesize *)
     f8 <- take_field (snd f7) ;;               (* devmajor *)
     f9 <- take_field (snd f8) ;;               (* devminor *)
     f10 <- take_field (snd f9) ;;              (* rdevmajor *)
     f11 <- take_field (snd f10) ;;             (* rdevminor *)
     f12 <- take_field (snd f11) ;;             (* namesize *)
     f13 <- take_field (snd f12) ;;             (* check *)
     let rest := snd f13 in
     let namesize := N.to_nat (fst f12) in
     let filesize := N.to_nat (fst f7) in
     if (namesize =? 0)%nat || (List.length rest <? namesize)%nat then None
     else
       let name := c_string (List.firstn namesize rest) in
       let rest1 := List.skipn (namesize + pad_len (110 + namesize)) rest in
       if (List.length rest1 <? filesize)%nat then None
       else
         let data := List.firstn filesize rest1 in
         let rest2 := List.skipn (filesize + pad_len filesize) rest1 in
         Some (mkRec (fst f1) (fst f2) (fst f5) name data, rest2)
   else None)%opt.

Definition trailer_name : bytes := List.map ascii_byte TRAILER.

Fixpoint newc_read (fuel : nat) (bs : bytes) : option (list cpio_rec) :=
  match fuel with
  | O => None
  | S f =>
      (e <- read_entry bs ;;
       if bytes_eqb (r_name (fst e)) trailer_name then Some []
       else (l <- newc_read f (snd e) ;; Some (fst e :: l)))%opt
  end.

(** Every entry takes at least one byte, so the length is fuel enough. *)
Definition newc_decode (bs : bytes) : option (list cpio_rec) :=
  newc_read (S (List.length bs)) bs.

(** What the round trip compares: name, mode and content. *)
Definition entry_view (e : entry) : str * Z * bytes :=
  (e_name e, e_mode e, e_data e).

Definition rec_view (r : cpio_rec) : str * Z * bytes :=
  (List.map Byte.to_N (r_name r), Z.of_N (r_mode r), r_data r).

(* ------------------------------------------------------------------ *)
(** ** Vocabulary of the properties and sample inputs *)
(* ------------------------------------------------------------------ *)

(** *** Entries as bytes *)

Definition all_ascii (s : str) : Prop := Forall (fun c => is_ascii c = true) s.

(** The header as text, for the fields [_cpio_entry] sets. *)
Definition header_text (ino mode nlink filesize namesize : Z) : str :=
  lit "070701"
  ++ format_08X ino ++ format_08X mode ++ format_08X 0 ++ format_08X 0
  ++ format_08X nlink ++ format_08X 0 ++ format_08X filesize
  ++ format_08X 0 ++ format_08X 0 ++ format_08X 0 ++ format_08X 0
  ++ format_08X namesize ++ format_08X 0.

Definition header_bytes (ino mode nlink filesize namesize : Z) : bytes :=
  List.map ascii_byte (header_text ino mode nlink filesize namesize).

(** The padding after a part that ends at offset [pos]. *)
Definition padding (pos : Z) : bytes :=
  if pos mod 4 =? 0 then [] else zeros (4 - pos mod 4).

(** The bytes of an entry whose name is ASCII. *)
Definition entry_bytes (name : str) (data : bytes) (mode ino nlink : Z) : bytes :=
  let hdr := header_bytes ino mode nlink (len data) (len name + 1) in
  hdr ++ (List.map ascii_byte name ++ [NUL])
  ++ padding (len hdr + (len name + 1))
  ++ data ++ padding (len data).

(** Field [k] (from 0) of a header: 8 bytes at offset [6 + 8k]. *)
Definition header_field (k : nat) (hdr : bytes) : bytes :=
  List.firstn 8 (List.skipn (6 + 8 * k) hdr).

(** An ASCII string as bytes. *)
Definition enc (s : str) : bytes := List.map ascii_byte s.

(** A value that fits an 8-digit hexadecimal field. *)
Definition in_u32 (v : Z) : Prop := 0 <= v < 4294967296.

(** *** Scenarios *)

Inductive scenario : Type := EnforceSigned | EnforceUnsigned | DisabledUnsigned.

(** The session fixtures the test methods are given. *)
Record fixtures : Type := {
  ima_kernel : Path;
  ima_test_binary : Path;
  ima_init_binary : Path;
  ima_cert_der : Path;
  ima_key : Path;
  ima_tmp_dir : Path
}.

(** The test method of each scenario. *)
Definition run_test (zlib : Zlib) (w : World) (s : scenario) (fx : fixtures)
  : M unit :=
  match s with
  | EnforceSigned =>
      test_enforced_signed_binary_runs zlib w
        (ima_kernel fx) (ima_test_binary fx) (ima_init_binary fx)
        (ima_cert_der fx) (ima_key fx) (ima_tmp_dir fx)
  | EnforceUnsigned =>
      test_enforced_unsigned_binary_rejected zlib w
        (ima_kernel fx) (ima_test_binary fx) (ima_init_binary fx)
        (ima_cert_der fx) (ima_tmp_dir fx)
  | DisabledUnsigned =>
      test_disabled_unsigned_binary_runs zlib w
        (ima_kernel fx) (ima_test_binary fx) (ima_init_binary fx)
        (ima_cert_der fx) (ima_tmp_dir fx)
  end.

(** The table of the three scenarios: is the marker expected? *)
Definition expects_binary_ran (s : scenario) : bool :=
  match s with
  | EnforceSigned => true
  | EnforceUnsigned => false
  | DisabledUnsigned => true
  end.

Definition expects_init_verdict (s : scenario) : bool :=
  match s with
  | EnforceSigned => true
  | EnforceUnsigned => true
  | DisabledUnsigned => true
  end.

Definition scenario_signed (s : scenario) : bool :=
  match s with EnforceSigned => true | _ => false end.

Definition scenario_cmdline (s : scenario) : str :=
  match s with
  | EnforceSigned => lit "ima_appraise=enforce ima_test_mode=enforce_signed"
  | EnforceUnsigned => lit "ima_appraise=enforce ima_test_mode=enforce_unsigned"
  | DisabledUnsigned => lit "ima_appraise=off ima_test_mode=noima"
  end.

(** What a scenario does before it asserts: image, payload, boot. *)
Definition scenario_boot (zlib : Zlib) (w : World) (s : scenario)
  (fx : fixtures) : M str :=
  (disk <- build_ext4_image w (ima_test_binary fx) (ima_tmp_dir fx)
             (scenario_signed s)
             (if scenario_signed s then Some (ima_key fx) else None) ;;
   initramfs <- build_initramfs zlib w (ima_init_binary fx) (ima_cert_der fx) ;;
   run_qemu w (ima_kernel fx) initramfs disk (scenario_cmdline s)
            (ima_tmp_dir fx) 30)%io.

(** *** Sample worlds *)

Definition is_cmd (name : str) (cmd : list str) : bool :=
  match cmd with
  | c :: _ => str_eqb c name
  | [] => false
  end.

(** A tool that exits at once with the given status and output. *)
Definition quick (rc : Z) (out : str) : process :=
  {| proc_duration := 1; proc_returncode := rc;
     proc_stdout := out; proc_stderr := [];
     proc_captured := fun _ => ([], []) |}.

(** An emulator that prints one line and then hangs for an hour. *)
Definition hung_qemu : process :=
  {| proc_duration := 3600; proc_returncode := 0;
     proc_stdout := lit "Booting the kernel"; proc_stderr := [];
     proc_captured := fun _ => (lit "Booting the kernel", []) |}.

(** An emulator that boots and prints both markers. *)
Definition good_qemu : process :=
  {| proc_duration := 5; proc_returncode := 0;
     proc_stdout := lit "IMA-TEST-PASS IMA-RESULT:PASS"; proc_stderr := [];
     proc_captured := fun _ => ([], []) |}.

Definition sample_world (qemu debugfs buck2 : process) (sig_made : bool)
  : World :=
  {| which := fun _ => Some (lit "/usr/bin/tool");
     spawn := fun cmd _ =>
       if is_cmd (lit "qemu-system-x86_64") cmd then qemu
       else if is_cmd (lit "debugfs") cmd then debugfs
       else if is_cmd (lit "buck2") cmd then buck2
       else quick 0 [];
     path_exists := fun _ => sig_made;
     file_bytes := fun _ => Some [x41; x42; x43];
     temp_name := fun d n => d ++ lit "/tmp" ++ [(48 + N.of_nat n)%N];
     uuid4_hex := fun _ => lit "0123456789abcdef0123456789abcdef";
     time_now := 1700000000 |}.

Definition hung_world : World :=
  sample_world hung_qemu (quick 0 []) (quick 0 []) true.

Definition good_world : World :=
  sample_world good_qemu (quick 0 []) (quick 0 []) true.

(** The signature file is there, the image editor exits with status 1. *)
Definition debugfs_fails_world : World :=
  sample_world good_qemu (quick 1 []) (quick 0 []) true.

(** buck2 prints a target and an output path that has a space in it. *)
Definition spaced_path_world : World :=
  sample_world good_qemu (quick 0 [])
    (quick 0 (lit "root//t:x /tmp/my dir/out" ++ newline)) true.

(** buck2 prints a target and its output path. *)
Definition good_buck2_world : World :=
  sample_world good_qemu (quick 0 [])
    (quick 0 (lit "root//t:x /tmp/out" ++ newline)) true.

Definition sample_fixtures : fixtures :=
  {| ima_kernel := mkPath (lit "/k/bzImage");
     ima_test_binary := mkPath (lit "/b/ima-test");
     ima_init_binary := mkPath (lit "/b/init");
     ima_cert_der := mkPath (lit "/t/ima-test.der");
     ima_key := mkPath (lit "/keys/ima-test.priv");
     ima_tmp_dir := mkPath (lit "/t") |}.

(** *** Names the harness builds *)

(** The scratch file [run_qemu] writes the payload to. *)
Definition qemu_initrd (w : World) (tmp_dir : Path) (st : St) : Path :=
  path_join (mkPath (temp_name w (path_str tmp_dir) (fresh st)))
            (lit "initramfs.cpio.gz").

(** Names of what [build_ext4_image] works with, from its scratch
    directory [work]. *)
Definition ext4_work (w : World) (tmp_dir : Path) (st : St) : Path :=
  mkPath (temp_name w (path_str tmp_dir) (fresh st)).

Definition ext4_img (work : Path) : Path := path_join work (lit "disk.img").

Definition mke2fs_cmd (work : Path) : list str :=
  [lit "mke2fs"; lit "-t"; lit "ext4"; lit "-d";
   path_str (path_join work (lit "empty")); path_str (ext4_img work);
   lit "8M"].

Definition evmctl_cmd (key work : Path) : list str :=
  [lit "evmctl"; lit "ima_sign"; lit "--sigfile"; lit "--key";
   path_str key; path_str (path_join work (lit "ima-test"))].

Definition sig_path (work : Path) : Path :=
  mkPath (path_str (path_join work (lit "ima-test")) ++ lit ".sig").

Definition debugfs_batch (work : Path) : Path :=
  path_join work (lit "debugfs.cmds").

Definition debugfs_cmd (work : Path) : list str :=
  [lit "debugfs"; lit "-w"; lit "-f"; path_str (debugfs_batch work);
   path_str (ext4_img work)].

(** The batch of the signed variant: its third line sets the extended
    attribute [security.ima] from the signature file. *)
Definition signed_batch_text (binary_path work : Path) : str :=
  join newline
    [lit "write " ++ path_str binary_path ++ lit " /ima-test";
     lit "set_inode_field /ima-test mode 0100755";
     lit "ea_set /ima-test security.ima -f " ++ path_str (sig_path work)]
  ++ newline.

Definition no_space (s : str) : Prop := Forall (fun c => is_space c = false) s.

(** The command line of [_buck2_build]. *)
Definition buck2_cmd (w : World) (target : str) (st : St) : list str :=
  [lit "buck2"; lit "--isolation-dir";
   lit "ima-" ++ List.firstn 12 (uuid4_hex w (fresh st));
   lit "build"; lit "--show-full-output";
   lit "-c"; lit "buckos.use_host_toolchain=true"; target].

(** *** The compressed payload *)

(** The MTIME field of a gzip member: bytes 4 to 7. *)
Definition gzip_mtime (gz : bytes) : bytes := List.firstn 4 (List.skipn 4 gz).

(** A stand-in for the compression library: stored, not compressed. *)
Definition sample_zlib : Zlib :=
  {| deflate := fun _ b => b; crc32 := fun b => len b |}.

(** *** Layout of an archive *)

(** The entries with the inode each is written with. *)
Fixpoint number_from (ino : Z) (es : list entry) : list (Z * entry) :=
  match es with
  | [] => []
  | e :: es' => (ino, e) :: number_from (ino + 1) es'
  end.

Definition trailer_entry : entry := mkEntry TRAILER [] 0 1.

Definition archive_layout (es : list entry) : list (Z * entry) :=
  number_from 1 es ++ [(0, trailer_entry)].

Definition placed_bytes (ie : Z * entry) : bytes :=
  entry_bytes (e_name (snd ie)) (e_data (snd ie)) (e_mode (snd ie))
              (fst ie) (e_nlink (snd ie)).

(** The file type bits of a mode: [mode & 0o170000 == 0o040000]. *)
Definition is_dir_mode (mode : Z) : bool := Z.land mode 61440 =? 16384.

(** The proper directory prefixes of a path: what stands before each
    [/]. *)
Fixpoint path_prefixes_aux (cur : str) (s : str) : list str :=
  match s with
  | [] => []
  | c :: s' =>
      if (c =? 47)%N then List.rev cur :: path_prefixes_aux (c :: cur) s'
      else path_prefixes_aux (c :: cur) s'
  end.

Definition path_prefixes (name : str) : list str := path_prefixes_aux [] name.

Definition inode_unique (l : list (Z * entry)) : Prop :=
  NoDup (List.map fst l).

Definition dirs_precede (l : list (Z * entry)) : Prop :=
  forall i ie p,
    List.nth_error l i = Some ie ->
    List.In p (path_prefixes (e_name (snd ie))) ->
    exists j d,
      (j < i)%nat /\ List.nth_error l j = Some d
      /\ is_dir_mode (e_mode (snd d)) = true
      /\ e_name (snd d) = p.

Definition ends_with_trailer (l : list (Z * entry)) : Prop :=
  exists body ino e,
    l = body ++ [(ino, e)]
    /\ e_name e = TRAILER /\ e_mode e = 0 /\ e_data e = [].

Definition names_ascii (es : list entry) : Prop :=
  Forall (fun e => all_ascii (e_name e)) es.

Definition sample_payload : bytes :=
  match fst (build_initramfs sample_zlib good_world
               (ima_init_binary sample_fixtures)
               (ima_cert_der sample_fixtures) st0) with
  | Ok gz => gz
  | Raise _ => []
  end.

(** *** Reading back *)

Definition no_nul (s : str) : Prop := Forall (fun c => c <> 0%N) s.

(** The conditions under which an entry reads back. *)
Definition readable (ino : Z) (e : entry) : Prop :=
  all_ascii (e_name e) /\ no_nul (e_name e)
  /\ in_u32 ino /\ in_u32 (e_mode e) /\ in_u32 (e_nlink e)
  /\ in_u32 (len (e_data e)) /\ in_u32 (len (e_name e) + 1).

(** The record the reader is expected to give for a written entry. *)
Definition rec_of (ie : Z * entry) : cpio_rec :=
  mkRec (Z.to_N (fst ie)) (Z.to_N (e_mode (snd ie)))
        (Z.to_N (e_nlink (snd ie))) (enc (e_name (snd ie))) (e_data (snd ie)).

(** What an entry must satisfy to survive the round trip: an ASCII name
    without NUL that is not the trailer's, and a mode, a link count, a
    content length and a name length that fit the 8-digit fields. *)
Definition roundtrips (e : entry) : Prop :=
  all_ascii (e_name e) /\ no_nul (e_name e) /\ e_name e <> TRAILER
  /\ in_u32 (e_mode e) /\ in_u32 (e_nlink e)
  /\ in_u32 (len (e_data e)) /\ in_u32 (len (e_name e) + 1).

Definition sample_entries : list entry :=
  [dir_entry (lit "."); dir_entry (lit "etc");
   mkEntry (lit "etc/motd") [x68; x69; x0a] mode_cert 1;
   mkEntry (lit "init") [x7f; x45; x4c; x46; x02] mode_init 1].

(** *** Closed forms of the image build and of the boot *)

(** The batch of the unsigned variant. *)
Definition unsigned_batch_text (binary_path : Path) : str :=
  join newline
    [lit "write " ++ path_str binary_path ++ lit " /ima-test";
     lit "set_inode_field /ima-test mode 0100755"]
  ++ newline.

(** The last two steps of [build_ext4_image]: the batch is written and
    [debugfs] is run on it with [check=True]. *)
Definition ext4_finish (w : World) (work : Path) (n : nat)
  (tr : list event) (text : str) : result Path * St :=
  let tr' := tr ++ [EvWriteText (path_str (debugfs_batch work)) text;
                    EvExec (debugfs_cmd work) None] in
  let p := spawn w (debugfs_cmd work) None in
  if proc_returncode p =? 0 then (Ok (ext4_img work), mkSt n tr')
  else (Raise (CalledProcessError (debugfs_cmd work) (proc_returncode p)
                                  (proc_stdout p) (proc_stderr p)),
        mkSt n tr').

(** [build_ext4_image], step by step. *)
Definition ext4_unfolded (w : World) (binary_path tmp_dir : Path)
  (signed : bool) (key_path : option Path) (st : St) : result Path * St :=
  let work := ext4_work w tmp_dir st in
  let n := S (fresh st) in
  let mk := spawn w (mke2fs_cmd work) None in
  let tr1 := trace st
             ++ [EvMkdir (path_str work);
                 EvMkdir (path_str (path_join work (lit "empty")));
                 EvExec (mke2fs_cmd work) None] in
  if negb (proc_returncode mk =? 0) then
    (Raise (CalledProcessError (mke2fs_cmd work) (proc_returncode mk)
                               (proc_stdout mk) (proc_stderr mk)),
     mkSt n tr1)
  else if signed then
    match key_path with
    | None => (Raise (AssertionError []), mkSt n tr1)
    | Some key =>
        let tr2 := tr1
                   ++ [EvCopy (path_str binary_path)
                              (path_str (path_join work (lit "ima-test")));
                       EvExec (evmctl_cmd key work) None] in
        if path_exists w (path_str (sig_path work)) then
          ext4_finish w work n tr2 (signed_batch_text binary_path work)
        else
          (Raise (AssertionError (lit "evmctl did not create "
                                  ++ path_str (sig_path work))),
           mkSt n tr2)
    end
  else ext4_finish w work n tr1 (unsigned_batch_text binary_path).

(** The path an event creates or writes, if any. *)
Definition event_target (e : event) : option str :=
  match e with
  | EvMkdir p => Some p
  | EvWriteBytes p _ => Some p
  | EvWriteText p _ => Some p
  | EvCopy _ dst => Some dst
  | EvExec _ _ => None
  | EvKill _ => None
  end.

(** A name that stays in its directory: not empty, neither [.] nor [..],
    and without a slash. *)
Definition plain_name (n : str) : bool :=
  kept_part n && negb (str_eqb n (lit ".."))
  && negb (List.existsb (N.eqb 47) n).

(** [p] without its prefix [d], when it starts with [d]. *)
Fixpoint drop_prefix (d p : str) : option str :=
  match d, p with
  | [], _ => Some p
  | a :: d', b :: p' => if (a =? b)%N then drop_prefix d' p' else None
  | _ :: _, [] => None
  end.

(** [p] names an entry of the directory [d] itself: [d], a slash and a
    plain name. *)
Definition entry_of (d p : str) : bool :=
  match drop_prefix (d ++ lit "/") p with
  | Some n => plain_name n
  | None => false
  end.

(** Every path the events create or write is an entry of [dir]. *)
Definition writes_within (dir : str) (evs : list event) : Prop :=
  Forall (fun e => match event_target e with
                   | Some p => entry_of dir p = true
                   | None => True
                   end) evs.

Definition is_exec_of (cmd : list str) (e : event) : Prop :=
  exists cwd, e = EvExec cmd cwd.

(** [run_qemu], step by step. *)
Definition run_qemu_unfolded (w : World) (kernel : Path)
  (initramfs_data : bytes) (disk : Path) (cmdline_extra : str)
  (tmp_dir : Path) (timeout : Z) (st : St) : result str * St :=
  let initrd := qemu_initrd w tmp_dir st in
  let cmd := qemu_cmd kernel initrd disk cmdline_extra in
  let p := spawn w cmd None in
  let tr := trace st
            ++ [EvMkdir (temp_name w (path_str tmp_dir) (fresh st));
                EvWriteBytes (path_str initrd) initramfs_data;
                EvExec cmd None] in
  if timeout <? proc_duration p then
    (Raise (TimeoutExpired cmd timeout (fst (proc_captured p timeout))
                           (snd (proc_captured p timeout))),
     mkSt (S (fresh st)) (tr ++ [EvKill cmd]))
  else
    (Ok (proc_stdout p ++ proc_stderr p), mkSt (S (fresh st)) tr).

(** [_buck2_build], step by step. *)
Definition buck2_unfolded (w : World) (repo_root : Path) (target : str)
  (timeout : Z) (st : St) : result Path * St :=
  match which w (lit "buck2") with
  | None => (Raise (Skipped (lit "buck2 not found on PATH")), st)
  | Some _ =>
      let cmd := buck2_cmd w target st in
      let cwd := Some (path_str repo_root) in
      let p := spawn w cmd cwd in
      let st1 := mkSt (S (fresh st)) (trace st ++ [EvExec cmd cwd]) in
      if timeout <? proc_duration p then
        (Raise (TimeoutExpired cmd timeout (fst (proc_captured p timeout))
                               (snd (proc_captured p timeout))),
         mkSt (S (fresh st)) (trace st ++ [EvExec cmd cwd; EvKill cmd]))
      else if proc_returncode p =? 0 then
        match first_output_path (splitlines (strip (proc_stdout p))) with
        | Some out => (Ok out, st1)
        | None =>
            (Raise (Failed (lit "Could not parse output path from: "
                            ++ proc_stdout p)), st1)
        end
      else
        (Raise (AssertionError (lit "buck2 build failed for " ++ target
                                ++ lit ":" ++ newline ++ proc_stderr p)), st1)
  end.

Definition no_linebreak (s : str) : Prop :=
  Forall (fun c => is_linebreak c = false) s.

(** A line with fewer than two white-space separated tokens. *)
Definition few_tokens (line : str) : Prop :=
  (List.length (split_ws line) < 2)%nat.

(** *** Session teardown *)

(** What the teardown sees of a directory: the names [iterdir] lists in
    it, and whether a path is a directory. *)
Record DirView : Type := {
  iterdir : str -> list str;
  is_dir : str -> bool
}.

(** The state of the outside during the teardown: the commands run, and
    the trees removed by [shutil.rmtree], oldest first. *)
Record TearSt : Type := mkTear { tear_st : St; removed : list str }.

Definition kill_cmd (name : str) : list str :=
  [lit "buck2"; lit "--isolation-dir"; name; lit "kill"].

(** The filter of the teardown loop:
    [d.is_dir() and d.name.startswith("ima-")]. *)
Definition is_ima_dir (dv : DirView) (buck_out : Path) (name : str) : bool :=
  is_dir dv (path_str (path_join buck_out name))
  && starts_with (lit "ima-") name.

(** The loop over [buck_out.iterdir()]: each selected directory has its
    daemon killed (30 s, exit status ignored) and its tree removed. *)
Fixpoint cleanup_loop (w : World) (dv : DirView) (repo_root buck_out : Path)
  (names : list str) (ts : TearSt) : result unit * TearSt :=
  match names with
  | [] => (Ok tt, ts)
  | name :: rest =>
      if is_ima_dir dv buck_out name then
        match subprocess_run w (kill_cmd name) (Some (path_str repo_root))
                             false (Some 30) (tear_st ts) with
        | (Ok _, st') =>
            cleanup_loop w dv repo_root buck_out rest
              (mkTear st' (removed ts ++ [path_str (path_join buck_out name)]))
        | (Raise e, st') => (Raise e, mkTear st' (removed ts))
        end
      else cleanup_loop w dv repo_root buck_out rest ts
  end.

(** The part of the fixture [_cleanup_ima_isolation_dirs] that runs after
    the tests. *)
Definition _cleanup_ima_isolation_dirs (w : World) (dv : DirView)
  (repo_root : Path) (ts : TearSt) : result unit * TearSt :=
  let buck_out := path_join repo_root (lit "buck-out") in
  if path_exists w (path_str buck_out) then
    cleanup_loop w dv repo_root buck_out (iterdir dv (path_str buck_out)) ts
  else (Ok tt, ts).

(** The isolation name [_buck2_build] passes to buck2. *)
Definition buck2_iso_name (w : World) (st : St) : str :=
  lit "ima-" ++ List.firstn 12 (uuid4_hex w (fresh st)).

Definition sample_dirs : DirView :=
  {| iterdir := fun _ => [lit "v2"; lit "ima-0123456789ab"; lit "ima-note.txt";
                          lit "ima-feedbeef0000"];
     is_dir := fun p => negb (contains (lit ".txt") p) |}.

(** *** The ISO boot check ([tests/verify_iso_boot.py]) *)

(** What the check asks of its host.  The last three fields say what
    [os.chmod], the start of a command and the decoding of its output
    raise, if anything; printing is taken to succeed. *)
Record IsoHost : Type := {
  environ_get : str -> option str;                  (* os.environ.get *)
  kvm_access : bool;                                (* os.access("/dev/kvm", ..) *)
  isfile : str -> bool;                             (* os.path.isfile *)
  walk : str -> list (str * list str * list str);   (* os.walk, top down *)
  chmod_error : str -> option exn;                  (* what os.chmod raises, if anything *)
  start_error : list str -> option exn;             (* what starting a command raises *)
  decode_error : list str -> option exn             (* what decoding its output raises *)
}.

(** What the check has done: commands run, modes set, lines printed. *)
Record IsoSt : Type := mkIso {
  iso_base : St;
  iso_chmod : list (str * Z);
  iso_out : list str
}.

(** [os.path.join(a, b)] on POSIX. *)
Definition os_path_join (a b : str) : str :=
  match b with
  | 47%N :: _ => b
  | _ =>
      match List.rev a with
      | [] => b
      | 47%N :: _ => a ++ b
      | _ => a ++ lit "/" ++ b
      end
  end.

(** [s.endswith(suffix)] *)
Definition ends_with (suffix s : str) : bool :=
  starts_with (List.rev suffix) (List.rev s).

(** The truth value of [None] or a string. *)
Definition truthy (o : option str) : bool :=
  match o with
  | None => false
  | Some [] => false
  | Some (_ :: _) => true
  end.

(** The loop of [find_file] over [os.walk(base)]. *)
Fixpoint find_in_walk (name : str) (triples : list (str * list str * list str))
  : option str :=
  match triples with
  | [] => None
  | (dirpath, _, filenames) :: rest =>
      if List.existsb (str_eqb name) filenames
      then Some (os_path_join dirpath name)
      else find_in_walk name rest
  end.

Definition find_file (h : IsoHost) (base name : str) : option str :=
  if isfile h base then Some base
  else find_in_walk name (walk h base).

(** The fallback loop of [main]: the first file ending in [.iso] of each
    walked directory is taken; the walk stops once [iso_file] is true. *)
Fixpoint walk_any_iso (iso_file : option str)
  (triples : list (str * list str * list str)) : option str :=
  match triples with
  | [] => iso_file
  | (dirpath, _, filenames) :: rest =>
      let iso_file' :=
        match List.find (ends_with (lit ".iso")) filenames with
        | Some f => Some (os_path_join dirpath f)
        | None => iso_file
        end in
      if truthy iso_file' then iso_file' else walk_any_iso iso_file' rest
  end.

(** [output[-3000:] if len(output) > 3000 else output] *)
Definition output_tail (output : str) : str :=
  if 3000 <? len output
  then List.skipn (List.length output - 3000) output
  else output.

Definition boot_marker : str := lit "Run /init as init process".

Definition iso_print (line : str) (s : IsoSt) : IsoSt :=
  mkIso (iso_base s) (iso_chmod s) (iso_out s ++ [line]).

(** The resolution of the image in [main]. *)
Definition resolve_iso (h : IsoHost) (iso : str) : option str :=
  let iso_file := find_file h iso (lit "buckos.iso") in
  let iso_file :=
    if truthy iso_file then iso_file
    else walk_any_iso iso_file (walk h iso) in
  if truthy iso_file then iso_file
  else if isfile h iso then Some iso
  else None.

Definition iso_qemu_cmd (qemu_bin iso_file : str) : list str :=
  [qemu_bin; lit "-cdrom"; iso_file;
   lit "-nographic"; lit "-no-reboot"; lit "-m"; lit "512M";
   lit "-enable-kvm"; lit "-cpu"; lit "host";
   lit "-boot"; lit "d"].

Definition is_timeout (e : exn) : bool :=
  match e with
  | TimeoutExpired _ _ _ _ => true
  | _ => false
  end.

(** The body of the [try] of [main]:
    [r = subprocess.run(cmd, capture_output=True, text=True, timeout=60)]
    and [output = r.stdout + r.stderr].  Besides the timeout, the command
    may fail to start, and the output of a command that has exited may
    fail to decode. *)
Definition iso_run (h : IsoHost) (w : World) (cmd : list str) : M str :=
  fun st =>
    match start_error h cmd with
    | Some e => (Raise e, st)
    | None =>
        match subprocess_run w cmd None false (Some 60) st with
        | (Ok r, st') =>
            match decode_error h cmd with
            | Some e => (Raise e, st')
            | None => (Ok (stdout r ++ stderr r), st')
            end
        | (Raise e, st') => (Raise e, st')
        end
    end.

(** The [try] with its handler: [except subprocess.TimeoutExpired] gives
    the empty output, any other exception goes on. *)
Definition iso_boot (h : IsoHost) (w : World) (qemu_bin iso_file : str)
  : M str :=
  fun st =>
    match iso_run h w (iso_qemu_cmd qemu_bin iso_file) st with
    | (Raise e, st') => if is_timeout e then (Ok [], st') else (Raise e, st')
    | (Ok output, st') => (Ok output, st')
    end.

(** [main]: the exit status given to [sys.exit], or the exception that
    escapes.  [os.chmod] stands outside the [try]. *)
Definition iso_main (h : IsoHost) (w : World) (s : IsoSt)
  : result Z * IsoSt :=
  let iso := match environ_get h (lit "ISO") with Some v => v | None => [] end in
  let qemu_dir :=
    match environ_get h (lit "QEMU_DIR") with Some v => v | None => [] end in
  match iso, qemu_dir with
  | [], _ => (Ok 1, iso_print (lit "ERROR: ISO not set") s)
  | _ :: _, [] => (Ok 1, iso_print (lit "ERROR: QEMU_DIR not set") s)
  | _ :: _, _ :: _ =>
      if negb (kvm_access h) then
        (Ok 1, iso_print (lit "FAIL: /dev/kvm not accessible") s)
      else
        match resolve_iso h iso with
        | None => (Ok 1, iso_print (lit "FAIL: no .iso found in " ++ iso) s)
        | Some iso_file =>
            let qemu_bin := find_file h qemu_dir (lit "qemu-system-x86_64") in
            if negb (truthy qemu_bin) then
              (Ok 1, iso_print (lit "FAIL: qemu-system-x86_64 not found in "
                                ++ qemu_dir) s)
            else
              let qemu_bin := match qemu_bin with Some q => q | None => [] end in
              match chmod_error h qemu_bin with
              | Some e => (Raise e, s)
              | None =>
                  let chmods := iso_chmod s ++ [(qemu_bin, 493)] in
                  match iso_boot h w qemu_bin iso_file (iso_base s) with
                  | (Raise e, st') => (Raise e, mkIso st' chmods (iso_out s))
                  | (Ok output, st') =>
                      let s1 := mkIso st' chmods
                                  (iso_out s ++ [output_tail output; lit "---"]) in
                      if contains boot_marker output then
                        (Ok 0, iso_print (lit "PASS: found '" ++ boot_marker
                                          ++ lit "'") s1)
                      else
                        (Ok 1, iso_print (lit "FAIL: '" ++ boot_marker
                                          ++ lit "' not found in output") s1)
                  end
              end
        end
  end.

(** [main] gets as far as the emulator, with this image and this binary. *)
Definition iso_ready (h : IsoHost) (iso_file qemu_bin : str) : Prop :=
  exists iso qemu_dir,
    environ_get h (lit "ISO") = Some iso /\ iso <> []
    /\ environ_get h (lit "QEMU_DIR") = Some qemu_dir /\ qemu_dir <> []
    /\ kvm_access h = true
    /\ resolve_iso h iso = Some iso_file
    /\ find_file h qemu_dir (lit "qemu-system-x86_64") = Some qemu_bin
    /\ qemu_bin <> [].

(** How [main] ends once the image and the binary are settled. *)
Definition iso_verdict (h : IsoHost) (w : World) (iso_file qemu_bin : str)
  : result Z :=
  let cmd := iso_qemu_cmd qemu_bin iso_file in
  let p := spawn w cmd None in
  let caught (e : exn) : result Z := if is_timeout e then Ok 1 else Raise e in
  match chmod_error h qemu_bin with
  | Some e => Raise e
  | None =>
      match start_error h cmd with
      | Some e => caught e
      | None =>
          if 60 <? proc_duration p then Ok 1
          else
            match decode_error h cmd with
            | Some e => caught e
            | None =>
                if contains boot_marker (proc_stdout p ++ proc_stderr p)
                then Ok 0 else Ok 1
            end
      end
  end.

Definition files_of (t : str * list str * list str) : list str := snd t.
Definition dir_of (t : str * list str * list str) : str := fst (fst t).

(** No file of a walked directory ends in [.iso]. *)
Definition no_iso_listed (triples : list (str * list str * list str)) : Prop :=
  Forall (fun t => Forall (fun f => ends_with (lit ".iso") f = false)
                          (files_of t)) triples.

(** A host with the image and the emulator in sub-directories. *)
Definition sample_iso_host : IsoHost :=
  {| environ_get := fun k =>
       if str_eqb k (lit "ISO") then Some (lit "/out/iso")
       else if str_eqb k (lit "QEMU_DIR") then Some (lit "/out/qemu")
       else None;
     kvm_access := true;
     isfile := fun _ => false;
     walk := fun top =>
       if str_eqb top (lit "/out/iso")
       then [(lit "/out/iso", [lit "boot"], [lit "README"]);
             (lit "/out/iso/boot", [], [lit "live.iso"; lit "buckos.iso"])]
       else [(top, [lit "bin"], []);
             (top ++ lit "/bin", [], [lit "qemu-system-x86_64"])];
     chmod_error := fun _ => None;
     start_error := fun _ => None;
     decode_error := fun _ => None |}.

(** *** Environment sanitization ([tools/_env.py]) *)

(** A Python [dict] from strings to strings, in insertion order. *)
Definition dict : Type := list (str * str).

(** [d.get(k)] *)
Fixpoint dict_get (d : dict) (k : str) : option str :=
  match d with
  | [] => None
  | (k', v) :: d' => if str_eqb k' k then Some v else dict_get d' k
  end.

(** [d[k] = v]: the value is replaced in place, a new key goes last. *)
Fixpoint dict_set (d : dict) (k v : str) : dict :=
  match d with
  | [] => [(k, v)]
  | (k', v') :: d' =>
      if str_eqb k' k then (k', v) :: d' else (k', v') :: dict_set d' k v
  end.

(** [d.update(other)] *)
Definition dict_update (d other : dict) : dict :=
  List.fold_left (fun acc kv => dict_set acc (fst kv) (snd kv)) other d.

Definition dict_keys (d : dict) : list str := List.map fst d.

(** The members of the frozenset [_PASSTHROUGH]. *)
Definition _PASSTHROUGH : list str :=
  [lit "HOME"; lit "USER"; lit "LOGNAME";
   lit "TMPDIR"; lit "TEMP"; lit "TMP";
   lit "TERM";
   lit "BUCK_SCRATCH_PATH"].

Definition _DETERMINISM_PINS : dict :=
  [(lit "LC_ALL", lit "C");
   (lit "LANG", lit "C");
   (lit "SOURCE_DATE_EPOCH", lit "315576000");
   (lit "CCACHE_DISABLE", lit "1");
   (lit "RUSTC_WRAPPER", []);
   (lit "CARGO_BUILD_RUSTC_WRAPPER", [])].

(** The loop over [_PASSTHROUGH], in the order [order] the frozenset is
    iterated in: a variable the host has is copied. *)
Definition copy_passthrough (order : list str) (environ : dict) : dict :=
  List.fold_left
    (fun env key =>
       match dict_get environ key with
       | Some val => dict_set env key val
       | None => env
       end)
    order [].

Definition clean_env (order : list str) (environ : dict) : dict :=
  let env := copy_passthrough order environ in
  dict_update env _DETERMINISM_PINS.

(** [sanitize_global_env]: the new content of [os.environ]. *)
Definition sanitize_global_env (order : list str) (environ : dict) : dict :=
  let keep := copy_passthrough order environ in
  let environ := [] in                                (* os.environ.clear() *)
  let environ := dict_update environ keep in
  dict_update environ _DETERMINISM_PINS.

(** [any(ord(c) < 32 or ord(c) == 127 or c == '\\' for c in name)] *)
Definition _has_unsafe_chars (name : str) : bool :=
  List.existsb (fun c => (c <? 32) || (c =? 127) || (c =? 92))%N name.

(** An iteration order of the frozenset: the same members. *)
Definition iterates_passthrough (order : list str) : Prop :=
  forall k, List.In k order <-> List.In k _PASSTHROUGH.

(** Two dicts with the same content, whatever the order of the keys. *)
Definition same_content (a b : dict) : Prop :=
  forall k, dict_get a k = dict_get b k.

Definition sample_environ : dict :=
  [(lit "PATH", lit "/usr/bin"); (lit "HOME", lit "/home/u");
   (lit "LANG", lit "fr_FR.UTF-8"); (lit "LD_PRELOAD", lit "/x.so");
   (lit "TERM", lit "xterm")].

(** *** Kernel headers installer ([tools/kernel_headers.py]) *)

(** The parsed command line. *)
Record KhArgs : Type := {
  source_dir : str;
  config : option str;
  output_dir : str;
  arch : str;
  cross_compile : str;
  allow_host_path : bool;
  hermetic_path : list str;
  hermetic_empty : bool;
  path_prepend : list str
}.

(** What the installer asks of its host; [make_returncode] is the exit
    status of a command run in a given environment.  The operations on
    the file system and the launch of [make] are taken to succeed: an
    [OSError] there ends [main] with a traceback, which is not modelled. *)
Record KhHost : Type := {
  abspath : str -> str;
  kh_isdir : str -> bool;
  kh_isfile : str -> bool;
  kh_exists : str -> bool;
  make_returncode : list str -> dict -> Z;
  passthrough_order : list str
}.

Inductive kh_event : Type :=
| KhRmtree (p : str)
| KhMakedirs (p : str)
| KhCopy (src dst : str)
| KhRun (cmd : list str) (env : dict).

Record KhSt : Type := mkKh {
  kh_environ : dict;
  kh_events : list kh_event;
  kh_stdout : list str;
  kh_stderr : list str
}.

Definition str_truthy (s : str) : bool :=
  match s with [] => false | _ :: _ => true end.

(** [os.environ.get(k, "")] *)
Definition environ_or_empty (environ : dict) (k : str) : str :=
  match dict_get environ k with Some v => v | None => [] end.

Fixpoint dec_digits (fuel : nat) (n : N) : str :=
  match fuel with
  | O => []
  | S f =>
      if (n <? 10)%N then [(48 + n)%N]
      else dec_digits f (n / 10)%N ++ [(48 + n mod 10)%N]
  end.

(** [str(n)] for an integer. *)
Definition str_of_int (n : Z) : str :=
  let digits := dec_digits (S (N.to_nat (N.size (Z.abs_N n)))) (Z.abs_N n) in
  if n <? 0 then 45%N :: digits else digits.

Definition PATH : str := lit "PATH".

(** The PATH chosen from the toolchain flags, or [None] when no flag
    allows one. *)
Definition kh_select_path (h : KhHost) (args : KhArgs) (host_path : str)
  : option str :=
  match hermetic_path args with
  | _ :: _ => Some (join (lit ":") (List.map (abspath h) (hermetic_path args)))
  | [] =>
      if hermetic_empty args then Some []
      else if allow_host_path args then Some host_path
      else None
  end.

(** [":".join(os.path.abspath(p) for p in args.path_prepend if
    os.path.isdir(p))] *)
Definition kh_prepend (h : KhHost) (args : KhArgs) : str :=
  join (lit ":")
       (List.map (abspath h) (List.filter (kh_isdir h) (path_prepend args))).

Definition kh_apply_prepend (h : KhHost) (args : KhArgs) (environ : dict)
  : dict :=
  match path_prepend args with
  | [] => environ
  | _ :: _ =>
      let prepend := kh_prepend h args in
      if str_truthy prepend
      then dict_set environ PATH
             (prepend ++ lit ":" ++ environ_or_empty environ PATH)
      else environ
  end.

Definition kh_config_file (h : KhHost) (args : KhArgs) : option str :=
  match config args with
  | Some (c :: cs) => Some (abspath h (c :: cs))
  | _ => None
  end.

Definition kh_build_dir (h : KhHost) (args : KhArgs) : str :=
  abspath h (output_dir args) ++ lit ".kbuild".

Definition kh_make_cmd (h : KhHost) (args : KhArgs) : list str :=
  [lit "make"; lit "-C"; abspath h (source_dir args);
   lit "O=" ++ kh_build_dir h args;
   lit "ARCH=" ++ arch args;
   lit "INSTALL_HDR_PATH=" ++ abspath h (output_dir args);
   lit "headers_install"]
  ++ (if str_truthy (cross_compile args)
      then [lit "CROSS_COMPILE=" ++ cross_compile args] else []).

(** What is done to the file system before [make] is run. *)
Definition kh_prepare (h : KhHost) (args : KhArgs) : list kh_event :=
  let build_dir := kh_build_dir h args in
  (if kh_exists h build_dir then [KhRmtree build_dir] else [])
  ++ [KhMakedirs build_dir]
  ++ match kh_config_file h args with
     | Some c =>
         if str_truthy c
         then [KhCopy c (os_path_join build_dir (lit ".config"))] else []
     | None => []
     end
  ++ [KhMakedirs (abspath h (output_dir args))].

(** [main]: the exit status and the state it leaves. *)
Definition kernel_headers_main (h : KhHost) (args : KhArgs) (s : KhSt)
  : Z * KhSt :=
  let _host_path := environ_or_empty (kh_environ s) PATH in
  let environ := sanitize_global_env (passthrough_order h) (kh_environ s) in
  match kh_select_path h args _host_path with
  | None =>
      (1, mkKh environ (kh_events s) (kh_stdout s)
               (kh_stderr s
                ++ [lit "error: kernel_headers requires --hermetic-path, --hermetic-empty, or --allow-host-path"]))
  | Some p =>
      let environ := dict_set environ PATH p in
      let environ := kh_apply_prepend h args environ in
      let source_dir := abspath h (source_dir args) in
      let config_file := kh_config_file h args in
      let output_dir := abspath h (output_dir args) in
      if negb (kh_isdir h source_dir) then
        (1, mkKh environ (kh_events s) (kh_stdout s)
                 (kh_stderr s
                  ++ [lit "error: source directory not found: " ++ source_dir]))
      else if match config_file with
              | Some c => str_truthy c && negb (kh_isfile h c)
              | None => false
              end then
        (1, mkKh environ (kh_events s) (kh_stdout s)
                 (kh_stderr s
                  ++ [lit "error: config file not found: "
                      ++ match config_file with Some c => c | None => [] end]))
      else
        let make_cmd := kh_make_cmd h args in
        let out := kh_stdout s
                   ++ [lit "Installing kernel headers to " ++ output_dir;
                       lit "  + " ++ join (lit " ") make_cmd] in
        let evs := kh_events s ++ kh_prepare h args ++ [KhRun make_cmd environ] in
        let rc := make_returncode h make_cmd environ in
        if negb (rc =? 0) then
          (1, mkKh environ evs out
                   (kh_stderr s
                    ++ [lit "error: headers_install failed with exit code "
                        ++ str_of_int rc]))
        else
          (0, mkKh environ (evs ++ [KhRmtree (kh_build_dir h args)])
                   (out ++ [lit "Kernel headers installed successfully"])
                   (kh_stderr s))
  end.

(** The environment [make] is run in, when it is run. *)
Definition kh_make_environ (h : KhHost) (args : KhArgs) (environ0 : dict)
  (p : str) : dict :=
  kh_apply_prepend h args
    (dict_set (sanitize_global_env (passthrough_order h) environ0) PATH p).

Definition sample_kh_host : KhHost :=
  {| abspath := fun p => match p with
                         | 47%N :: _ => p
                         | _ => lit "/work/" ++ p
                         end;
     kh_isdir := fun p => negb (contains (lit "missing") p);
     kh_isfile := fun _ => true;
     kh_exists := fun _ => false;
     make_returncode := fun _ env =>
       match dict_get env (lit "LD_PRELOAD") with Some _ => 2 | None => 0 end;
     passthrough_order := _PASSTHROUGH |}.

Definition sample_kh_args : KhArgs :=
  {| source_dir := lit "linux"; config := None; output_dir := lit "out";
     arch := lit "x86"; cross_compile := [];
     allow_host_path := true; hermetic_path := [lit "/tools/bin"];
     hermetic_empty := false; path_prepend := [lit "extra"] |}.

Definition sample_kh_state : KhSt := mkKh sample_environ [] [] [].

(** The PATH left in the environment once [p] was chosen. *)
Definition kh_final_path (h : KhHost) (args : KhArgs) (p : str) : str :=
  if str_truthy (kh_prepend h args)
  then kh_prepend h args ++ lit ":" ++ p
  else p.

(** The checks [main] makes before it touches the file system. *)
Definition kh_inputs_ok (h : KhHost) (args : KhArgs) : bool :=
  kh_isdir h (abspath h (source_dir args))
  && match kh_config_file h args with
     | Some c => negb (str_truthy c && negb (kh_isfile h c))
     | None => true
     end.

Definition agree_on (keys : list str) (e1 e2 : dict) : Prop :=
  forall k, List.In k keys -> dict_get e1 k = dict_get e2 k.

(* ================================================================== *)
(** * Properties *)
(* ================================================================== *)

(* ------------------------------------------------------------------ *)
(** ** The ASCII codec *)
(* ------------------------------------------------------------------ *)

Lemma all_ascii_app (a b : str) : all_ascii a -> all_ascii b -> all_ascii (a ++ b).
Proof. intros Ha Hb. apply Forall_app; split; assumption. Qed.

Lemma encode_ascii_from_ok (s : str) :
  all_ascii s -> forall pos, encode_ascii_from pos s = Ok (List.map ascii_byte s).
Proof.
  induction 1 as [|c s Hc _ IH]; intros pos; simpl.
  - reflexivity.
  - rewrite Hc, IH. reflexivity.
Qed.

Lemma encode_ascii_ok (s : str) :
  all_ascii s -> encode_ascii s = Ok (List.map ascii_byte s).
Proof. intros H. apply encode_ascii_from_ok, H. Qed.

(** The codec raises as soon as one code point is outside ASCII. *)
Lemma encode_ascii_from_raises (s : str) :
  Exists (fun c => is_ascii c = false) s ->
  forall pos, exists p c,
    encode_ascii_from pos s = Raise (UnicodeEncodeError (lit "ascii") p c)
    /\ is_ascii c = false.
Proof.
  induction s as [|c s IH]; intros Hex pos.
  - inversion Hex.
  - simpl. destruct (is_ascii c) eqn:Hc.
    + assert (Hs : Exists (fun c => is_ascii c = false) s).
      { inversion Hex; subst; [congruence | assumption]. }
      destruct (IH Hs (S pos)) as (p & c' & E & Hc').
      exists p, c'. rewrite E. split; [reflexivity | assumption].
    + exists pos, c. split; [reflexivity | assumption].
Qed.

Lemma encode_ascii_from_length (s : str) :
  forall pos bs, encode_ascii_from pos s = Ok bs -> List.length bs = List.length s.
Proof.
  induction s as [|c s IH]; intros pos bs; simpl.
  - intros [= <-]. reflexivity.
  - destruct (is_ascii c); [|discriminate].
    destruct (encode_ascii_from (S pos) s) as [bs'|e] eqn:E; [|discriminate].
    intros [= <-]. simpl. f_equal. eapply IH, E.
Qed.

(* ------------------------------------------------------------------ *)
(** ** The [08X] format *)
(* ------------------------------------------------------------------ *)

Lemma hex_char_ascii (d : N) : (d < 16)%N -> is_ascii (hex_char d) = true.
Proof.
  intros H. unfold is_ascii, hex_char.
  destruct (d <? 10)%N; apply N.ltb_lt; lia.
Qed.

Lemma hex_digits_ascii (fuel : nat) : forall n, all_ascii (hex_digits fuel n).
Proof.
  induction fuel as [|f IH]; intros n; simpl.
  - constructor.
  - destruct (n <? 16)%N eqn:E.
    + constructor; [|constructor]. apply hex_char_ascii, N.ltb_lt, E.
    + apply all_ascii_app; [apply IH|].
      constructor; [|constructor].
      apply hex_char_ascii, N.mod_upper_bound. discriminate.
Qed.

Lemma repeat_ascii (c : N) (k : nat) :
  is_ascii c = true -> all_ascii (List.repeat c k).
Proof. intros H. induction k; simpl; constructor; assumption. Qed.

Lemma format_08X_ascii (n : Z) : all_ascii (format_08X n).
Proof.
  unfold format_08X, zero_pad, hex_upper.
  destruct (n <? 0).
  - constructor; [reflexivity|].
    apply all_ascii_app; [apply repeat_ascii; reflexivity | apply hex_digits_ascii].
  - apply all_ascii_app; [apply repeat_ascii; reflexivity | apply hex_digits_ascii].
Qed.

Lemma hex_digits_length (fuel : nat) :
  forall n k, (n < 16 ^ N.of_nat (S k))%N ->
              (List.length (hex_digits fuel n) <= S k)%nat.
Proof.
  induction fuel as [|f IH]; intros n k Hn; simpl.
  - lia.
  - destruct (n <? 16)%N eqn:E; simpl; [lia|].
    apply N.ltb_ge in E.
    rewrite length_app. simpl.
    destruct k as [|k].
    + change (16 ^ N.of_nat 1)%N with 16%N in Hn. lia.
    + specialize (IH (n / 16)%N k).
      assert (n / 16 < 16 ^ N.of_nat (S k))%N.
      { apply N.Div0.div_lt_upper_bound.
        replace (N.of_nat (S (S k))) with (N.succ (N.of_nat (S k))) in Hn by lia.
        rewrite N.pow_succ_r' in Hn. exact Hn. }
      specialize (IH H). lia.
Qed.

Lemma hex_digits_nonempty (fuel : nat) (n : N) :
  (1 <= List.length (hex_digits (S fuel) n))%nat.
Proof.
  simpl. destruct (n <? 16)%N; simpl; [lia|].
  rewrite length_app. simpl. lia.
Qed.

(** A value below [2^32] takes exactly eight characters. *)
Lemma format_08X_length (n : Z) :
  0 <= n < 4294967296 -> List.length (format_08X n) = 8%nat.
Proof.
  intros [H0 H1]. unfold format_08X.
  destruct (n <? 0) eqn:E; [apply Z.ltb_lt in E; lia|].
  unfold zero_pad. rewrite length_app, repeat_length.
  assert (List.length (hex_upper (Z.abs_N n)) <= 8)%nat; [|lia].
  apply hex_digits_length. change (16 ^ N.of_nat 8)%N with 4294967296%N. lia.
Qed.

(** In general the field is at least eight characters wide. *)
Lemma format_08X_length_ge (n : Z) : (8 <= List.length (format_08X n))%nat.
Proof.
  unfold format_08X, zero_pad.
  destruct (n <? 0); cbn [List.length]; rewrite length_app, repeat_length; lia.
Qed.

(* ------------------------------------------------------------------ *)
(** ** Shape of one archive entry *)
(* ------------------------------------------------------------------ *)

Lemma pad4_padding (buf : BytesIO) (pos : Z) : pad4 buf pos = buf ++ padding pos.
Proof.
  unfold pad4, padding, bwrite. destruct (pos mod 4 =? 0).
  - rewrite app_nil_r. reflexivity.
  - reflexivity.
Qed.

Lemma header_text_ascii (ino mode nlink filesize namesize : Z) :
  all_ascii (header_text ino mode nlink filesize namesize).
Proof.
  unfold header_text.
  apply all_ascii_app; [unfold all_ascii; repeat constructor|].
  repeat match goal with
         | |- all_ascii (format_08X _ ++ _) =>
             apply all_ascii_app; [apply format_08X_ascii|]
         end.
  apply format_08X_ascii.
Qed.

(** The header never raises: its text is ASCII whatever the fields. *)
Lemma _cpio_header_ok (ino mode nlink filesize namesize : Z) :
  _cpio_header ino mode 0 0 nlink 0 filesize 0 0 0 0 namesize
  = Ok (header_bytes ino mode nlink filesize namesize).
Proof.
  unfold _cpio_header, header_bytes.
  apply (encode_ascii_ok (header_text ino mode nlink filesize namesize)).
  apply header_text_ascii.
Qed.

Lemma _cpio_entry_ok (name : str) (data : bytes) (mode ino nlink : Z) :
  all_ascii name ->
  _cpio_entry name data mode ino nlink = Ok (entry_bytes name data mode ino nlink).
Proof.
  intros Hn. unfold _cpio_entry.
  rewrite _cpio_header_ok. cbn [rbind].
  rewrite (encode_ascii_ok _ Hn). cbn [rbind].
  rewrite !pad4_padding. unfold bwrite, getvalue, BytesIO_new, entry_bytes.
  cbn [app]. rewrite <- !app_assoc. reflexivity.
Qed.

Lemma _cpio_entry_raises (name : str) (data : bytes) (mode ino nlink : Z) :
  Exists (fun c => is_ascii c = false) name ->
  exists p c,
    _cpio_entry name data mode ino nlink
    = Raise (UnicodeEncodeError (lit "ascii") p c)
    /\ is_ascii c = false.
Proof.
  intros Hn. unfold _cpio_entry.
  rewrite _cpio_header_ok. cbn [rbind].
  destruct (encode_ascii_from_raises name Hn 0%nat) as (p & c & E & Hc).
  exists p, c. unfold encode_ascii. rewrite E. split; [reflexivity | assumption].
Qed.

Lemma all_ascii_dec (s : str) :
  all_ascii s \/ Exists (fun c => is_ascii c = false) s.
Proof.
  induction s as [|c s [IH|IH]].
  - left. constructor.
  - destruct (is_ascii c) eqn:E.
    + left. constructor; assumption.
    + right. constructor. assumption.
  - right. apply Exists_cons_tl. assumption.
Qed.

Lemma zeros_length (k : Z) : 0 <= k -> len (zeros k) = k.
Proof. intros H. unfold len, zeros. rewrite repeat_length. lia. Qed.

Lemma padding_aligns (pos : Z) : (pos + len (padding pos)) mod 4 = 0.
Proof.
  unfold padding. destruct (pos mod 4 =? 0) eqn:E.
  - apply Z.eqb_eq in E. cbn. rewrite Z.add_0_r. exact E.
  - assert (0 <= pos mod 4 < 4) by (apply Z.mod_pos_bound; lia).
    rewrite zeros_length by lia.
    rewrite Z.add_sub_assoc, Z.add_comm, <- Z.add_sub_assoc.
    rewrite <- Zplus_mod_idemp_l. rewrite Z.mod_same by lia.
    rewrite Z.add_0_l.
    rewrite Zminus_mod_idemp_r, Z.sub_diag. reflexivity.
Qed.

Lemma padding_length (pos : Z) : 0 <= len (padding pos) < 4.
Proof.
  unfold padding. destruct (pos mod 4 =? 0) eqn:E.
  - cbn. lia.
  - apply Z.eqb_neq in E.
    assert (0 <= pos mod 4 < 4) by (apply Z.mod_pos_bound; lia).
    rewrite zeros_length by lia. lia.
Qed.

Lemma padding_zero (pos : Z) : Forall (eq NUL) (padding pos).
Proof.
  unfold padding, zeros. destruct (pos mod 4 =? 0).
  - constructor.
  - apply Forall_forall. intros b Hb. symmetry. eapply repeat_spec, Hb.
Qed.

Lemma padding_none (pos : Z) : pos mod 4 = 0 -> padding pos = [].
Proof. intros H. unfold padding. rewrite H. reflexivity. Qed.

(* ------------------------------------------------------------------ *)
(** ** Header fields by position *)
(* ------------------------------------------------------------------ *)

Lemma firstn_app_exact {A : Type} (a b : list A) (n : nat) :
  List.length a = n -> List.firstn n (a ++ b) = a.
Proof.
  intros <-. rewrite firstn_app, Nat.sub_diag, firstn_all. simpl.
  apply app_nil_r.
Qed.

Lemma skipn_app_exact {A : Type} (a b : list A) (n : nat) :
  List.length a = n -> List.skipn n (a ++ b) = b.
Proof.
  intros <-. rewrite skipn_app, Nat.sub_diag, skipn_all. reflexivity.
Qed.

Lemma skipn_add {A : Type} (n m : nat) (l : list A) :
  List.skipn (n + m) l = List.skipn m (List.skipn n l).
Proof. rewrite skipn_skipn. f_equal. lia. Qed.

Lemma enc_length (s : str) : List.length (enc s) = List.length s.
Proof. apply length_map. Qed.

Lemma enc_field_length (v : Z) :
  0 <= v < 4294967296 -> List.length (enc (format_08X v)) = 8%nat.
Proof. intros H. rewrite enc_length. apply format_08X_length, H. Qed.

(** The header, field by field. *)
Lemma header_bytes_fields (ino mode nlink filesize namesize : Z) :
  header_bytes ino mode nlink filesize namesize
  = newc_magic
    ++ enc (format_08X ino) ++ enc (format_08X mode) ++ enc (format_08X 0)
    ++ enc (format_08X 0) ++ enc (format_08X nlink) ++ enc (format_08X 0)
    ++ enc (format_08X filesize) ++ enc (format_08X 0) ++ enc (format_08X 0)
    ++ enc (format_08X 0) ++ enc (format_08X 0) ++ enc (format_08X namesize)
    ++ enc (format_08X 0).
Proof.
  unfold header_bytes, header_text, enc, newc_magic.
  rewrite !map_app. reflexivity.
Qed.

Lemma header_bytes_length (ino mode nlink filesize namesize : Z) :
  in_u32 ino -> in_u32 mode -> in_u32 nlink -> in_u32 filesize ->
  in_u32 namesize ->
  List.length (header_bytes ino mode nlink filesize namesize) = 110%nat.
Proof.
  intros. rewrite header_bytes_fields. rewrite !length_app.
  rewrite !enc_field_length by (assumption || (unfold in_u32; lia)).
  reflexivity.
Qed.

(** C3 -- header exactness.  The entry built for the name "init", 100
    bytes of content and inode 5 exists; its header holds, after the six
    fields that precede it, the filesize field "00000064" (100 on 8
    hexadecimal digits) and, after the four device fields, the namesize
    field "00000005", which is len("init") + 1: the NUL is counted.  With
    mode and link count on 32 bits, the two fields are the bytes at
    offsets 54 and 94 of the entry. *)
Theorem cpio_entry_init_header_fields (data : bytes) (mode nlink : Z) :
  len data = 100 ->
  exists hdr body : bytes,
    _cpio_entry (lit "init") data mode 5 nlink = Ok (hdr ++ body)
    /\ _cpio_header 5 mode 0 0 nlink 0 (len data) 0 0 0 0
                    (len (lit "init") + 1) = Ok hdr
    /\ hdr = (newc_magic
              ++ enc (format_08X 5) ++ enc (format_08X mode)
              ++ enc (format_08X 0) ++ enc (format_08X 0)
              ++ enc (format_08X nlink) ++ enc (format_08X 0))
             ++ enc (format_08X 100)
             ++ (enc (format_08X 0) ++ enc (format_08X 0)
                 ++ enc (format_08X 0) ++ enc (format_08X 0))
             ++ enc (format_08X (len (lit "init") + 1))
             ++ enc (format_08X 0)
    /\ format_08X 100 = lit "00000064"
    /\ format_08X (len (lit "init") + 1) = lit "00000005"
    /\ (in_u32 mode -> in_u32 nlink ->
        header_field 6 (hdr ++ body) = enc (lit "00000064")
        /\ header_field 11 (hdr ++ body) = enc (lit "00000005")).
Proof.
  intros Hlen.
  exists (header_bytes 5 mode nlink (len data) (len (lit "init") + 1)).
  eexists.
  split.
  { rewrite _cpio_entry_ok by (unfold all_ascii; repeat constructor).
    unfold entry_bytes. reflexivity. }
  split; [apply _cpio_header_ok|].
  split.
  { rewrite header_bytes_fields, Hlen. rewrite <- !app_assoc. reflexivity. }
  split; [reflexivity|].
  split; [reflexivity|].
  intros Hm Hn.
  rewrite header_bytes_fields, Hlen. unfold header_field.
  assert (L5 : List.length (enc (format_08X 5)) = 8%nat) by reflexivity.
  assert (L0 : List.length (enc (format_08X 0)) = 8%nat) by reflexivity.
  assert (Lm := enc_field_length mode Hm).
  assert (Ln := enc_field_length nlink Hn).
  assert (L6 : List.length newc_magic = 6%nat) by reflexivity.
  split.
  - change (6 + 8 * 6)%nat with (6 + (8 + (8 + (8 + (8 + (8 + 8))))))%nat.
    rewrite <- !app_assoc.
    rewrite !skipn_add.
    rewrite (skipn_app_exact newc_magic _ 6 L6).
    rewrite (skipn_app_exact _ _ 8 L5), (skipn_app_exact _ _ 8 Lm).
    rewrite (skipn_app_exact _ _ 8 L0), (skipn_app_exact _ _ 8 L0).
    rewrite (skipn_app_exact _ _ 8 Ln), (skipn_app_exact _ _ 8 L0).
    apply firstn_app_exact. reflexivity.
  - change (6 + 8 * 11)%nat
      with (6 + (8 + (8 + (8 + (8 + (8 + (8 + (8 + (8 + (8 + (8 + 8)))))))))))%nat.
    rewrite <- !app_assoc.
    rewrite !skipn_add.
    rewrite (skipn_app_exact newc_magic _ 6 L6).
    rewrite (skipn_app_exact _ _ 8 L5), (skipn_app_exact _ _ 8 Lm).
    rewrite (skipn_app_exact _ _ 8 L0), (skipn_app_exact _ _ 8 L0).
    rewrite (skipn_app_exact _ _ 8 Ln), (skipn_app_exact _ _ 8 L0).
    rewrite (skipn_app_exact (enc (format_08X 100)) _ 8 eq_refl).
    rewrite !(skipn_app_exact _ _ 8 L0).
    apply firstn_app_exact. reflexivity.
Qed.

Lemma cpio_entry_init_header_fields_witness :
  exists hdr body : bytes,
    _cpio_entry (lit "init") (List.repeat x41 100) mode_init 5 1
    = Ok (hdr ++ body)
    /\ header_field 6 (hdr ++ body) = enc (lit "00000064")
    /\ header_field 11 (hdr ++ body) = enc (lit "00000005").
Proof.
  destruct (cpio_entry_init_header_fields (List.repeat x41 100) mode_init 1
              eq_refl)
    as (hdr & body & He & _ & _ & _ & _ & Hf).
  exists hdr, body. split; [exact He|].
  apply Hf; unfold in_u32, mode_init; lia.
Defined.

(** C4 -- padding invariant.  Every entry [_cpio_entry] returns is the
    header, the name with its NUL, a run of NUL bytes, the content and a
    second run of NUL bytes, where header length + namesize + first run is
    a multiple of 4 and content length + second run is a multiple of 4;
    a run is empty when the part before it already ends on a multiple of
    4 (and is never 4 bytes or more). *)
Theorem cpio_entry_padding_invariant
  (name : str) (data : bytes) (mode ino nlink : Z) (e : bytes) :
  _cpio_entry name data mode ino nlink = Ok e ->
  exists hdr name_b pad1 pad2 : bytes,
    _cpio_header ino mode 0 0 nlink 0 (len data) 0 0 0 0 (len name + 1) = Ok hdr
    /\ encode_ascii name = Ok name_b
    /\ len name_b = len name
    /\ e = hdr ++ (name_b ++ [NUL]) ++ pad1 ++ data ++ pad2
    /\ Forall (eq NUL) pad1 /\ Forall (eq NUL) pad2
    /\ (len hdr + (len name + 1) + len pad1) mod 4 = 0
    /\ (len data + len pad2) mod 4 = 0
    /\ 0 <= len pad1 < 4 /\ 0 <= len pad2 < 4
    /\ ((len hdr + (len name + 1)) mod 4 = 0 -> pad1 = [])
    /\ (len data mod 4 = 0 -> pad2 = []).
Proof.
  intros He.
  destruct (all_ascii_dec name) as [Hn|Hn].
  - rewrite (_cpio_entry_ok _ _ _ _ _ Hn) in He. injection He as <-.
    exists (header_bytes ino mode nlink (len data) (len name + 1)).
    exists (List.map ascii_byte name).
    exists (padding (len (header_bytes ino mode nlink (len data) (len name + 1))
                     + (len name + 1))).
    exists (padding (len data)).
    split; [apply _cpio_header_ok|].
    split; [apply encode_ascii_ok, Hn|].
    split; [unfold len; rewrite length_map; reflexivity|].
    split; [reflexivity|].
    split; [apply padding_zero|].
    split; [apply padding_zero|].
    split; [apply padding_aligns|].
    split; [apply padding_aligns|].
    split; [apply padding_length|].
    split; [apply padding_length|].
    split; apply padding_none.
  - destruct (_cpio_entry_raises name data mode ino nlink Hn) as (p & c & E & _).
    rewrite E in He. discriminate.
Qed.

Lemma cpio_entry_padding_invariant_witness :
  exists hdr name_b pad1 pad2 : bytes,
    entry_bytes (lit "init") [x41; x42; x43] mode_init 5 1
    = hdr ++ (name_b ++ [NUL]) ++ pad1 ++ [x41; x42; x43] ++ pad2
    /\ (len hdr + (len (lit "init") + 1) + len pad1) mod 4 = 0
    /\ (len [x41; x42; x43] + len pad2) mod 4 = 0.
Proof.
  destruct (cpio_entry_padding_invariant (lit "init") [x41; x42; x43]
              mode_init 5 1
              (entry_bytes (lit "init") [x41; x42; x43] mode_init 5 1)
              eq_refl)
    as (hdr & name_b & pad1 & pad2 & _ & _ & _ & He & _ & _ & H1 & H2 & _).
  exists hdr, name_b, pad1, pad2. repeat split; assumption.
Defined.

(** The entries raise together: one name outside ASCII and the whole
    write sequence raises. *)
Lemma _cpio_entry_cases (name : str) (data : bytes) (mode ino nlink : Z) :
  (all_ascii name
   /\ _cpio_entry name data mode ino nlink
      = Ok (entry_bytes name data mode ino nlink))
  \/ (exists p c, _cpio_entry name data mode ino nlink
                  = Raise (UnicodeEncodeError (lit "ascii") p c)).
Proof.
  destruct (all_ascii_dec name) as [Hn|Hn].
  - left. split; [assumption | apply _cpio_entry_ok, Hn].
  - right. destruct (_cpio_entry_raises name data mode ino nlink Hn)
      as (p & c & E & _). exists p, c. exact E.
Qed.

Lemma write_entries_raises (es : list entry) :
  Exists (fun e => Exists (fun c => is_ascii c = false) (e_name e)) es ->
  forall entries ino, exists p c,
    write_entries entries ino es = Raise (UnicodeEncodeError (lit "ascii") p c).
Proof.
  induction es as [|e es IH]; intros Hex entries ino.
  - inversion Hex.
  - simpl.
    destruct (_cpio_entry_cases (e_name e) (e_data e) (e_mode e) ino (e_nlink e))
      as [[Hn E]|(p & c & E)].
    + rewrite E. cbn [rbind]. apply IH.
      inversion Hex as [? ? Hbad|]; subst; [|assumption].
      exfalso. clear - Hn Hbad. induction Hn as [|c s Hc _ IHs].
      * inversion Hbad.
      * inversion Hbad; subst; [congruence | auto].
    + exists p, c. rewrite E. reflexivity.
Qed.

(** C10 -- names outside ASCII.  When the name holds a code point above
    127, [_cpio_entry] raises the codec's [UnicodeEncodeError] for such a
    code point and returns no bytes; so do [_cpio_dir] and the write
    sequence of the archive as soon as one of its entries has such a
    name. *)
Theorem cpio_entry_non_ascii_raises
  (name : str) (data : bytes) (mode ino nlink : Z) :
  Exists (fun c => is_ascii c = false) name ->
  (exists p c,
      _cpio_entry name data mode ino nlink
      = Raise (UnicodeEncodeError (lit "ascii") p c)
      /\ (128 <= c)%N)
  /\ (forall b, _cpio_entry name data mode ino nlink <> Ok b)
  /\ (exists p c, _cpio_dir name ino = Raise (UnicodeEncodeError (lit "ascii") p c))
  /\ (forall es1 es2,
        exists p c,
          cpio_archive (es1 ++ mkEntry name data mode nlink :: es2)
          = Raise (UnicodeEncodeError (lit "ascii") p c)).
Proof.
  intros Hn.
  destruct (_cpio_entry_raises name data mode ino nlink Hn) as (p & c & E & Hc).
  split.
  { exists p, c. split; [exact E|].
    unfold is_ascii in Hc. apply N.ltb_ge in Hc. exact Hc. }
  split.
  { intros b Hb. rewrite E in Hb. discriminate. }
  split.
  { destruct (_cpio_entry_raises name [] mode_dir ino 2 Hn) as (p' & c' & E' & _).
    exists p', c'. exact E'. }
  intros es1 es2. unfold cpio_archive.
  destruct (write_entries_raises (es1 ++ mkEntry name data mode nlink :: es2))
    with (entries := BytesIO_new) (ino := 1) as (p' & c' & E').
  { apply Exists_app. right. constructor. exact Hn. }
  exists p', c'. rewrite E'. reflexivity.
Qed.

Lemma cpio_entry_non_ascii_raises_witness :
  exists p c,
    _cpio_entry [233%N; 116%N; 99%N] [x41] mode_cert 1 1
    = Raise (UnicodeEncodeError (lit "ascii") p c)
    /\ (128 <= c)%N.
Proof.
  apply (cpio_entry_non_ascii_raises [233%N; 116%N; 99%N] [x41] mode_cert 1 1).
  constructor. reflexivity.
Defined.

(* ------------------------------------------------------------------ *)
(** ** Reasoning about computations *)
(* ------------------------------------------------------------------ *)

Lemma bind_ok {A B : Type} (m : M A) (k : A -> M B) (st st' : St) (b : B) :
  bind m k st = (Ok b, st') <->
  exists a st1, m st = (Ok a, st1) /\ k a st1 = (Ok b, st').
Proof.
  unfold bind. split.
  - destruct (m st) as [[a|e] st1]; intros H.
    + exists a, st1. split; [reflexivity | exact H].
    + discriminate.
  - intros (a & st1 & -> & H). exact H.
Qed.

Lemma Ok_inj {A : Type} (a b : A) : Ok a = Ok b -> a = b.
Proof. intros [= H]. exact H. Qed.

Lemma bind_step {A B : Type} (m : M A) (k : A -> M B) (st st1 : St) (a : A) :
  m st = (Ok a, st1) -> bind m k st = k a st1.
Proof. intros H. unfold bind. rewrite H. reflexivity. Qed.

Lemma bind_raise {A B : Type} (m : M A) (k : A -> M B) (st st1 : St) (e : exn) :
  m st = (Raise e, st1) -> bind m k st = (Raise e, st1).
Proof. intros H. unfold bind. rewrite H. reflexivity. Qed.

Lemma assert_ok (c : bool) (msg : str) (st st' : St) (u : unit) :
  assert_ c msg st = (Ok u, st') <-> c = true /\ st' = st.
Proof.
  unfold assert_, ret, raise. destruct c; split.
  - intros [= _ <-]. split; reflexivity.
  - intros [_ ->]. destruct u. reflexivity.
  - discriminate.
  - intros [? _]. discriminate.
Qed.

(** [needle in hay] finds an occurrence. *)
Lemma starts_with_spec (p s : str) :
  starts_with p s = true <-> exists post, s = p ++ post.
Proof.
  revert s. induction p as [|a p IH]; intros s; simpl.
  - split; [intros _; exists s; reflexivity | reflexivity].
  - destruct s as [|b s].
    + split; [discriminate | intros [post H]; discriminate].
    + rewrite andb_true_iff, N.eqb_eq, IH. split.
      * intros [-> [post ->]]. exists post. reflexivity.
      * intros [post [= -> ->]]. split; [reflexivity | exists post; reflexivity].
Qed.

Lemma contains_spec (needle hay : str) :
  contains needle hay = true <-> exists pre post, hay = pre ++ needle ++ post.
Proof.
  induction hay as [|c hay IH].
  - simpl. rewrite orb_false_r, starts_with_spec. split.
    + intros [post H]. exists [], post. exact H.
    + intros (pre & post & H). destruct pre as [|? pre]; [|discriminate].
      exists post. exact H.
  - cbn [contains]. rewrite orb_true_iff, starts_with_spec, IH. split.
    + intros [[post H]|(pre & post & H)].
      * exists [], post. exact H.
      * exists (c :: pre), post. rewrite H. reflexivity.
    + intros (pre & post & H). destruct pre as [|c' pre].
      * left. exists post. exact H.
      * right. injection H as _ H. exists pre, post. exact H.
Qed.

(* ------------------------------------------------------------------ *)
(** ** The scenario table *)
(* ------------------------------------------------------------------ *)

(** C2 -- scenario verdicts.  In each of the three scenarios the test
    passes exactly when image, payload and boot succeeded and the captured
    output has the markers of the table: enforce+signed and
    disabled+unsigned need both markers, enforce+unsigned needs the
    binary-ran marker absent and the init-verdict marker present; a boot
    whose output departs from the table ends in an [AssertionError]. *)
Theorem scenario_asserts_marker_table
  (zlib : Zlib) (w : World) (s : scenario) (fx : fixtures) (st st' : St) :
  (run_test zlib w s fx st = (Ok tt, st') <->
   exists output,
     scenario_boot zlib w s fx st = (Ok output, st')
     /\ contains IMA_TEST_PASS output = expects_binary_ran s
     /\ contains IMA_RESULT_PASS output = expects_init_verdict s)
  /\ (forall output,
        scenario_boot zlib w s fx st = (Ok output, st') ->
        (contains IMA_TEST_PASS output <> expects_binary_ran s
         \/ contains IMA_RESULT_PASS output <> expects_init_verdict s) ->
        exists msg, run_test zlib w s fx st = (Raise (AssertionError msg), st')).
Proof.
  destruct s; cbn [run_test expects_binary_ran expects_init_verdict];
    unfold scenario_boot, test_enforced_signed_binary_runs,
      test_enforced_unsigned_binary_rejected,
      test_disabled_unsigned_binary_runs;
    cbn [scenario_signed scenario_cmdline]; unfold bind;
    (destruct (build_ext4_image _ _ _ _ _ _) as [[disk|e1] st1];
     [|split;
       [split; [discriminate | intros (o & H & _); discriminate]
       | intros o H; discriminate]]);
    (destruct (build_initramfs _ _ _ _ _) as [[initramfs|e2] st2];
     [|split;
       [split; [discriminate | intros (o & H & _); discriminate]
       | intros o H; discriminate]]);
    (destruct (run_qemu _ _ _ _ _ _ _ _) as [[output|e3] st3];
     [|split;
       [split; [discriminate | intros (o & H & _); discriminate]
       | intros o H; discriminate]]);
    unfold assert_, ret, raise;
    destruct (contains IMA_TEST_PASS output) eqn:E1;
    destruct (contains IMA_RESULT_PASS output) eqn:E2; cbn [negb];
    (split;
     [split;
      [intros H; try discriminate; injection H as <-; exists output;
       rewrite ?E1, ?E2; repeat split; reflexivity
      |intros (o & H & H1 & H2); injection H as <- <-;
       rewrite ?E1, ?E2 in *; try discriminate; reflexivity]
     |intros o H Hbad; injection H as <- <-; rewrite ?E1, ?E2 in *;
      try (destruct Hbad as [Hbad|Hbad]; exfalso; apply Hbad; reflexivity);
      eexists; reflexivity]).
Qed.

Lemma scenario_asserts_marker_table_witness :
  exists st',
    run_test sample_zlib good_world EnforceSigned sample_fixtures st0
    = (Ok tt, st').
Proof.
  eexists.
  apply (scenario_asserts_marker_table sample_zlib good_world EnforceSigned
           sample_fixtures st0).
  exists (lit "IMA-TEST-PASS IMA-RESULT:PASS").
  split; [vm_compute; reflexivity|].
  split; vm_compute; reflexivity.
Defined.

(* ------------------------------------------------------------------ *)
(** ** Boot timeout *)
(* ------------------------------------------------------------------ *)

(** C1 -- boot timeout.  When the emulator outlives the timeout,
    [run_qemu] does not return the captured text: the child is killed and
    the [TimeoutExpired] of [subprocess.run], which carries what was
    captured, reaches the caller.  The boot step of [verify_iso_boot]
    catches that exception and goes on with empty output. *)
Theorem run_qemu_timeout_raises
  (w : World) (kernel : Path) (initramfs_data : bytes) (disk : Path)
  (cmdline_extra : str) (tmp_dir : Path) (timeout : Z) (st : St) :
  let cmd := qemu_cmd kernel (qemu_initrd w tmp_dir st) disk cmdline_extra in
  let p := spawn w cmd None in
  timeout < proc_duration p ->
  fst (run_qemu w kernel initramfs_data disk cmdline_extra tmp_dir timeout st)
  = Raise (TimeoutExpired cmd timeout (fst (proc_captured p timeout))
                          (snd (proc_captured p timeout)))
  /\ (forall output,
        fst (run_qemu w kernel initramfs_data disk cmdline_extra tmp_dir
                      timeout st) <> Ok output)
  /\ List.In (EvKill cmd)
       (trace (snd (run_qemu w kernel initramfs_data disk cmdline_extra
                             tmp_dir timeout st))).
Proof.
  intros cmd p Hlate.
  assert (E : run_qemu w kernel initramfs_data disk cmdline_extra tmp_dir
                timeout st
              = (Raise (TimeoutExpired cmd timeout
                          (fst (proc_captured p timeout))
                          (snd (proc_captured p timeout))),
                 mkSt (S (fresh st))
                      (((((trace st
                           ++ [EvMkdir (temp_name w (path_str tmp_dir) (fresh st))])
                          ++ [EvWriteBytes (path_str (qemu_initrd w tmp_dir st))
                                           initramfs_data])
                         ++ [EvExec cmd None]))
                       ++ [EvKill cmd]))).
  { unfold run_qemu, mkdtemp, subprocess_run, bind, next_fresh, emit, ret, raise.
    cbn [fresh trace].
    fold (qemu_initrd w tmp_dir st). fold cmd. fold p.
    apply Z.ltb_lt in Hlate. rewrite Hlate. reflexivity. }
  rewrite E. cbn [fst snd trace].
  split; [reflexivity|].
  split; [discriminate|].
  apply in_or_app. right. left. reflexivity.
Qed.

Lemma run_qemu_timeout_raises_witness :
  fst (run_qemu hung_world (ima_kernel sample_fixtures) [x1f; x8b]
                (mkPath (lit "/t/tmp0/disk.img"))
                (scenario_cmdline EnforceSigned)
                (ima_tmp_dir sample_fixtures) 30 st0)
  = Raise (TimeoutExpired
             (qemu_cmd (ima_kernel sample_fixtures)
                       (qemu_initrd hung_world (ima_tmp_dir sample_fixtures) st0)
                       (mkPath (lit "/t/tmp0/disk.img"))
                       (scenario_cmdline EnforceSigned))
             30 (lit "Booting the kernel") []).
Proof.
  apply (run_qemu_timeout_raises hung_world (ima_kernel sample_fixtures)
           [x1f; x8b] (mkPath (lit "/t/tmp0/disk.img"))
           (scenario_cmdline EnforceSigned) (ima_tmp_dir sample_fixtures)
           30 st0).
  vm_compute. reflexivity.
Defined.

(** So a hung boot ends the test method with the timeout, not with a
    failed marker assertion. *)
Lemma hung_boot_ends_in_timeout :
  exists cmd out err st',
    run_test sample_zlib hung_world EnforceSigned sample_fixtures st0
    = (Raise (TimeoutExpired cmd 30 out err), st').
Proof. do 4 eexists. vm_compute. reflexivity. Qed.

(** The sibling boot step turns the same timeout into empty output. *)
Lemma iso_boot_output_timeout (w : World) (qemu_bin iso_file : str) (st : St) :
  60 < proc_duration
         (spawn w [qemu_bin; lit "-cdrom"; iso_file;
                   lit "-nographic"; lit "-no-reboot"; lit "-m"; lit "512M";
                   lit "-enable-kvm"; lit "-cpu"; lit "host";
                   lit "-boot"; lit "d"] None) ->
  fst (iso_boot_output w qemu_bin iso_file st) = Ok [].
Proof.
  intros Hlate. unfold iso_boot_output, subprocess_run, bind, emit, raise.
  apply Z.ltb_lt in Hlate. rewrite Hlate. reflexivity.
Qed.

(* ------------------------------------------------------------------ *)
(** ** The signed image build *)
(* ------------------------------------------------------------------ *)

Ltac in_trace :=
  repeat (apply in_or_app; first [solve [right; left; reflexivity] | left]).

(** C8, as amended -- the signed image build.  Once [mke2fs] has exited
    with status 0, and whatever the exit status of the signer: without the
    signature file the build raises the assertion on that file; with it,
    the batch holding the [ea_set] line for [security.ima] is written and
    [debugfs] is run on it, and the build returns the image exactly when
    [debugfs] exits with status 0 (otherwise its [CalledProcessError]
    reaches the caller).  So the build succeeds iff the signature file
    exists and [debugfs] succeeds. *)
Theorem build_ext4_image_signed_outcome
  (w : World) (binary_path tmp_dir key : Path) (st : St) :
  let work := ext4_work w tmp_dir st in
  let sig := path_str (sig_path work) in
  let fsck := spawn w (debugfs_cmd work) None in
  let r := build_ext4_image w binary_path tmp_dir true (Some key) st in
  proc_returncode (spawn w (mke2fs_cmd work) None) = 0 ->
  List.In (EvExec (evmctl_cmd key work) None) (trace (snd r))
  /\ (path_exists w sig = false ->
      fst r = Raise (AssertionError (lit "evmctl did not create " ++ sig)))
  /\ (path_exists w sig = true ->
      List.In (EvWriteText (path_str (debugfs_batch work))
                           (signed_batch_text binary_path work))
              (trace (snd r))
      /\ List.In (EvExec (debugfs_cmd work) None) (trace (snd r))
      /\ (proc_returncode fsck = 0 -> fst r = Ok (ext4_img work))
      /\ (proc_returncode fsck <> 0 ->
          fst r = Raise (CalledProcessError (debugfs_cmd work)
                           (proc_returncode fsck)
                           (proc_stdout fsck) (proc_stderr fsck))))
  /\ is_ok (fst r) = path_exists w sig && (proc_returncode fsck =? 0).
Proof.
  intros work sig fsck r Hmk. subst r.
  unfold build_ext4_image, assert_, mkdtemp, subprocess_run, bind, next_fresh,
    emit, ret, raise.
  cbn [fresh trace].
  fold (ext4_work w tmp_dir st). fold work.
  fold (ext4_img work). fold (mke2fs_cmd work). rewrite Hmk.
  cbn [Z.eqb negb andb fresh trace].
  fold (evmctl_cmd key work). fold (sig_path work). fold sig.
  destruct (path_exists w sig) eqn:Hsig;
    cbn [fresh trace fst snd is_ok andb app].
  - fold (debugfs_batch work). fold (debugfs_cmd work). fold fsck.
    destruct (proc_returncode fsck =? 0) eqn:Hrc;
      cbn [negb fst snd trace is_ok];
      [apply Z.eqb_eq in Hrc | apply Z.eqb_neq in Hrc];
      (split; [in_trace|]);
      (split; [discriminate|]);
      (split; [|reflexivity]);
      intros _;
      (split; [in_trace|]);
      (split; [in_trace|]);
      (split; [reflexivity || congruence | reflexivity || congruence]).
  - split; [in_trace|].
    split; [reflexivity|].
    split; [discriminate | reflexivity].
Qed.

Lemma build_ext4_image_signed_outcome_witness :
  fst (build_ext4_image good_world (ima_test_binary sample_fixtures)
         (ima_tmp_dir sample_fixtures) true (Some (ima_key sample_fixtures)) st0)
  = Ok (mkPath (lit "/t/tmp0/disk.img")).
Proof.
  pose proof (build_ext4_image_signed_outcome good_world
                (ima_test_binary sample_fixtures) (ima_tmp_dir sample_fixtures)
                (ima_key sample_fixtures) st0 eq_refl) as H.
  destruct H as (_ & _ & H & _).
  destruct (H eq_refl) as (_ & _ & Hok & _).
  exact (Hok eq_refl).
Defined.

(** C8, as stated, fails: the signature file exists and the build fails
    all the same, on the exit status of [debugfs]. *)
Lemma build_ext4_image_fails_with_signature :
  let work := ext4_work debugfs_fails_world (ima_tmp_dir sample_fixtures) st0 in
  let r := build_ext4_image debugfs_fails_world
             (ima_test_binary sample_fixtures) (ima_tmp_dir sample_fixtures)
             true (Some (ima_key sample_fixtures)) st0 in
  path_exists debugfs_fails_world (path_str (sig_path work)) = true
  /\ fst r = Raise (CalledProcessError (debugfs_cmd work) 1 [] [])
  /\ ~ (is_ok (fst r) = false <->
        path_exists debugfs_fails_world (path_str (sig_path work)) = false).
Proof.
  split; [reflexivity|].
  split; [vm_compute; reflexivity|].
  intros [H _]. assert (C : true = false) by (apply H; vm_compute; reflexivity).
  discriminate.
Qed.

(* ------------------------------------------------------------------ *)
(** ** Tokens of a line *)
(* ------------------------------------------------------------------ *)

Lemma span_token_app (s : str) :
  s = fst (span_token s) ++ snd (span_token s).
Proof.
  induction s as [|c s IH]; simpl; [reflexivity|].
  destruct (is_space c); [reflexivity|].
  destruct (span_token s) as [t r]. simpl in *. f_equal. exact IH.
Qed.

Lemma span_token_no_space (s : str) : no_space (fst (span_token s)).
Proof.
  induction s as [|c s IH]; simpl; [constructor|].
  destruct (is_space c) eqn:E; [constructor|].
  destruct (span_token s) as [t r]. simpl in *. constructor; assumption.
Qed.

(** What follows the token is empty or starts with white space. *)
Lemma span_token_rest (s : str) :
  drop_ws (snd (span_token s)) = drop_ws (List.tl (snd (span_token s)))
  /\ (snd (span_token s) = [] \/
      exists c r, snd (span_token s) = c :: r /\ is_space c = true).
Proof.
  induction s as [|c s IH]; simpl.
  - split; [reflexivity | left; reflexivity].
  - destruct (is_space c) eqn:E.
    + simpl. rewrite E. split; [reflexivity|]. right. exists c, s. auto.
    + destruct (span_token s) as [t r]. simpl in *. exact IH.
Qed.

Lemma split_ws_aux_token (t : str) :
  no_space t -> forall cur r,
  split_ws_aux cur (t ++ r) = split_ws_aux (List.rev t ++ cur) r.
Proof.
  induction 1 as [|c t Hc _ IH]; intros cur r; simpl.
  - reflexivity.
  - rewrite Hc, IH. rewrite <- app_assoc. reflexivity.
Qed.

Lemma split_ws_drop (s : str) : split_ws (drop_ws s) = split_ws s.
Proof.
  unfold split_ws. induction s as [|c s IH]; simpl; [reflexivity|].
  destruct (is_space c) eqn:E; [exact IH|].
  simpl. rewrite E. reflexivity.
Qed.

(** A line that starts with a token: the token, then the tokens of the
    rest. *)
Lemma split_ws_cons (s : str) (c : N) (s' : str) :
  s = c :: s' -> is_space c = false ->
  split_ws s = fst (span_token s) :: split_ws (snd (span_token s)).
Proof.
  intros Hs Hc.
  assert (Hne : fst (span_token s) <> []).
  { rewrite Hs. simpl. rewrite Hc. destruct (span_token s'). discriminate. }
  unfold split_ws at 1.
  rewrite (span_token_app s) at 1.
  rewrite (split_ws_aux_token _ (span_token_no_space s)), app_nil_r.
  destruct (span_token_rest s) as [_ [Hr|(c' & r & Hr & Hc')]]; rewrite Hr.
  - simpl. destruct (List.rev (fst (span_token s))) eqn:E.
    + exfalso. apply Hne. rewrite <- (rev_involutive (fst (span_token s))), E.
      reflexivity.
    + rewrite <- E, rev_involutive. reflexivity.
  - unfold split_ws. simpl. rewrite Hc'.
    destruct (List.rev (fst (span_token s))) eqn:E.
    + exfalso. apply Hne. rewrite <- (rev_involutive (fst (span_token s))), E.
      reflexivity.
    + rewrite <- E, rev_involutive. reflexivity.
Qed.

Lemma drop_ws_head (s : str) (c : N) (s' : str) :
  drop_ws s = c :: s' -> is_space c = false.
Proof.
  induction s as [|d s IH]; simpl; [discriminate|].
  destruct (is_space d) eqn:E; [exact IH|].
  intros [= <- _]. exact E.
Qed.

(** [split(None, 1)] against [split()]: when the line is cut in two, the
    first part is the first token and the tokens of the second part are
    the other tokens of the line. *)
Lemma split_max1_two (line tok rest : str) :
  split_max1 line = [tok; rest] ->
  split_ws line = tok :: split_ws rest
  /\ split_ws rest <> []
  /\ rest = drop_ws (snd (span_token (drop_ws line))).
Proof.
  unfold split_max1.
  destruct (drop_ws line) as [|c s'] eqn:Hd; [discriminate|].
  pose proof (drop_ws_head _ _ _ Hd) as Hc.
  destruct (span_token (c :: s')) as [t r] eqn:Hsp.
  destruct (drop_ws r) as [|c2 r2] eqn:Hr; [discriminate|].
  intros [= <- <-].
  pose proof (split_ws_cons (c :: s') c s' eq_refl Hc) as H1.
  rewrite Hsp in H1. simpl in H1.
  rewrite <- split_ws_drop, Hd, H1.
  rewrite <- (split_ws_drop r), Hr.
  split; [reflexivity|].
  split; [|simpl; symmetry; exact Hr].
  rewrite (split_ws_cons (c2 :: r2) c2 r2 eq_refl (drop_ws_head _ _ _ Hr)).
  discriminate.
Qed.

Lemma split_ws_single (s : str) :
  s <> [] -> no_space s -> split_ws s = [s].
Proof.
  intros Hne Hs. unfold split_ws.
  rewrite <- (app_nil_r s) at 1.
  rewrite (split_ws_aux_token s Hs), app_nil_r. simpl.
  destruct (List.rev s) eqn:E.
  - exfalso. apply Hne. rewrite <- (rev_involutive s), E. reflexivity.
  - rewrite <- E, rev_involutive. reflexivity.
Qed.

Lemma first_output_path_spec (lines : list str) (p : Path) :
  first_output_path lines = Some p ->
  exists pre line post tok rest,
    lines = pre ++ line :: post
    /\ Forall (fun l => List.length (split_max1 l) <> 2%nat) pre
    /\ split_max1 line = [tok; rest]
    /\ p = Path_of rest.
Proof.
  induction lines as [|line rest IH]; simpl; [discriminate|].
  destruct (split_max1 line) as [|a [|b [|c l]]] eqn:E.
  - intros H. destruct (IH H) as (pre & ln & post & tok & r & -> & Hpre & Hs).
    exists (line :: pre), ln, post, tok, r. split; [reflexivity|].
    split; [|exact Hs]. constructor; [rewrite E; discriminate | exact Hpre].
  - intros H. destruct (IH H) as (pre & ln & post & tok & r & -> & Hpre & Hs).
    exists (line :: pre), ln, post, tok, r. split; [reflexivity|].
    split; [|exact Hs]. constructor; [rewrite E; discriminate | exact Hpre].
  - intros [= <-]. exists [], line, rest, a, b. split; [reflexivity|].
    split; [constructor|]. split; [exact E | reflexivity].
  - intros H. destruct (IH H) as (pre & ln & post & tok & r & -> & Hpre & Hs).
    exists (line :: pre), ln, post, tok, r. split; [reflexivity|].
    split; [|exact Hs]. constructor; [rewrite E; discriminate | exact Hpre].
Qed.

Lemma split_ws_aux_no_space (s : str) :
  forall cur, no_space cur -> Forall no_space (split_ws_aux cur s).
Proof.
  unfold no_space.
  induction s as [|c s IH]; intros cur Hcur; cbn [split_ws_aux].
  - destruct cur; constructor; [|constructor]. apply Forall_rev. exact Hcur.
  - destruct (is_space c) eqn:E.
    + destruct cur.
      * apply IH. constructor.
      * constructor; [apply Forall_rev; exact Hcur | apply IH; constructor].
    + apply IH. constructor; assumption.
Qed.

Lemma last_token_no_space (s t : str) : last_token s = Some t -> no_space t.
Proof.
  unfold last_token. destruct (List.rev (split_ws s)) as [|x l] eqn:E;
    [discriminate|].
  intros [= <-].
  pose proof (split_ws_aux_no_space s [] (Forall_nil _)) as H.
  fold (split_ws s) in H. rewrite Forall_forall in H. apply H.
  apply in_rev. rewrite E. left. reflexivity.
Qed.

Lemma no_space_dec (s : str) :
  no_space s \/ exists c, List.In c s /\ is_space c = true.
Proof.
  induction s as [|c s [IH|(d & Hd & Hs)]].
  - left. constructor.
  - destruct (is_space c) eqn:E.
    + right. exists c. split; [left; reflexivity | exact E].
    + left. constructor; assumption.
  - right. exists d. split; [right; exact Hd | exact Hs].
Qed.

(* ------------------------------------------------------------------ *)
(** ** The string of a path *)
(* ------------------------------------------------------------------ *)

Lemma join_cons2 (sep x y : str) (l : list str) :
  join sep (x :: y :: l) = x ++ sep ++ join sep (y :: l).
Proof. reflexivity. Qed.

Lemma join_Forall (P : N -> Prop) (sep : str) (parts : list str) :
  Forall P sep -> Forall (Forall P) parts -> Forall P (join sep parts).
Proof.
  intros Hsep. induction 1 as [|x l Hx Hl IH]; [constructor|].
  destruct l as [|y l]; [exact Hx|].
  rewrite join_cons2. apply Forall_app; split; [exact Hx|].
  apply Forall_app; split; [exact Hsep | exact IH].
Qed.

Lemma join_In (sep : str) (parts : list str) (x : str) (c : N) :
  List.In x parts -> List.In c x -> List.In c (join sep parts).
Proof.
  induction parts as [|y l IH]; [intros []|].
  intros Hx Hc. destruct l as [|z l].
  - destruct Hx as [<-|[]]. exact Hc.
  - rewrite join_cons2. apply in_or_app. destruct Hx as [<-|Hx].
    + left. exact Hc.
    + right. apply in_or_app. right. apply IH; assumption.
Qed.

Lemma split_on_Forall (P : N -> Prop) (sep : N) (s : str) :
  Forall P s -> Forall (Forall P) (split_on sep s).
Proof.
  induction 1 as [|c s Hc Hs IH]; cbn [split_on]; [repeat constructor|].
  destruct (c =? sep)%N; [constructor; [constructor | exact IH]|].
  destruct (split_on sep s) as [|x xs]; [repeat constructor; exact Hc|].
  inversion IH; subst. constructor; [constructor; assumption | assumption].
Qed.

Lemma split_on_In (sep : N) (s : str) (c : N) :
  List.In c s -> c <> sep ->
  exists x, List.In x (split_on sep s) /\ List.In c x.
Proof.
  intros Hin Hne. induction s as [|d s IH]; [destruct Hin|].
  cbn [split_on]. destruct (N.eqb_spec d sep) as [Hd|Hd].
  - destruct Hin as [Heq|Hin]; [exfalso; apply Hne; congruence|].
    destruct (IH Hin) as (x & Hx & Hc). exists x.
    split; [right; exact Hx | exact Hc].
  - destruct Hin as [Heq|Hin].
    + subst d.
      destruct (split_on sep s) as [|x xs];
        [exists [c] | exists (c :: x)]; split; left; reflexivity.
    + destruct (IH Hin) as (x & Hx & Hc).
      destruct (split_on sep s) as [|x0 xs]; [destruct Hx|].
      destruct Hx as [<-|Hx].
      * exists (d :: x0). split; [left; reflexivity | right; exact Hc].
      * exists x. split; [right; exact Hx | exact Hc].
Qed.

Lemma split_on_no_sep (sep : N) (s : str) :
  Forall (fun x => ~ List.In sep x) (split_on sep s).
Proof.
  induction s as [|c s IH]; cbn [split_on].
  - constructor; [intros [] | constructor].
  - destruct (N.eqb_spec c sep) as [Hc|Hc].
    + constructor; [intros [] | exact IH].
    + destruct (split_on sep s) as [|x xs].
      * constructor; [|constructor].
        intros [H|[]]. apply Hc. exact H.
      * inversion IH; subst. constructor; [|assumption].
        intros [H|H]; [apply Hc; exact H | contradiction].
Qed.

Lemma split_on_single (sep : N) (x : str) :
  ~ List.In sep x -> split_on sep x = [x].
Proof.
  induction x as [|c x IH]; intros Hx; cbn [split_on]; [reflexivity|].
  destruct (N.eqb_spec c sep) as [Hc|Hc];
    [exfalso; apply Hx; left; exact Hc|].
  rewrite IH; [reflexivity|]. intros H. apply Hx. right. exact H.
Qed.

Lemma split_on_app (sep : N) (x r : str) :
  ~ List.In sep x -> split_on sep (x ++ sep :: r) = x :: split_on sep r.
Proof.
  induction x as [|c x IH]; intros Hx; cbn [split_on app].
  - rewrite N.eqb_refl. reflexivity.
  - destruct (N.eqb_spec c sep) as [Hc|Hc];
      [exfalso; apply Hx; left; exact Hc|].
    rewrite IH; [reflexivity|]. intros H. apply Hx. right. exact H.
Qed.

Lemma split_on_join (parts : list str) :
  parts <> [] -> Forall (fun x => ~ List.In 47%N x) parts ->
  split_on 47 (join (lit "/") parts) = parts.
Proof.
  intros Hne H. induction H as [|x l Hx Hl IH]; [contradiction|].
  destruct l as [|y l].
  - cbn [join]. apply split_on_single, Hx.
  - rewrite join_cons2. change (lit "/" ++ join (lit "/") (y :: l))
      with (47%N :: join (lit "/") (y :: l)).
    rewrite (split_on_app 47 x _ Hx), IH; [reflexivity | discriminate].
Qed.

Lemma filter_all {A : Type} (f : A -> bool) (l : list A) :
  Forall (fun x => f x = true) l -> List.filter f l = l.
Proof.
  induction 1 as [|x l Hx Hl IH]; cbn [List.filter]; [reflexivity|].
  rewrite Hx, IH. reflexivity.
Qed.

(** What [splitroot] cuts off is made of slashes, and so is the root. *)
Lemma splitroot_spec (s : str) :
  exists pre,
    s = pre ++ snd (splitroot s)
    /\ Forall (fun c => c = 47%N) pre
    /\ (fst (splitroot s) = [] \/ fst (splitroot s) = [47%N]
        \/ fst (splitroot s) = [47%N; 47%N]).
Proof.
  destruct s as [|c0 [|c1 [|c2 r]]]; cbn [splitroot].
  - exists []. repeat split; [constructor | left; reflexivity].
  - destruct (N.eqb_spec c0 47) as [->|H0]; cbn [fst snd].
    + exists [47%N]. repeat split; [repeat constructor | right; left; reflexivity].
    + exists []. repeat split; [constructor | left; reflexivity].
  - destruct (N.eqb_spec c0 47) as [->|H0]; cbn [fst snd].
    + destruct (N.eqb_spec c1 47) as [->|H1]; cbn [fst snd].
      * exists [47%N; 47%N].
        repeat split; [repeat constructor | right; right; reflexivity].
      * exists [47%N].
        repeat split; [repeat constructor | right; left; reflexivity].
    + exists []. repeat split; [constructor | left; reflexivity].
  - destruct (N.eqb_spec c0 47) as [->|H0]; cbn [fst snd].
    + destruct (N.eqb_spec c1 47) as [->|H1]; cbn [fst snd].
      * destruct (N.eqb_spec c2 47) as [->|H2]; cbn [fst snd].
        -- exists [47%N].
           repeat split; [repeat constructor | right; left; reflexivity].
        -- exists [47%N; 47%N].
           repeat split; [repeat constructor | right; right; reflexivity].
      * exists [47%N].
        repeat split; [repeat constructor | right; left; reflexivity].
    + exists []. repeat split; [constructor | left; reflexivity].
Qed.

(** A root in front of a component that does not start with a slash is
    found again. *)
Lemma splitroot_root (root : str) (a : N) (t : str) :
  root = [] \/ root = [47%N] \/ root = [47%N; 47%N] ->
  a <> 47%N ->
  splitroot (root ++ a :: t) = (root, a :: t).
Proof.
  intros Hroot Ha. apply N.eqb_neq in Ha.
  destruct Hroot as [->|[->| ->]]; cbn [app splitroot];
    rewrite ?N.eqb_refl, Ha; reflexivity.
Qed.

(** The characters of [str(Path(s))] are characters of [s], a dot or a
    slash. *)
Lemma posix_str_Forall (P : N -> Prop) (s : str) :
  P 46%N -> P 47%N -> Forall P s -> Forall P (posix_str s).
Proof.
  intros Hdot Hsl Hs. unfold posix_str.
  destruct (splitroot_spec s) as (pre & Hpre & Hp & Hroot).
  destruct (splitroot s) as [root rel]. cbn [fst snd] in *.
  assert (Hrel : Forall P rel).
  { rewrite Hpre in Hs. apply Forall_app in Hs. apply Hs. }
  assert (H : Forall P (root ++ join (lit "/")
                                     (List.filter kept_part (split_on 47 rel)))).
  { apply Forall_app; split.
    - destruct Hroot as [->|[->| ->]]; repeat constructor; exact Hsl.
    - apply join_Forall; [change (lit "/") with [47%N]; repeat constructor; exact Hsl|].
      apply Forall_forall. intros x Hx. apply filter_In in Hx.
      destruct Hx as [Hx _]. revert x Hx. apply Forall_forall.
      apply split_on_Forall, Hrel. }
  destruct (root ++ join _ _);
    [change (lit ".") with [46%N]; repeat constructor; exact Hdot | exact H].
Qed.

(** A character of [s] other than the dot and the slash stays in
    [str(Path(s))]. *)
Lemma posix_str_In (s : str) (c : N) :
  List.In c s -> c <> 47%N -> c <> 46%N -> List.In c (posix_str s).
Proof.
  intros Hin H47 H46. unfold posix_str.
  destruct (splitroot_spec s) as (pre & Hpre & Hp & _).
  destruct (splitroot s) as [root rel]. cbn [fst snd] in *.
  assert (Hrel : List.In c rel).
  { rewrite Hpre in Hin. apply in_app_or in Hin.
    destruct Hin as [Hin|Hin]; [|exact Hin].
    exfalso. apply H47. rewrite Forall_forall in Hp. apply Hp, Hin. }
  destruct (split_on_In 47 rel c Hrel H47) as (x & Hx & Hc).
  assert (Hk : kept_part x = true).
  { destruct x as [|a [|b x]]; [destruct Hc | | reflexivity].
    destruct Hc as [->|[]]. cbn [kept_part].
    apply negb_true_iff, N.eqb_neq, H46. }
  assert (H : List.In c (root ++ join (lit "/")
                                      (List.filter kept_part (split_on 47 rel)))).
  { apply in_or_app. right.
    apply (join_In _ _ x); [apply filter_In; split; assumption | exact Hc]. }
  destruct (root ++ join _ _); [destruct H | exact H].
Qed.

Lemma posix_str_nonempty (s : str) : posix_str s <> [].
Proof.
  unfold posix_str. destruct (splitroot s) as [root rel].
  destruct (root ++ join _ _); discriminate.
Qed.

Lemma posix_str_no_space (s : str) : no_space s -> no_space (posix_str s).
Proof. apply posix_str_Forall; reflexivity. Qed.

Lemma posix_str_space (s : str) : no_space (posix_str s) -> no_space s.
Proof.
  intros H. destruct (no_space_dec s) as [Hs|(c & Hin & Hc)]; [exact Hs|].
  exfalso.
  assert (Hc' : List.In c (posix_str s)).
  { apply posix_str_In; [exact Hin | |]; intros ->; vm_compute in Hc;
      discriminate Hc. }
  unfold no_space in H. rewrite Forall_forall in H.
  rewrite (H c Hc') in Hc. discriminate Hc.
Qed.

(** [Path(str(p)) == p]: the string of a path is in normal form. *)
Lemma posix_str_idem (s : str) : posix_str (posix_str s) = posix_str s.
Proof.
  unfold posix_str at 2 3.
  destruct (splitroot_spec s) as (_ & _ & _ & Hroot).
  destruct (splitroot s) as [root rel]. cbn [fst] in Hroot.
  set (tail := List.filter kept_part (split_on 47 rel)).
  assert (Hkept : Forall (fun x => kept_part x = true) tail).
  { apply Forall_forall. intros x Hx. apply filter_In in Hx. apply Hx. }
  assert (Hsep : Forall (fun x => ~ List.In 47%N x) tail).
  { apply Forall_forall. intros x Hx. apply filter_In in Hx.
    destruct Hx as [Hx _]. revert x Hx. apply Forall_forall.
    apply split_on_no_sep. }
  destruct tail as [|x l] eqn:Htail.
  - cbn [join]. rewrite app_nil_r.
    destruct Hroot as [->|[->| ->]]; vm_compute; reflexivity.
  - assert (Hx : exists a t, join (lit "/") (x :: l) = a :: t /\ a <> 47%N).
    { inversion Hkept as [|? ? Hkx _]; subst.
      inversion Hsep as [|? ? Hsx _]; subst.
      destruct x as [|a x']; [discriminate Hkx|].
      assert (Ha : a <> 47%N) by (intros ->; apply Hsx; left; reflexivity).
      destruct l as [|y l'].
      - exists a, x'. split; [reflexivity | exact Ha].
      - rewrite join_cons2. eexists a, _. split; [reflexivity | exact Ha]. }
    destruct Hx as (a & t & Hj & Ha).
    assert (Hnz : exists c r, root ++ join (lit "/") (x :: l) = c :: r).
    { rewrite Hj. destruct root as [|c r]; eexists _, _; reflexivity. }
    destruct Hnz as (c & r & Hcr). rewrite Hcr. rewrite <- Hcr.
    unfold posix_str. rewrite Hj, (splitroot_root root a t Hroot Ha).
    rewrite <- Hj, split_on_join; [|discriminate | exact Hsep].
    rewrite (filter_all _ _ Hkept). rewrite Hcr. reflexivity.
Qed.

(* ------------------------------------------------------------------ *)
(** ** The path returned by the build helper *)
(* ------------------------------------------------------------------ *)

Lemma last_token_cons (tok : str) (l : list str) :
  l <> [] ->
  match List.rev (tok :: l) with [] => None | t :: _ => Some t end
  = match List.rev l with [] => None | t :: _ => Some t end.
Proof.
  intros Hl. simpl. destruct (List.rev l) as [|t r] eqn:E.
  - exfalso. apply Hl. rewrite <- (rev_involutive l), E. reflexivity.
  - reflexivity.
Qed.

(** C9, as amended -- the returned path.  When [_buck2_build] returns a
    path, the build exited with status 0 and the path is [Path(rest)],
    where [rest] is, for the first output line that [split(None, 1)] cuts
    in two, the whole rest of that line after its first token and the
    white space behind it.  The last token of the line is the last token
    of [rest].  The returned path is the path of that last token exactly
    when [rest] holds no white space, and its string is that token
    exactly when, moreover, [rest] is written as [pathlib] writes it. *)
Theorem buck2_build_returns_rest_of_line
  (w : World) (repo_root : Path) (target : str) (timeout : Z)
  (st st' : St) (p : Path) :
  _buck2_build w repo_root target timeout st = (Ok p, st') ->
  let pr := spawn w (buck2_cmd w target st) (Some (path_str repo_root)) in
  proc_returncode pr = 0
  /\ exists pre line post tok rest last,
       splitlines (strip (proc_stdout pr)) = pre ++ line :: post
       /\ Forall (fun l => List.length (split_max1 l) <> 2%nat) pre
       /\ split_max1 line = [tok; rest]
       /\ rest = drop_ws (snd (span_token (drop_ws line)))
       /\ p = Path_of rest
       /\ last_token line = Some last
       /\ last_token rest = Some last
       /\ (p = Path_of last <-> no_space rest)
       /\ (path_str p = last <-> no_space rest /\ posix_str rest = rest).
Proof.
  intros H pr. revert H.
  unfold _buck2_build.
  destruct (which w (lit "buck2")); [|discriminate].
  unfold subprocess_run, assert_, bind, next_fresh, emit, ret, raise.
  cbn [fresh trace].
  fold (buck2_cmd w target st). fold pr.
  destruct (timeout <? proc_duration pr); [discriminate|].
  cbn [andb returncode stdout stderr].
  destruct (proc_returncode pr =? 0) eqn:Hrc; [|discriminate].
  apply Z.eqb_eq in Hrc.
  destruct (first_output_path (splitlines (strip (proc_stdout pr))))
    as [q|] eqn:Hq; [|discriminate].
  intros [= -> _].
  split; [exact Hrc|].
  destruct (first_output_path_spec _ _ Hq)
    as (pre & line & post & tok & rest & Hl & Hpre & Hs & Hp).
  destruct (split_max1_two _ _ _ Hs) as (Hall & Hne & Hrest).
  assert (Hlast : last_token line = last_token rest).
  { unfold last_token. rewrite Hall. apply last_token_cons, Hne. }
  assert (Hex : exists last, last_token rest = Some last).
  { unfold last_token. destruct (List.rev (split_ws rest)) as [|t r] eqn:E.
    - exfalso. apply Hne. rewrite <- (rev_involutive (split_ws rest)), E.
      reflexivity.
    - exists t. reflexivity. }
  destruct Hex as [last Hlt].
  assert (Hnz : rest <> []) by (intros ->; apply Hne; reflexivity).
  assert (Hsingle : no_space rest -> last = rest).
  { intros Hns. unfold last_token in Hlt.
    rewrite (split_ws_single rest Hnz Hns) in Hlt. cbn in Hlt.
    congruence. }
  pose proof (last_token_no_space _ _ Hlt) as Hlns.
  exists pre, line, post, tok, rest, last.
  split; [exact Hl|].
  split; [exact Hpre|].
  split; [exact Hs|].
  split; [exact Hrest|].
  split; [exact Hp|].
  split; [rewrite Hlast; exact Hlt|].
  split; [exact Hlt|].
  subst p. unfold Path_of. cbn [path_str]. split; split.
  - intros Heq. apply (f_equal path_str) in Heq. cbn [path_str] in Heq.
    apply posix_str_space. rewrite Heq. apply posix_str_no_space, Hlns.
  - intros Hns. rewrite (Hsingle Hns). reflexivity.
  - intros Heq.
    assert (Hns : no_space rest)
      by (apply posix_str_space; rewrite Heq; exact Hlns).
    split; [exact Hns|]. rewrite Heq. apply Hsingle, Hns.
  - intros [Hns Hnf]. rewrite Hnf. symmetry. apply Hsingle, Hns.
Qed.

Lemma buck2_build_returns_rest_of_line_witness :
  let w := good_buck2_world in
  let p := mkPath (lit "/tmp/out") in
  let pr := spawn w (buck2_cmd w (lit "//t:x") st0) (Some (lit "/repo")) in
  proc_returncode pr = 0
  /\ exists pre line post tok rest last,
       splitlines (strip (proc_stdout pr)) = pre ++ line :: post
       /\ Forall (fun l => List.length (split_max1 l) <> 2%nat) pre
       /\ split_max1 line = [tok; rest]
       /\ rest = drop_ws (snd (span_token (drop_ws line)))
       /\ p = Path_of rest
       /\ last_token line = Some last
       /\ last_token rest = Some last
       /\ (p = Path_of last <-> no_space rest)
       /\ (path_str p = last <-> no_space rest /\ posix_str rest = rest).
Proof.
  intros w p.
  assert (Hrun : _buck2_build w (mkPath (lit "/repo")) (lit "//t:x") 600 st0
                 = (Ok p, mkSt 1 [EvExec (buck2_cmd w (lit "//t:x") st0)
                                         (Some (lit "/repo"))]))
    by (vm_compute; reflexivity).
  exact (buck2_build_returns_rest_of_line _ _ _ _ _ _ _ Hrun).
Defined.

(** C9, as stated, fails: for an output path with a space in it the
    helper returns the rest of the line, not its last token. *)
Lemma buck2_build_path_is_not_last_token :
  let w := spaced_path_world in
  let line := lit "root//t:x /tmp/my dir/out" in
  splitlines (strip (proc_stdout
                       (spawn w (buck2_cmd w (lit "//t:x") st0)
                              (Some (lit "/repo")))))
  = [line]
  /\ fst (_buck2_build w (mkPath (lit "/repo")) (lit "//t:x") 600 st0)
     = Ok (mkPath (lit "/tmp/my dir/out"))
  /\ last_token line = Some (lit "dir/out")
  /\ ~ (forall p,
          fst (_buck2_build w (mkPath (lit "/repo")) (lit "//t:x") 600 st0)
          = Ok p ->
          last_token line = Some (path_str p)).
Proof.
  split; [vm_compute; reflexivity|].
  split; [vm_compute; reflexivity|].
  split; [vm_compute; reflexivity|].
  intros H. specialize (H (mkPath (lit "/tmp/my dir/out"))).
  assert (C : last_token (lit "root//t:x /tmp/my dir/out")
              = Some (lit "/tmp/my dir/out")).
  { apply H. vm_compute. reflexivity. }
  vm_compute in C. discriminate.
Qed.

(** The string of the returned path is the rest of the line as [pathlib]
    writes it: here the rest holds no white space and is the last token
    of the line, the returned path is the path of that token, and its
    string is not the token. *)
Lemma buck2_build_path_is_normalised :
  let w := sample_world good_qemu (quick 0 [])
             (quick 0 (lit "root//t:x ./out//bin/" ++ newline)) true in
  fst (_buck2_build w (mkPath (lit "/repo")) (lit "//t:x") 600 st0)
  = Ok (mkPath (lit "out/bin"))
  /\ last_token (lit "root//t:x ./out//bin/") = Some (lit "./out//bin/")
  /\ Path_of (lit "./out//bin/") = mkPath (lit "out/bin").
Proof. repeat split; vm_compute; reflexivity. Qed.

(* ------------------------------------------------------------------ *)
(** ** Determinism of the boot payload *)
(* ------------------------------------------------------------------ *)

Lemma gzip_member_fixed_mtime (zlib : Zlib) (w1 w2 : World) (t : Z) (raw : bytes) :
  gzip_member zlib w1 (Some t) raw = gzip_member zlib w2 (Some t) raw.
Proof. reflexivity. Qed.

(** Without [mtime] the member would carry the clock. *)
Lemma gzip_member_clock (zlib : Zlib) (w : World) (raw : bytes) :
  gzip_mtime (gzip_member zlib w None raw) = write32u (time_now w).
Proof. reflexivity. Qed.

Lemma build_initramfs_result (zlib : Zlib) (w : World) (ip cp : Path) (st : St) :
  build_initramfs zlib w ip cp st
  = match file_bytes w (path_str ip) with
    | None => (Raise (OSError (path_str ip)), st)
    | Some init_data =>
        match file_bytes w (path_str cp) with
        | None => (Raise (OSError (path_str cp)), st)
        | Some cert_data =>
            match initramfs_cpio init_data cert_data with
            | Ok raw => (Ok (gzip_member zlib w (Some 0) raw), st)
            | Raise e => (Raise e, st)
            end
        end
    end.
Proof.
  unfold build_initramfs, read_bytes, bind, lift, ret, raise.
  destruct (file_bytes w (path_str ip)); [|reflexivity].
  destruct (file_bytes w (path_str cp)); [|reflexivity].
  destruct (initramfs_cpio _ _); reflexivity.
Qed.

(** C5 -- determinism.  Two runs of [build_initramfs], on the same two
    paths in any two worlds (other files, other clock, other scratch state)
    where the init binary and the certificate have the same content, give the same result; when
    it is a payload, both runs built the same archive bytes from that
    content and the same compressed bytes, whose MTIME field is zero. *)
Theorem build_initramfs_deterministic
  (zlib : Zlib) (w1 w2 : World) (init_path cert_der_path : Path)
  (st1 st2 : St) :
  file_bytes w1 (path_str init_path) = file_bytes w2 (path_str init_path) ->
  file_bytes w1 (path_str cert_der_path)
  = file_bytes w2 (path_str cert_der_path) ->
  fst (build_initramfs zlib w1 init_path cert_der_path st1)
  = fst (build_initramfs zlib w2 init_path cert_der_path st2)
  /\ (forall gz,
        fst (build_initramfs zlib w1 init_path cert_der_path st1) = Ok gz ->
        exists init_data cert_data raw,
          file_bytes w1 (path_str init_path) = Some init_data
          /\ file_bytes w1 (path_str cert_der_path) = Some cert_data
          /\ initramfs_cpio init_data cert_data = Ok raw
          /\ gz = gzip_member zlib w1 (Some 0) raw
          /\ gz = gzip_member zlib w2 (Some 0) raw
          /\ gzip_mtime gz = [x00; x00; x00; x00]).
Proof.
  intros Hi Hc. rewrite !build_initramfs_result, <- Hi, <- Hc.
  destruct (file_bytes w1 (path_str init_path)) as [init_data|].
  2: { split; [reflexivity | intros gz H; discriminate]. }
  destruct (file_bytes w1 (path_str cert_der_path)) as [cert_data|].
  2: { split; [reflexivity | intros gz H; discriminate]. }
  destruct (initramfs_cpio init_data cert_data) as [raw|e] eqn:Hraw.
  2: { split; [reflexivity | intros gz H; discriminate]. }
  cbn [fst]. split; [reflexivity|].
  intros gz [= <-]. exists init_data, cert_data, raw.
  repeat split; try reflexivity. exact Hraw.
Qed.

Lemma build_initramfs_deterministic_witness :
  fst (build_initramfs sample_zlib good_world
         (ima_init_binary sample_fixtures) (ima_cert_der sample_fixtures) st0)
  = fst (build_initramfs sample_zlib hung_world
           (ima_init_binary sample_fixtures) (ima_cert_der sample_fixtures)
           (mkSt 7 [])).
Proof.
  apply (build_initramfs_deterministic sample_zlib good_world hung_world
           (ima_init_binary sample_fixtures) (ima_cert_der sample_fixtures)
           st0 (mkSt 7 [])); reflexivity.
Defined.

(* ------------------------------------------------------------------ *)
(** ** Layout of the archive *)
(* ------------------------------------------------------------------ *)

Lemma write_entries_ok (es : list entry) :
  names_ascii es ->
  forall entries ino,
    write_entries entries ino es
    = Ok (entries ++ List.concat (List.map placed_bytes (number_from ino es)),
          ino + len es).
Proof.
  induction 1 as [|e es He _ IH]; intros entries ino.
  - simpl. rewrite app_nil_r. unfold len. simpl. rewrite Z.add_0_r. reflexivity.
  - cbn [write_entries]. rewrite (_cpio_entry_ok _ _ _ _ _ He). cbn [rbind].
    rewrite IH. unfold bwrite. cbn [number_from List.map List.concat].
    rewrite <- app_assoc. f_equal. f_equal.
    unfold len. cbn [List.length]. lia.
Qed.

Lemma trailer_ascii : all_ascii TRAILER.
Proof. unfold all_ascii. repeat constructor. Qed.

Lemma cpio_archive_ok (es : list entry) :
  names_ascii es ->
  cpio_archive es = Ok (List.concat (List.map placed_bytes (archive_layout es))).
Proof.
  intros Hes. unfold cpio_archive, _cpio_trailer.
  rewrite (write_entries_ok es Hes). cbn [rbind fst].
  rewrite (_cpio_entry_ok _ _ _ _ _ trailer_ascii). cbn [rbind].
  unfold archive_layout, bwrite, getvalue, BytesIO_new.
  rewrite map_app, concat_app. cbn [List.map List.concat app].
  rewrite app_nil_r. reflexivity.
Qed.

Lemma initramfs_names_ascii (init_data cert_data : bytes) :
  names_ascii (initramfs_entries init_data cert_data).
Proof.
  unfold names_ascii, initramfs_entries, initramfs_dirs.
  repeat (constructor; [unfold all_ascii; cbn; repeat constructor|]).
  constructor.
Qed.

(** [build_initramfs] writes the entries of [initramfs_entries]. *)
Lemma initramfs_cpio_archive (init_data cert_data : bytes) :
  initramfs_cpio init_data cert_data
  = cpio_archive (initramfs_entries init_data cert_data).
Proof.
  rewrite (cpio_archive_ok _ (initramfs_names_ascii init_data cert_data)).
  unfold initramfs_cpio, initramfs_dirs, write_dir, _cpio_dir, _cpio_trailer.
  cbn [List.fold_left].
  repeat (rewrite _cpio_entry_ok by (unfold all_ascii; cbn; repeat constructor);
          cbn [rbind]).
  unfold bwrite, getvalue, BytesIO_new.
  cbn [archive_layout initramfs_entries initramfs_dirs List.map number_from
         app List.concat].
  rewrite <- !app_assoc. reflexivity.
Qed.

Ltac find_dir_at j :=
  exists j; eexists;
  split; [lia | split; [reflexivity | split; reflexivity]].

Ltac find_dir :=
  first [find_dir_at 0%nat | find_dir_at 1%nat | find_dir_at 2%nat
        | find_dir_at 3%nat | find_dir_at 4%nat | find_dir_at 5%nat
        | find_dir_at 6%nat | find_dir_at 7%nat | find_dir_at 8%nat].

Lemma initramfs_inode_unique (init_data cert_data : bytes) :
  inode_unique (archive_layout (initramfs_entries init_data cert_data)).
Proof.
  unfold inode_unique.
  change (List.map fst (archive_layout (initramfs_entries init_data cert_data)))
    with [1; 2; 3; 4; 5; 6; 7; 8; 9; 0].
  repeat (constructor;
          [cbn [List.In]; intros H;
           repeat (destruct H as [H|H]; [discriminate H|]); exact H|]).
  constructor.
Qed.

Lemma initramfs_dirs_precede (init_data cert_data : bytes) :
  dirs_precede (archive_layout (initramfs_entries init_data cert_data)).
Proof.
  intros i ie p Hn Hp.
  do 10 (destruct i as [|i];
         [injection Hn as <-; cbv in Hp;
          repeat (destruct Hp as [<-|Hp]; [find_dir|]); contradiction|]).
  destruct i; discriminate Hn.
Qed.

Lemma initramfs_ends_with_trailer (init_data cert_data : bytes) :
  ends_with_trailer (archive_layout (initramfs_entries init_data cert_data)).
Proof.
  exists (number_from 1 (initramfs_entries init_data cert_data)), 0, trailer_entry.
  repeat split; reflexivity.
Qed.

Lemma placed_bytes_layout (es : list entry) :
  names_ascii es ->
  Forall (fun ie =>
            _cpio_entry (e_name (snd ie)) (e_data (snd ie)) (e_mode (snd ie))
                        (fst ie) (e_nlink (snd ie))
            = Ok (placed_bytes ie))
         (archive_layout es).
Proof.
  intros Hes. unfold archive_layout. apply Forall_app. split.
  - generalize 1. induction Hes as [|e es He _ IH]; intros ino; simpl.
    + constructor.
    + constructor; [apply _cpio_entry_ok, He | apply IH].
  - constructor; [|constructor]. apply _cpio_entry_ok, trailer_ascii.
Qed.

(** C7 -- structure of the archive.  A payload returned by
    [build_initramfs] is the compressed form of an archive that is the
    concatenation of the entries [_cpio_entry] returns for a layout in
    which the inodes are pairwise distinct, every directory prefix of an
    entry's path is the name of a directory entry placed earlier, and the
    last entry is the trailer: name [TRAILER!!!], mode 0, empty content. *)
Theorem build_initramfs_structure
  (zlib : Zlib) (w : World) (init_path cert_der_path : Path)
  (st st' : St) (gz : bytes) :
  build_initramfs zlib w init_path cert_der_path st = (Ok gz, st') ->
  exists init_data cert_data raw layout,
    file_bytes w (path_str init_path) = Some init_data
    /\ file_bytes w (path_str cert_der_path) = Some cert_data
    /\ initramfs_cpio init_data cert_data = Ok raw
    /\ gz = gzip_member zlib w (Some 0) raw
    /\ layout = archive_layout (initramfs_entries init_data cert_data)
    /\ raw = List.concat (List.map placed_bytes layout)
    /\ Forall (fun ie =>
                 _cpio_entry (e_name (snd ie)) (e_data (snd ie))
                             (e_mode (snd ie)) (fst ie) (e_nlink (snd ie))
                 = Ok (placed_bytes ie)) layout
    /\ inode_unique layout
    /\ dirs_precede layout
    /\ ends_with_trailer layout.
Proof.
  rewrite build_initramfs_result.
  destruct (file_bytes w (path_str init_path)) as [init_data|]; [|discriminate].
  destruct (file_bytes w (path_str cert_der_path)) as [cert_data|];
    [|discriminate].
  pose proof (initramfs_cpio_archive init_data cert_data) as Harch.
  rewrite (cpio_archive_ok _ (initramfs_names_ascii init_data cert_data)) in Harch.
  rewrite Harch. intros H.
  apply (f_equal fst) in H. cbn [fst] in H. apply Ok_inj in H. subst gz.
  exists init_data, cert_data.
  eexists. eexists.
  split; [reflexivity|].
  split; [reflexivity|].
  split; [exact Harch|].
  split; [reflexivity|].
  split; [reflexivity|].
  split; [reflexivity|].
  split; [apply placed_bytes_layout, initramfs_names_ascii|].
  split; [apply initramfs_inode_unique|].
  split; [apply initramfs_dirs_precede | apply initramfs_ends_with_trailer].
Qed.

Lemma build_initramfs_structure_witness :
  exists init_data cert_data raw layout,
    file_bytes good_world (path_str (ima_init_binary sample_fixtures))
    = Some init_data
    /\ file_bytes good_world (path_str (ima_cert_der sample_fixtures))
       = Some cert_data
    /\ initramfs_cpio init_data cert_data = Ok raw
    /\ sample_payload = gzip_member sample_zlib good_world (Some 0) raw
    /\ layout = archive_layout (initramfs_entries init_data cert_data)
    /\ raw = List.concat (List.map placed_bytes layout)
    /\ Forall (fun ie =>
                 _cpio_entry (e_name (snd ie)) (e_data (snd ie))
                             (e_mode (snd ie)) (fst ie) (e_nlink (snd ie))
                 = Ok (placed_bytes ie)) layout
    /\ inode_unique layout
    /\ dirs_precede layout
    /\ ends_with_trailer layout.
Proof.
  assert (Hrun : build_initramfs sample_zlib good_world
                   (ima_init_binary sample_fixtures)
                   (ima_cert_der sample_fixtures) st0
                 = (Ok sample_payload, st0))
    by (vm_compute; reflexivity).
  exact (build_initramfs_structure _ _ _ _ _ _ _ Hrun).
Defined.

(* ------------------------------------------------------------------ *)
(** ** Reading back what the builder wrote *)
(* ------------------------------------------------------------------ *)

Lemma ascii_byte_to_N (c : N) : (c < 256)%N -> Byte.to_N (ascii_byte c) = c.
Proof.
  intros Hc. unfold ascii_byte.
  destruct (Byte.of_N c) as [b|] eqn:E.
  - apply Byte.to_of_N, E.
  - apply Byte.of_N_None_iff in E. lia.
Qed.

Lemma enc_to_N (s : str) : all_ascii s -> List.map Byte.to_N (enc s) = s.
Proof.
  induction 1 as [|c s Hc _ IH]; simpl; [reflexivity|].
  rewrite IH, ascii_byte_to_N; [reflexivity|].
  unfold is_ascii in Hc. apply N.ltb_lt in Hc. lia.
Qed.

Lemma enc_inj (a b : str) : all_ascii a -> all_ascii b -> enc a = enc b -> a = b.
Proof.
  intros Ha Hb H. rewrite <- (enc_to_N a Ha), <- (enc_to_N b Hb), H. reflexivity.
Qed.

Lemma bytes_eqb_eq (a b : bytes) : bytes_eqb a b = true <-> a = b.
Proof.
  revert b. induction a as [|x a IH]; intros [|y b]; simpl;
    try (split; [discriminate | intros H; discriminate H]);
    try (split; reflexivity).
  rewrite andb_true_iff, IH. split.
  - intros [H ->]. apply Byte.byte_dec_bl in H. subst. reflexivity.
  - intros [= -> ->]. split; [apply Byte.byte_dec_lb | ]; reflexivity.
Qed.

Lemma hex_val_hex_char (d : N) :
  (d < 16)%N -> hex_val (ascii_byte (hex_char d)) = Some d.
Proof.
  intros H.
  assert (Hd : (d = 0 \/ d = 1 \/ d = 2 \/ d = 3 \/ d = 4 \/ d = 5 \/ d = 6
                \/ d = 7 \/ d = 8 \/ d = 9 \/ d = 10 \/ d = 11 \/ d = 12
                \/ d = 13 \/ d = 14 \/ d = 15)%N) by lia.
  repeat (destruct Hd as [->|Hd]; [reflexivity|]). subst d. reflexivity.
Qed.

Lemma parse_hex_acc_app (a b : bytes) :
  forall acc,
    parse_hex_acc acc (a ++ b)
    = obind (parse_hex_acc acc a) (fun v => parse_hex_acc v b).
Proof.
  induction a as [|x a IH]; intros acc; simpl; [reflexivity|].
  destruct (hex_val x); [apply IH | reflexivity].
Qed.

Lemma parse_hex_digits (fuel : nat) :
  forall n, (n < 16 ^ N.of_nat fuel)%N ->
            parse_hex_acc 0%N (enc (hex_digits fuel n)) = Some n.
Proof.
  induction fuel as [|f IH]; intros n Hn.
  - simpl in *. f_equal. change (16 ^ 0)%N with 1%N in Hn. lia.
  - cbn [hex_digits]. destruct (n <? 16)%N eqn:E.
    + apply N.ltb_lt in E. cbn [enc List.map parse_hex_acc].
      rewrite (hex_val_hex_char n E). reflexivity.
    + apply N.ltb_ge in E. unfold enc. rewrite map_app.
      rewrite parse_hex_acc_app.
      fold (enc (hex_digits f (n / 16))). rewrite IH.
      * cbn [obind List.map parse_hex_acc].
        rewrite hex_val_hex_char by (apply N.mod_upper_bound; discriminate).
        f_equal. pose proof (N.div_mod n 16). lia.
      * apply N.Div0.div_lt_upper_bound.
        replace (N.of_nat (S f)) with (N.succ (N.of_nat f)) in Hn by lia.
        rewrite N.pow_succ_r' in Hn. exact Hn.
Qed.

Lemma parse_hex_zeros (k : nat) (l : bytes) :
  parse_hex_acc 0%N (enc (List.repeat 48%N k) ++ l) = parse_hex_acc 0%N l.
Proof. induction k as [|k IH]; simpl; [reflexivity | exact IH]. Qed.

Lemma hex_upper_fuel (n : N) : (n < 16 ^ N.of_nat (S (N.to_nat (N.size n))))%N.
Proof.
  apply N.lt_le_trans with (2 ^ N.size n)%N; [apply N.size_gt|].
  replace (N.of_nat (S (N.to_nat (N.size n)))) with (N.succ (N.size n)) by lia.
  apply N.le_trans with (16 ^ N.size n)%N.
  - apply N.pow_le_mono_l. lia.
  - apply N.pow_le_mono_r; lia.
Qed.

(** A field written by the builder reads back as its value. *)
Lemma parse_hex_format (v : Z) :
  0 <= v -> parse_hex (enc (format_08X v)) = Some (Z.to_N v).
Proof.
  intros Hv. unfold parse_hex, format_08X.
  destruct (v <? 0) eqn:E; [apply Z.ltb_lt in E; lia|].
  unfold zero_pad, enc. rewrite map_app.
  fold (enc (List.repeat 48%N (8 - List.length (hex_upper (Z.abs_N v))))).
  rewrite parse_hex_zeros.
  fold (enc (hex_upper (Z.abs_N v))). unfold hex_upper.
  rewrite parse_hex_digits by apply hex_upper_fuel.
  f_equal. lia.
Qed.

Lemma take_field_format (v : Z) (rest : bytes) :
  in_u32 v ->
  take_field (enc (format_08X v) ++ rest) = Some (Z.to_N v, rest).
Proof.
  intros Hv. unfold take_field.
  pose proof (enc_field_length v Hv) as Hl.
  rewrite length_app, Hl.
  replace (8 + List.length rest <? 8)%nat with false
    by (symmetry; apply Nat.ltb_ge; lia).
  rewrite (firstn_app_exact _ _ 8 Hl), (skipn_app_exact _ _ 8 Hl).
  rewrite parse_hex_format by (unfold in_u32 in Hv; lia).
  reflexivity.
Qed.

Lemma to_nat_len {A : Type} (l : list A) : N.to_nat (Z.to_N (len l)) = List.length l.
Proof. unfold len. lia. Qed.

Lemma to_nat_len_succ {A : Type} (l : list A) :
  N.to_nat (Z.to_N (len l + 1)) = S (List.length l).
Proof. unfold len. lia. Qed.

Lemma padding_pad_len (n : nat) :
  List.length (padding (Z.of_nat n)) = pad_len n.
Proof.
  unfold padding, pad_len, zeros.
  assert (Hz : Z.of_nat n mod 4 = Z.of_nat (n mod 4))
    by (rewrite Nat2Z.inj_mod; reflexivity).
  rewrite Hz.
  pose proof (Nat.mod_upper_bound n 4 ltac:(discriminate)) as Hm.
  destruct (Z.of_nat (n mod 4) =? 0) eqn:E.
  - apply Z.eqb_eq in E.
    replace (n mod 4)%nat with 0%nat by lia. reflexivity.
  - apply Z.eqb_neq in E. rewrite repeat_length.
    rewrite (Nat.mod_small (4 - n mod 4) 4) by lia. lia.
Qed.

Lemma c_string_app (a b : bytes) :
  Forall (fun x => x <> NUL) a -> c_string (a ++ NUL :: b) = a.
Proof.
  induction 1 as [|x a Hx _ IH]; simpl; [reflexivity|].
  destruct (Byte.eqb x NUL) eqn:E.
  - apply Byte.byte_dec_bl in E. contradiction.
  - rewrite IH. reflexivity.
Qed.

Lemma enc_no_nul (s : str) :
  all_ascii s -> no_nul s -> Forall (fun x => x <> NUL) (enc s).
Proof.
  intros Ha Hn. induction Ha as [|c s Hc _ IH]; simpl; [constructor|].
  inversion Hn as [|? ? Hc0 Hs]; subst.
  constructor; [|apply IH, Hs].
  intros E. apply Hc0.
  rewrite <- (ascii_byte_to_N c), E; [reflexivity|].
  unfold is_ascii in Hc. apply N.ltb_lt in Hc. lia.
Qed.

Lemma read_entry_placed (ino : Z) (e : entry) (rest : bytes) :
  readable ino e ->
  read_entry (placed_bytes (ino, e) ++ rest) = Some (rec_of (ino, e), rest).
Proof.
  destruct e as [name data mode nlink].
  unfold readable, placed_bytes, rec_of, entry_bytes. cbn [fst snd e_name e_data e_mode e_nlink].
  intros (Ha & Hn & Hi & Hm & Hl & Hd & Hs).
  assert (Hh : len (header_bytes ino mode nlink (len data) (len name + 1))
               = Z.of_nat (110 + S (List.length name)) - (len name + 1)).
  { unfold len at 1. rewrite header_bytes_length by assumption. unfold len. lia. }
  rewrite Hh. replace (Z.of_nat (110 + S (List.length name)) - (len name + 1)
                       + (len name + 1))
    with (Z.of_nat (110 + S (List.length name))) by lia.
  change (padding (len data)) with (padding (Z.of_nat (List.length data))).
  fold (enc name).
  pose proof (padding_pad_len (110 + S (List.length name))) as Hp1.
  pose proof (padding_pad_len (List.length data)) as Hp2.
  set (pad1 := padding (Z.of_nat (110 + S (List.length name)))) in *.
  set (pad2 := padding (Z.of_nat (List.length data))) in *.
  rewrite header_bytes_fields.
  unfold read_entry.
  rewrite <- !app_assoc.
  rewrite (firstn_app_exact newc_magic _ 6 eq_refl).
  rewrite (skipn_app_exact newc_magic _ 6 eq_refl).
  replace (bytes_eqb newc_magic newc_magic) with true by reflexivity.
  assert (H0 : in_u32 0) by (unfold in_u32; lia).
  repeat (rewrite take_field_format by assumption; cbn [obind fst snd]).
  rewrite to_nat_len, to_nat_len_succ.
  cbn [Nat.eqb orb].
  set (tail := pad1 ++ data ++ pad2 ++ rest).
  change ([NUL] ++ tail) with (NUL :: tail).
  assert (Hlen : List.length (enc name ++ NUL :: tail)
                 = (S (List.length name) + List.length tail)%nat).
  { rewrite length_app, enc_length. cbn [List.length]. lia. }
  rewrite Hlen.
  replace (S (List.length name) + List.length tail <? S (List.length name))%nat
    with false by (symmetry; apply Nat.ltb_ge; lia).
  replace (enc name ++ NUL :: tail) with ((enc name ++ [NUL]) ++ tail)
    by (rewrite <- app_assoc; reflexivity).
  assert (Hn1 : List.length (enc name ++ [NUL]) = S (List.length name)).
  { rewrite length_app, enc_length. cbn [List.length]. lia. }
  rewrite (firstn_app_exact _ _ _ Hn1).
  rewrite skipn_add, (skipn_app_exact _ _ _ Hn1).
  subst tail.
  rewrite (skipn_app_exact pad1 _ _ Hp1).
  rewrite length_app.
  replace (List.length data + List.length (pad2 ++ rest) <? List.length data)%nat
    with false by (symmetry; apply Nat.ltb_ge; lia).
  rewrite (firstn_app_exact data _ _ eq_refl).
  rewrite skipn_add, (skipn_app_exact data _ _ eq_refl).
  rewrite (skipn_app_exact pad2 _ _ Hp2).
  replace (enc name ++ [NUL]) with (enc name ++ NUL :: []) by reflexivity.
  rewrite (c_string_app _ _ (enc_no_nul name Ha Hn)).
  reflexivity.
Qed.

Lemma trailer_readable : readable 0 trailer_entry.
Proof.
  unfold readable, trailer_entry, in_u32. cbn [e_name e_data e_mode e_nlink].
  split; [apply trailer_ascii|].
  split; [unfold no_nul, TRAILER; cbn; repeat (constructor; [discriminate|]); constructor|].
  repeat split; try lia; try reflexivity; discriminate.
Qed.

Lemma newc_read_entries (es : list entry) :
  Forall roundtrips es ->
  forall ino fuel rest,
    0 <= ino -> ino + len es <= 4294967296 ->
    (List.length es < fuel)%nat ->
    newc_read fuel
      (List.concat (List.map placed_bytes (number_from ino es))
       ++ placed_bytes (0, trailer_entry) ++ rest)
    = Some (List.map rec_of (number_from ino es)).
Proof.
  induction 1 as [|e es He _ IH]; intros ino fuel rest H0 Hmax Hfuel.
  - destruct fuel as [|f]; [simpl in Hfuel; lia|].
    cbn [number_from List.map List.concat app newc_read].
    rewrite (read_entry_placed 0 trailer_entry rest trailer_readable).
    cbn [obind fst snd].
    replace (bytes_eqb (r_name (rec_of (0, trailer_entry))) trailer_name)
      with true by (symmetry; apply bytes_eqb_eq; reflexivity).
    reflexivity.
  - destruct fuel as [|f]; [simpl in Hfuel; lia|].
    assert (Hlen : len (e :: es) = len es + 1)
      by (unfold len; cbn [List.length]; lia).
    destruct He as (Ha & Hn & Ht & Hm & Hl & Hd & Hs).
    cbn [number_from List.map List.concat newc_read].
    rewrite <- app_assoc.
    rewrite (read_entry_placed ino e).
    2: { unfold readable, in_u32 in *. unfold len in *.
         cbn [List.length] in *. repeat split; try assumption; lia. }
    cbn [obind fst snd].
    destruct (bytes_eqb (r_name (rec_of (ino, e))) trailer_name) eqn:E.
    + exfalso. apply Ht. apply bytes_eqb_eq in E.
      apply enc_inj; [exact Ha | apply trailer_ascii | exact E].
    + rewrite IH; [reflexivity | lia | lia |].
      cbn [List.length] in Hfuel. lia.
Qed.

Lemma placed_bytes_nonempty (ie : Z * entry) :
  (1 <= List.length (placed_bytes ie))%nat.
Proof.
  unfold placed_bytes, entry_bytes. rewrite header_bytes_fields.
  rewrite !length_app.
  replace (List.length newc_magic) with 6%nat by reflexivity. lia.
Qed.

Lemma concat_placed_length (l : list (Z * entry)) :
  (List.length l <= List.length (List.concat (List.map placed_bytes l)))%nat.
Proof.
  induction l as [|ie l IH]; cbn [List.map List.concat List.length]; [lia|].
  rewrite length_app. pose proof (placed_bytes_nonempty ie). lia.
Qed.

Lemma number_from_length (es : list entry) :
  forall ino, List.length (number_from ino es) = List.length es.
Proof. induction es as [|e es IH]; intros ino; simpl; [|rewrite IH]; reflexivity. Qed.

Lemma rec_view_of (es : list entry) :
  Forall roundtrips es ->
  forall ino, List.map rec_view (List.map rec_of (number_from ino es))
              = List.map entry_view es.
Proof.
  induction 1 as [|e es He _ IH]; intros ino; cbn [number_from List.map].
  - reflexivity.
  - rewrite IH. f_equal.
    destruct He as (Ha & _ & _ & Hm & _).
    unfold rec_view, rec_of, entry_view. cbn [fst snd r_name r_mode r_data].
    rewrite (enc_to_N _ Ha). unfold in_u32 in Hm.
    rewrite Z2N.id by lia. reflexivity.
Qed.

(** The reader inverts the builder on entries that fit the format. *)
Lemma cpio_archive_decodes (es : list entry) :
  Forall roundtrips es ->
  len es < 4294967295 ->
  exists raw,
    cpio_archive es = Ok raw
    /\ newc_decode raw = Some (List.map rec_of (number_from 1 es))
    /\ option_map (List.map rec_view) (newc_decode raw)
       = Some (List.map entry_view es).
Proof.
  intros Hes Hn.
  assert (Hascii : names_ascii es).
  { unfold names_ascii. eapply Forall_impl; [|exact Hes].
    intros e (Ha & _). exact Ha. }
  exists (List.concat (List.map placed_bytes (archive_layout es))).
  split; [apply cpio_archive_ok, Hascii|].
  assert (Hdec : newc_decode (List.concat (List.map placed_bytes (archive_layout es)))
                 = Some (List.map rec_of (number_from 1 es))).
  { unfold newc_decode.
    pose proof (concat_placed_length (archive_layout es)) as Hlen.
    unfold archive_layout in *.
    rewrite length_app, number_from_length in Hlen. cbn [List.length] in Hlen.
    rewrite map_app, concat_app. cbn [List.map List.concat].
    rewrite map_app, concat_app in Hlen. cbn [List.map List.concat] in Hlen.
    apply newc_read_entries; [exact Hes | lia | lia | lia]. }
  split; [exact Hdec|].
  rewrite Hdec. cbn [option_map]. f_equal. apply rec_view_of, Hes.
Qed.

(** C6, as amended -- round trip.  For a list of fewer than 2^32 - 1
    entries, each with an ASCII name free of NUL and other than
    [TRAILER!!!], and with mode, link count, content length and name
    length below 2^32, the archive is built and the newc reader gives the
    entries back in order: same names, modes and contents (and the inodes
    1, 2, ... and link counts they were written with). *)
Theorem cpio_archive_roundtrip (es : list entry) :
  Forall roundtrips es ->
  len es < 4294967295 ->
  exists raw,
    cpio_archive es = Ok raw
    /\ newc_decode raw = Some (List.map rec_of (number_from 1 es))
    /\ option_map (List.map rec_view) (newc_decode raw)
       = Some (List.map entry_view es).
Proof. exact (cpio_archive_decodes es). Qed.

Ltac closed_u32 :=
  unfold in_u32; vm_compute; split; [discriminate | reflexivity].

Ltac closed_forall :=
  vm_compute; repeat (constructor; [first [reflexivity | discriminate]|]);
  constructor.

Ltac roundtrips_tac :=
  unfold roundtrips; cbn [e_name e_data e_mode e_nlink];
  split; [unfold all_ascii; closed_forall|];
  split; [unfold no_nul; closed_forall|];
  split; [intros H; vm_compute in H; discriminate H|];
  split; [closed_u32|];
  split; [closed_u32|];
  split; [first [assumption | closed_u32] | closed_u32].

Lemma cpio_archive_roundtrip_witness :
  exists raw,
    cpio_archive sample_entries = Ok raw
    /\ newc_decode raw = Some (List.map rec_of (number_from 1 sample_entries))
    /\ option_map (List.map rec_view) (newc_decode raw)
       = Some (List.map entry_view sample_entries).
Proof.
  apply cpio_archive_roundtrip.
  - unfold sample_entries, dir_entry.
    repeat (constructor; [roundtrips_tac|]). constructor.
  - vm_compute. reflexivity.
Defined.

(** C6, as stated, fails.  An entry named like the trailer ends the
    reading at once, a mode of 2^32 takes nine digits and shifts every
    field after it, and a name outside ASCII gives no archive at all. *)
Lemma cpio_archive_roundtrip_fails :
  (exists raw,
      cpio_archive [mkEntry (lit "TRAILER!!!") [x41] mode_cert 1] = Ok raw
      /\ option_map (List.map rec_view) (newc_decode raw) = Some [])
  /\ (exists raw,
         cpio_archive [mkEntry (lit "f") [x41] 4294967296 1] = Ok raw
         /\ newc_decode raw = None)
  /\ (forall raw, cpio_archive [mkEntry [233%N] [x41] mode_cert 1] <> Ok raw)
  /\ ~ (forall es : list entry,
          exists raw,
            cpio_archive es = Ok raw
            /\ option_map (List.map rec_view) (newc_decode raw)
               = Some (List.map entry_view es)).
Proof.
  split.
  { eexists. split; [vm_compute; reflexivity|]. vm_compute. reflexivity. }
  split.
  { eexists. split; [vm_compute; reflexivity|]. vm_compute. reflexivity. }
  split.
  { intros raw H. vm_compute in H. discriminate H. }
  intros H.
  destruct (H [mkEntry [233%N] [x41] mode_cert 1]) as (raw & Hraw & _).
  vm_compute in Hraw. discriminate Hraw.
Qed.

(** The payload of [build_initramfs] reads back, for contents below
    4 GiB. *)
Lemma initramfs_cpio_reads_back (init_data cert_data : bytes) :
  in_u32 (len init_data) -> in_u32 (len cert_data) ->
  exists raw,
    initramfs_cpio init_data cert_data = Ok raw
    /\ option_map (List.map rec_view) (newc_decode raw)
       = Some (List.map entry_view (initramfs_entries init_data cert_data)).
Proof.
  intros Hi Hc. rewrite initramfs_cpio_archive.
  destruct (cpio_archive_decodes (initramfs_entries init_data cert_data))
    as (raw & Hraw & _ & Hview).
  - unfold initramfs_entries, initramfs_dirs, dir_entry. cbn [List.map app].
    repeat (constructor; [roundtrips_tac|]). constructor.
  - vm_compute. reflexivity.
  - exists raw. split; assumption.
Qed.

(* ================================================================== *)
(** * Further properties of the harness *)
(* ================================================================== *)

(* ------------------------------------------------------------------ *)
(** ** Width and injectivity of the [08X] format *)
(* ------------------------------------------------------------------ *)

Lemma hex_digits_length_ge (fuel : nat) :
  forall n k, (16 ^ N.of_nat k <= n)%N -> (n < 16 ^ N.of_nat fuel)%N ->
              (S k <= List.length (hex_digits fuel n))%nat.
Proof.
  induction fuel as [|f IH]; intros n k Hlo Hhi.
  - change (16 ^ N.of_nat 0)%N with 1%N in Hhi.
    assert (16 ^ N.of_nat k <> 0)%N by (apply N.pow_nonzero; discriminate). lia.
  - cbn [hex_digits]. destruct (n <? 16)%N eqn:E.
    + apply N.ltb_lt in E. destruct k as [|k]; [simpl; lia|].
      exfalso.
      assert (16 ^ N.of_nat 1 <= 16 ^ N.of_nat (S k))%N
        by (apply N.pow_le_mono_r; lia).
      change (16 ^ N.of_nat 1)%N with 16%N in H. lia.
    + apply N.ltb_ge in E. rewrite length_app. cbn [List.length].
      destruct k as [|k]; [lia|].
      assert (S k <= List.length (hex_digits f (n / 16)))%nat; [|lia].
      apply IH.
      * apply N.div_le_lower_bound; [lia|].
        replace (N.of_nat (S k)) with (N.succ (N.of_nat k)) in Hlo by lia.
        rewrite N.pow_succ_r' in Hlo. exact Hlo.
      * apply N.Div0.div_lt_upper_bound.
        replace (N.of_nat (S f)) with (N.succ (N.of_nat f)) in Hhi by lia.
        rewrite N.pow_succ_r' in Hhi. exact Hhi.
Qed.

(** X1 -- the format never truncates.  A non-negative value is written on
    exactly 8 characters when it is below 2^32 and on more than 8
    otherwise. *)
Theorem format_08X_width (v : Z) :
  0 <= v ->
  (v < 4294967296 -> List.length (format_08X v) = 8%nat)
  /\ (4294967296 <= v -> (8 < List.length (format_08X v))%nat).
Proof.
  intros Hv. split.
  - intros Hlt. apply format_08X_length. lia.
  - intros Hge. unfold format_08X.
    destruct (v <? 0) eqn:E; [apply Z.ltb_lt in E; lia|].
    unfold zero_pad. rewrite length_app, repeat_length.
    assert (9 <= List.length (hex_upper (Z.abs_N v)))%nat; [|lia].
    unfold hex_upper. apply hex_digits_length_ge; [|apply hex_upper_fuel].
    change (16 ^ N.of_nat 8)%N with 4294967296%N. lia.
Qed.

Lemma format_08X_width_witness :
  List.length (format_08X 4294967296) = 9%nat
  /\ List.length (format_08X 33261) = 8%nat.
Proof.
  assert (H0 : 0 <= 33261) by lia.
  destruct (format_08X_width 33261 H0) as [H _].
  split; [reflexivity | apply H; lia].
Defined.

Lemma parse_hex_negative (v : Z) :
  v < 0 -> parse_hex (enc (format_08X v)) = None.
Proof.
  intros Hv. unfold format_08X. apply Z.ltb_lt in Hv. rewrite Hv. reflexivity.
Qed.

Lemma parse_hex_tail_negative (v : Z) :
  v < 0 -> parse_hex (enc (List.tl (format_08X v))) = Some (Z.abs_N v).
Proof.
  intros Hv. unfold format_08X. apply Z.ltb_lt in Hv. rewrite Hv.
  cbn [List.tl]. unfold parse_hex, zero_pad, enc. rewrite map_app.
  fold (enc (List.repeat 48%N (7 - List.length (hex_upper (Z.abs_N v))))).
  rewrite parse_hex_zeros.
  fold (enc (hex_upper (Z.abs_N v))). unfold hex_upper.
  apply parse_hex_digits, hex_upper_fuel.
Qed.

Lemma format_08X_inj (a b : Z) : format_08X a = format_08X b -> a = b.
Proof.
  intros H.
  destruct (Z.ltb_spec a 0) as [Ha|Ha]; destruct (Z.ltb_spec b 0) as [Hb|Hb].
  - pose proof (parse_hex_tail_negative a Ha) as Pa.
    pose proof (parse_hex_tail_negative b Hb) as Pb.
    rewrite H in Pa. rewrite Pa in Pb. injection Pb as Pb. lia.
  - pose proof (parse_hex_negative a Ha) as Pa.
    pose proof (parse_hex_format b Hb) as Pb.
    rewrite H in Pa. rewrite Pa in Pb. discriminate.
  - pose proof (parse_hex_format a Ha) as Pa.
    pose proof (parse_hex_negative b Hb) as Pb.
    rewrite H in Pa. rewrite Pa in Pb. discriminate.
  - pose proof (parse_hex_format a Ha) as Pa.
    pose proof (parse_hex_format b Hb) as Pb.
    rewrite H in Pa. rewrite Pa in Pb. injection Pb as Pb. lia.
Qed.

(** X2 -- the format is injective: two different integers (of any sign
    and size) are never written the same way, so distinct inodes, modes
    or sizes never give the same field. *)
Theorem format_08X_injective (a b : Z) :
  a <> b -> format_08X a <> format_08X b.
Proof. intros Hab H. apply Hab, format_08X_inj, H. Qed.

Lemma format_08X_injective_witness :
  format_08X 1 <> format_08X (-1) /\ format_08X 4294967296 <> format_08X 0.
Proof.
  split; apply format_08X_injective; discriminate.
Defined.

(* ------------------------------------------------------------------ *)
(** ** The header for arbitrary fields *)
(* ------------------------------------------------------------------ *)

(** X3 -- [_cpio_header] never raises.  Whatever the twelve integers
    (negative or beyond 32 bits), it returns the magic followed by the
    thirteen formatted fields: at least 110 bytes, and exactly 110 when
    every field is in [0, 2^32). *)
Theorem cpio_header_total
  (ino mode uid gid nlink mtime filesize devmajor devminor
   rdevmajor rdevminor namesize : Z) :
  exists hdr,
    _cpio_header ino mode uid gid nlink mtime filesize devmajor devminor
                 rdevmajor rdevminor namesize = Ok hdr
    /\ hdr = newc_magic
             ++ enc (format_08X ino) ++ enc (format_08X mode)
             ++ enc (format_08X uid) ++ enc (format_08X gid)
             ++ enc (format_08X nlink) ++ enc (format_08X mtime)
             ++ enc (format_08X filesize) ++ enc (format_08X devmajor)
             ++ enc (format_08X devminor) ++ enc (format_08X rdevmajor)
             ++ enc (format_08X rdevminor) ++ enc (format_08X namesize)
             ++ enc (format_08X 0)
    /\ (110 <= List.length hdr)%nat
    /\ (Forall in_u32 [ino; mode; uid; gid; nlink; mtime; filesize; devmajor;
                       devminor; rdevmajor; rdevminor; namesize] ->
        List.length hdr = 110%nat).
Proof.
  eexists. split.
  { unfold _cpio_header. apply encode_ascii_ok.
    apply all_ascii_app; [unfold all_ascii; repeat constructor|].
    repeat match goal with
           | |- all_ascii (format_08X _ ++ _) =>
               apply all_ascii_app; [apply format_08X_ascii|]
           end.
    apply format_08X_ascii. }
  split.
  { rewrite !map_app. reflexivity. }
  split.
  - rewrite length_map, !length_app.
    pose proof (format_08X_length_ge ino). pose proof (format_08X_length_ge mode).
    pose proof (format_08X_length_ge uid). pose proof (format_08X_length_ge gid).
    pose proof (format_08X_length_ge nlink). pose proof (format_08X_length_ge mtime).
    pose proof (format_08X_length_ge filesize).
    pose proof (format_08X_length_ge devmajor).
    pose proof (format_08X_length_ge devminor).
    pose proof (format_08X_length_ge rdevmajor).
    pose proof (format_08X_length_ge rdevminor).
    pose proof (format_08X_length_ge namesize).
    pose proof (format_08X_length_ge 0).
    replace (List.length (lit "070701")) with 6%nat by reflexivity. lia.
  - intros Hall.
    repeat match goal with
           | H : Forall _ (_ :: _) |- _ =>
               let H1 := fresh "Hu" in
               let H2 := fresh "Hr" in
               apply Forall_cons_iff in H; destruct H as [H1 H2]
           end.
    rewrite length_map, !length_app.
    rewrite !format_08X_length by (assumption || lia).
    reflexivity.
Qed.

(* ------------------------------------------------------------------ *)
(** ** Alignment of entries and of the archive *)
(* ------------------------------------------------------------------ *)

Lemma entry_bytes_aligned (name : str) (data : bytes) (mode ino nlink : Z) :
  len (entry_bytes name data mode ino nlink) mod 4 = 0.
Proof.
  unfold entry_bytes.
  set (hdr := header_bytes ino mode nlink (len data) (len name + 1)).
  pose proof (padding_aligns (len hdr + (len name + 1))) as H1.
  pose proof (padding_aligns (len data)) as H2.
  set (pad1 := padding (len hdr + (len name + 1))) in *.
  set (pad2 := padding (len data)) in *.
  assert (E : len (hdr ++ (List.map ascii_byte name ++ [NUL]) ++ pad1 ++ data ++ pad2)
              = (len hdr + (len name + 1) + len pad1) + (len data + len pad2)).
  { unfold len. rewrite !length_app, length_map. cbn [List.length]. lia. }
  rewrite E. rewrite Z.add_mod, H1, H2 by lia. reflexivity.
Qed.

Lemma concat_placed_aligned (l : list (Z * entry)) :
  len (List.concat (List.map placed_bytes l)) mod 4 = 0.
Proof.
  induction l as [|ie l IH]; cbn [List.map List.concat]; [reflexivity|].
  assert (E : len (placed_bytes ie ++ List.concat (List.map placed_bytes l))
              = len (placed_bytes ie) + len (List.concat (List.map placed_bytes l))).
  { unfold len. rewrite length_app. lia. }
  rewrite E, Z.add_mod, IH by lia.
  unfold placed_bytes. rewrite entry_bytes_aligned. reflexivity.
Qed.

(** X4 -- alignment.  Every entry [_cpio_entry] returns has a length that
    is a multiple of 4, and so has the whole archive of [build_initramfs]:
    each entry of the concatenation starts on a 4-byte boundary. *)
Theorem cpio_lengths_aligned :
  (forall name data mode ino nlink e,
      _cpio_entry name data mode ino nlink = Ok e -> len e mod 4 = 0)
  /\ (forall init_data cert_data raw,
         initramfs_cpio init_data cert_data = Ok raw -> len raw mod 4 = 0).
Proof.
  split.
  - intros name data mode ino nlink e He.
    destruct (_cpio_entry_cases name data mode ino nlink) as [[_ E]|(p & c & E)];
      rewrite E in He; [|discriminate].
    apply Ok_inj in He. subst e. apply entry_bytes_aligned.
  - intros init_data cert_data raw Hraw.
    rewrite initramfs_cpio_archive in Hraw.
    rewrite (cpio_archive_ok _ (initramfs_names_ascii init_data cert_data)) in Hraw.
    apply Ok_inj in Hraw. subst raw. apply concat_placed_aligned.
Qed.

(* ------------------------------------------------------------------ *)
(** ** Outcomes of [build_initramfs] *)
(* ------------------------------------------------------------------ *)

Lemma initramfs_cpio_total (init_data cert_data : bytes) :
  exists raw, initramfs_cpio init_data cert_data = Ok raw.
Proof.
  rewrite initramfs_cpio_archive.
  rewrite (cpio_archive_ok _ (initramfs_names_ascii init_data cert_data)).
  eexists. reflexivity.
Qed.

(** X5 -- [build_initramfs] fails only on an unreadable file.  It reads
    the init binary first, then the certificate; the first one that
    cannot be read gives its [OSError]; with both read it always returns
    a payload, whatever the contents.  In every case it runs no command
    and writes no file: the state of the outside is unchanged. *)
Theorem build_initramfs_outcome
  (zlib : Zlib) (w : World) (init_path cert_der_path : Path) (st : St) :
  let r := build_initramfs zlib w init_path cert_der_path st in
  snd r = st
  /\ (file_bytes w (path_str init_path) = None ->
      fst r = Raise (OSError (path_str init_path)))
  /\ (file_bytes w (path_str init_path) <> None ->
      file_bytes w (path_str cert_der_path) = None ->
      fst r = Raise (OSError (path_str cert_der_path)))
  /\ (file_bytes w (path_str init_path) <> None ->
      file_bytes w (path_str cert_der_path) <> None ->
      exists gz, fst r = Ok gz).
Proof.
  intros r. subst r. rewrite build_initramfs_result.
  destruct (file_bytes w (path_str init_path)) as [init_data|].
  2: { repeat split; try reflexivity; intros; congruence. }
  destruct (file_bytes w (path_str cert_der_path)) as [cert_data|].
  2: { repeat split; try reflexivity; intros; congruence. }
  destruct (initramfs_cpio_total init_data cert_data) as [raw Hraw].
  rewrite Hraw. cbn [fst snd].
  split; [reflexivity|].
  split; [discriminate|].
  split; [intros _; discriminate|].
  intros _ _. eexists. reflexivity.
Qed.

(* ------------------------------------------------------------------ *)
(** ** Steps of the image build *)
(* ------------------------------------------------------------------ *)

Lemma build_ext4_image_unfold
  (w : World) (binary_path tmp_dir : Path) (signed : bool)
  (key_path : option Path) (st : St) :
  build_ext4_image w binary_path tmp_dir signed key_path st
  = ext4_unfolded w binary_path tmp_dir signed key_path st.
Proof.
  unfold build_ext4_image, ext4_unfolded, ext4_finish, assert_, mkdtemp,
    subprocess_run, bind, next_fresh, emit, ret, raise.
  cbn [fresh trace].
  fold (ext4_work w tmp_dir st).
  set (work := ext4_work w tmp_dir st).
  fold (ext4_img work). fold (mke2fs_cmd work).
  cbn [andb].
  destruct (proc_returncode (spawn w (mke2fs_cmd work) None) =? 0);
    cbn [negb fresh trace]; [|rewrite <- !app_assoc; reflexivity].
  destruct signed.
  - destruct key_path as [key|]; cbn [fresh trace];
      [|rewrite <- !app_assoc; reflexivity].
    fold (evmctl_cmd key work). fold (sig_path work).
    destruct (path_exists w (path_str (sig_path work)));
      cbn [fresh trace app]; [|rewrite <- !app_assoc; reflexivity].
    fold (debugfs_batch work). fold (debugfs_cmd work).
    unfold signed_batch_text.
    destruct (proc_returncode (spawn w (debugfs_cmd work) None) =? 0);
      cbn [negb]; rewrite <- !app_assoc; reflexivity.
  - cbn [fresh trace].
    fold (debugfs_batch work). fold (debugfs_cmd work).
    unfold unsigned_batch_text.
    destruct (proc_returncode (spawn w (debugfs_cmd work) None) =? 0);
      cbn [negb]; rewrite <- !app_assoc; reflexivity.
Qed.

Lemma run_qemu_unfold (w : World) (kernel : Path) (initramfs_data : bytes)
  (disk : Path) (cmdline_extra : str) (tmp_dir : Path) (timeout : Z) (st : St) :
  run_qemu w kernel initramfs_data disk cmdline_extra tmp_dir timeout st
  = run_qemu_unfolded w kernel initramfs_data disk cmdline_extra tmp_dir
                      timeout st.
Proof.
  unfold run_qemu, run_qemu_unfolded, mkdtemp, subprocess_run, bind,
    next_fresh, emit, ret, raise.
  cbn [fresh trace]. fold (qemu_initrd w tmp_dir st).
  destruct (timeout <? proc_duration
              (spawn w (qemu_cmd kernel (qemu_initrd w tmp_dir st) disk
                                 cmdline_extra) None));
    cbn [andb fresh trace returncode stdout stderr];
    rewrite <- !app_assoc; reflexivity.
Qed.

Ltac cmd_differs H :=
  exfalso; injection H as H; vm_compute in H; discriminate H.

(** X6 -- the unsigned image build.  With [signed=False] the key and the
    signature file play no part: the signer is never run and nothing is
    copied; the batch has the two lines that write the binary and set its
    mode; the image is returned exactly when [mke2fs] and [debugfs] both
    exit with status 0.  The result is the same in any world that has the
    same tools and scratch names. *)
Theorem build_ext4_image_unsigned
  (w : World) (binary_path tmp_dir : Path) (key_path : option Path) (st : St) :
  let work := ext4_work w tmp_dir st in
  let r := build_ext4_image w binary_path tmp_dir false key_path st in
  r = build_ext4_image w binary_path tmp_dir false None st
  /\ (forall w',
        spawn w' = spawn w -> temp_name w' = temp_name w ->
        build_ext4_image w' binary_path tmp_dir false key_path st = r)
  /\ is_ok (fst r)
     = (proc_returncode (spawn w (mke2fs_cmd work) None) =? 0)
       && (proc_returncode (spawn w (debugfs_cmd work) None) =? 0)
  /\ (is_ok (fst r) = true -> fst r = Ok (ext4_img work))
  /\ exists evs,
       trace (snd r) = trace st ++ evs
       /\ (forall key, ~ List.In (EvExec (evmctl_cmd key work) None) evs)
       /\ (forall src dst, ~ List.In (EvCopy src dst) evs)
       /\ (proc_returncode (spawn w (mke2fs_cmd work) None) = 0 ->
           List.In (EvWriteText (path_str (debugfs_batch work))
                                (unsigned_batch_text binary_path)) evs).
Proof.
  intros work r. subst r.
  split; [rewrite !build_ext4_image_unfold; reflexivity|].
  split.
  { intros w' Hs Ht. rewrite !build_ext4_image_unfold.
    unfold ext4_unfolded, ext4_finish, ext4_work. rewrite Hs, Ht. reflexivity. }
  rewrite build_ext4_image_unfold.
  unfold ext4_unfolded, ext4_finish. fold work.
  destruct (proc_returncode (spawn w (mke2fs_cmd work) None) =? 0) eqn:Hmk;
    cbn [negb andb].
  - destruct (proc_returncode (spawn w (debugfs_cmd work) None) =? 0) eqn:Hdb;
      cbn [fst snd is_ok trace];
      (split; [reflexivity|]);
      (split; [intros H; first [reflexivity | discriminate H]|]);
      rewrite <- app_assoc; eexists; (split; [reflexivity|]);
      (split; [intros key H; cbn [List.In app] in H;
               repeat (destruct H as [H|H]; [try discriminate H; cmd_differs H|]);
               exact H|]);
      (split; [intros src dst H; cbn [List.In app] in H;
               repeat (destruct H as [H|H]; [discriminate H|]); exact H|]);
      intros _; cbn [List.In app]; tauto.
  - cbn [fst snd is_ok trace].
    split; [reflexivity|].
    split; [intros H; discriminate H|].
    eexists. split; [reflexivity|].
    split; [intros key H; cbn [List.In] in H;
            repeat (destruct H as [H|H]; [try discriminate H; cmd_differs H|]);
            exact H|].
    split; [intros src dst H; cbn [List.In] in H;
            repeat (destruct H as [H|H]; [discriminate H|]); exact H|].
    apply Z.eqb_neq in Hmk. intros H. contradiction.
Qed.

(** X7 -- the image build stops at the first failing step.  When
    [mke2fs] exits with a non-zero status, or the signed variant is asked
    for without a key, or the signature file is missing after the signer
    ran, the build raises (the error of [mke2fs], resp. an assertion
    error) and neither writes the batch nor runs [debugfs]. *)
Theorem build_ext4_image_stops_early
  (w : World) (binary_path tmp_dir : Path) (signed : bool)
  (key_path : option Path) (st : St) :
  let work := ext4_work w tmp_dir st in
  let mk := spawn w (mke2fs_cmd work) None in
  let r := build_ext4_image w binary_path tmp_dir signed key_path st in
  proc_returncode mk <> 0
  \/ (signed = true /\ key_path = None)
  \/ (signed = true /\ path_exists w (path_str (sig_path work)) = false) ->
  (proc_returncode mk <> 0 ->
   fst r = Raise (CalledProcessError (mke2fs_cmd work) (proc_returncode mk)
                                     (proc_stdout mk) (proc_stderr mk)))
  /\ (proc_returncode mk = 0 -> exists msg, fst r = Raise (AssertionError msg))
  /\ exists evs,
       trace (snd r) = trace st ++ evs
       /\ ~ List.In (EvExec (debugfs_cmd work) None) evs
       /\ (forall p text, ~ List.In (EvWriteText p text) evs).
Proof.
  intros work mk r Hcase. subst r.
  rewrite build_ext4_image_unfold. unfold ext4_unfolded, ext4_finish.
  fold work. fold mk.
  destruct (proc_returncode mk =? 0) eqn:Hmk; cbn [negb].
  - apply Z.eqb_eq in Hmk.
    destruct Hcase as [Hbad|[[-> Hkey]|[-> Hsig]]]; [contradiction| |].
    + subst key_path. cbn [fst snd trace].
      split; [intros H; contradiction|].
      split; [intros _; eexists; reflexivity|].
      eexists. split; [reflexivity|].
      split; [intros H; cbn [List.In] in H;
              repeat (destruct H as [H|H]; [try discriminate H; cmd_differs H|]);
              exact H|].
      intros p text H. cbn [List.In] in H.
      repeat (destruct H as [H|H]; [discriminate H|]). exact H.
    + destruct key_path as [key|].
      * fold work in Hsig. rewrite Hsig. cbn [fst snd trace].
        split; [intros H; contradiction|].
        split; [intros _; eexists; reflexivity|].
        rewrite <- app_assoc. eexists. split; [reflexivity|].
        split; [intros H; cbn [List.In app] in H;
                repeat (destruct H as [H|H]; [try discriminate H; cmd_differs H|]);
                exact H|].
        intros p text H. cbn [List.In app] in H.
        repeat (destruct H as [H|H]; [discriminate H|]). exact H.
      * cbn [fst snd trace].
        split; [intros H; contradiction|].
        split; [intros _; eexists; reflexivity|].
        eexists. split; [reflexivity|].
        split; [intros H; cbn [List.In] in H;
                repeat (destruct H as [H|H]; [try discriminate H; cmd_differs H|]);
                exact H|].
        intros p text H. cbn [List.In] in H.
        repeat (destruct H as [H|H]; [discriminate H|]). exact H.
  - apply Z.eqb_neq in Hmk. cbn [fst snd trace].
    split; [intros _; reflexivity|].
    split; [intros H; contradiction|].
    eexists. split; [reflexivity|].
    split; [intros H; cbn [List.In] in H;
            repeat (destruct H as [H|H]; [try discriminate H; cmd_differs H|]);
            exact H|].
    intros p text H. cbn [List.In] in H.
    repeat (destruct H as [H|H]; [discriminate H|]). exact H.
Qed.

Lemma build_ext4_image_stops_early_witness :
  exists msg,
    fst (build_ext4_image good_world (ima_test_binary sample_fixtures)
           (ima_tmp_dir sample_fixtures) true None st0)
    = Raise (AssertionError msg).
Proof.
  destruct (build_ext4_image_stops_early good_world
              (ima_test_binary sample_fixtures) (ima_tmp_dir sample_fixtures)
              true None st0 (or_intror (or_introl (conj eq_refl eq_refl))))
    as (_ & H & _).
  apply H. reflexivity.
Defined.

(* ------------------------------------------------------------------ *)
(** ** Scratch directories *)
(* ------------------------------------------------------------------ *)

Lemma starts_with_app (p s : str) : starts_with p (p ++ s) = true.
Proof. apply starts_with_spec. exists s. reflexivity. Qed.

Lemma starts_with_self (p : str) : starts_with p p = true.
Proof. apply starts_with_spec. exists []. symmetry. apply app_nil_r. Qed.

Lemma drop_prefix_app (d r : str) : drop_prefix d (d ++ r) = Some r.
Proof.
  induction d as [|c d IH]; cbn [drop_prefix app]; [reflexivity|].
  rewrite N.eqb_refl. exact IH.
Qed.

Lemma entry_of_intro (d n : str) :
  plain_name n = true -> entry_of d (d ++ lit "/" ++ n) = true.
Proof.
  intros Hn. unfold entry_of. rewrite app_assoc, drop_prefix_app. exact Hn.
Qed.

(** An entry of [d] is [d], a slash and one component that is not [..]. *)
Lemma entry_of_spec (d p : str) :
  entry_of d p = true <->
  exists n, p = d ++ lit "/" ++ n /\ plain_name n = true.
Proof.
  unfold entry_of. split.
  - destruct (drop_prefix (d ++ lit "/") p) as [n|] eqn:E; [|discriminate].
    intros Hn. exists n. split; [|exact Hn].
    rewrite app_assoc. revert p E.
    induction (d ++ lit "/") as [|c l IH]; intros p E.
    + cbn [drop_prefix] in E. injection E as ->. reflexivity.
    + destruct p as [|b p]; cbn [drop_prefix] in E; [discriminate|].
      destruct (N.eqb_spec c b) as [->|]; [|discriminate].
      cbn [app]. f_equal. apply IH, E.
  - intros (n & -> & Hn). rewrite app_assoc, drop_prefix_app. exact Hn.
Qed.

Ltac within_tac :=
  unfold writes_within;
  repeat (apply Forall_cons;
          [cbn [event_target]; unfold debugfs_batch, qemu_initrd, path_join;
           cbn [path_str];
           first [exact I | apply entry_of_intro; reflexivity]|]);
  apply Forall_nil.

(** X8 -- scratch isolation.  [build_ext4_image] first makes its scratch
    directory, the one [mkdtemp] names; whatever the variant and the
    outcome, every directory it makes and every file it writes or copies
    afterwards is an entry of that directory itself: the scratch path, a
    slash and one plain name (no slash, neither [.] nor [..]).  The same
    holds for [run_qemu]. *)
Theorem harness_writes_within_scratch
  (w : World) (binary_path tmp_dir : Path) (signed : bool)
  (key_path : option Path) (kernel disk : Path) (initramfs_data : bytes)
  (cmdline_extra : str) (timeout : Z) (st : St) :
  let scratch := temp_name w (path_str tmp_dir) (fresh st) in
  (exists evs,
      trace (snd (build_ext4_image w binary_path tmp_dir signed key_path st))
      = trace st ++ EvMkdir scratch :: evs
      /\ writes_within scratch evs)
  /\ (exists evs,
         trace (snd (run_qemu w kernel initramfs_data disk cmdline_extra
                              tmp_dir timeout st))
         = trace st ++ EvMkdir scratch :: evs
         /\ writes_within scratch evs).
Proof.
  intros scratch. split.
  - rewrite build_ext4_image_unfold. unfold ext4_unfolded, ext4_finish.
    unfold ext4_work. fold scratch.
    set (work := mkPath scratch).
    destruct (proc_returncode (spawn w (mke2fs_cmd work) None) =? 0);
      cbn [negb].
    + destruct signed.
      * destruct key_path as [key|].
        -- destruct (path_exists w (path_str (sig_path work))).
           ++ destruct (proc_returncode (spawn w (debugfs_cmd work) None) =? 0);
                cbn [snd trace]; rewrite <- !app_assoc; cbn [app];
                eexists; (split; [reflexivity|]); subst work; within_tac.
           ++ cbn [snd trace]. rewrite <- !app_assoc. cbn [app]. eexists.
              split; [reflexivity|]. subst work. within_tac.
        -- cbn [snd trace app]. eexists. split; [reflexivity|].
           subst work. within_tac.
      * destruct (proc_returncode (spawn w (debugfs_cmd work) None) =? 0);
          cbn [snd trace]; rewrite <- !app_assoc; cbn [app]; eexists;
          (split; [reflexivity|]); subst work; within_tac.
    + cbn [snd trace app]. eexists. split; [reflexivity|].
      subst work. within_tac.
  - rewrite run_qemu_unfold. unfold run_qemu_unfolded.
    destruct (timeout <? _); cbn [snd trace]; rewrite <- ?app_assoc;
      cbn [app]; eexists; (split; [reflexivity|]); within_tac.
Qed.

(* ------------------------------------------------------------------ *)
(** ** The boot and the exit status of the emulator *)
(* ------------------------------------------------------------------ *)

(** X9 -- the exit status of the emulator is not checked.  When the
    emulator exits within the timeout, [run_qemu] returns its standard
    output followed by its standard error, whatever its exit status, and
    kills nothing. *)
Theorem run_qemu_returns_output
  (w : World) (kernel : Path) (initramfs_data : bytes) (disk : Path)
  (cmdline_extra : str) (tmp_dir : Path) (timeout : Z) (st : St) :
  let cmd := qemu_cmd kernel (qemu_initrd w tmp_dir st) disk cmdline_extra in
  let p := spawn w cmd None in
  let r := run_qemu w kernel initramfs_data disk cmdline_extra tmp_dir
                    timeout st in
  proc_duration p <= timeout ->
  fst r = Ok (proc_stdout p ++ proc_stderr p)
  /\ exists evs,
       trace (snd r) = trace st ++ evs
       /\ (forall c, ~ List.In (EvKill c) evs)
       /\ List.In (EvWriteBytes (path_str (qemu_initrd w tmp_dir st))
                                initramfs_data) evs.
Proof.
  intros cmd p r Hin. subst r. rewrite run_qemu_unfold.
  unfold run_qemu_unfolded. fold cmd. fold p.
  replace (timeout <? proc_duration p) with false
    by (symmetry; apply Z.ltb_ge; exact Hin).
  cbn [fst snd trace].
  split; [reflexivity|].
  eexists. split; [reflexivity|].
  split.
  - intros c H. cbn [List.In] in H.
    repeat (destruct H as [H|H]; [discriminate H|]). exact H.
  - right. left. reflexivity.
Qed.

Lemma run_qemu_returns_output_witness :
  fst (run_qemu (sample_world (quick 3 (lit "panic")) (quick 0 []) (quick 0 []) true)
                (ima_kernel sample_fixtures) [x1f; x8b]
                (mkPath (lit "/t/tmp0/disk.img"))
                (scenario_cmdline EnforceSigned)
                (ima_tmp_dir sample_fixtures) 30 st0)
  = Ok (lit "panic").
Proof.
  apply (run_qemu_returns_output
           (sample_world (quick 3 (lit "panic")) (quick 0 []) (quick 0 []) true)
           (ima_kernel sample_fixtures) [x1f; x8b]
           (mkPath (lit "/t/tmp0/disk.img"))
           (scenario_cmdline EnforceSigned) (ima_tmp_dir sample_fixtures)
           30 st0).
  vm_compute. discriminate.
Defined.

(* ------------------------------------------------------------------ *)
(** ** Outcomes of the build helper *)
(* ------------------------------------------------------------------ *)

Lemma _buck2_build_unfold (w : World) (repo_root : Path) (target : str)
  (timeout : Z) (st : St) :
  _buck2_build w repo_root target timeout st
  = buck2_unfolded w repo_root target timeout st.
Proof.
  unfold _buck2_build, buck2_unfolded.
  destruct (which w (lit "buck2")); [|reflexivity].
  unfold subprocess_run, assert_, bind, next_fresh, emit, ret, raise.
  cbn [fresh trace]. fold (buck2_cmd w target st).
  destruct (timeout <? proc_duration _);
    [cbn [fresh trace]; rewrite <- app_assoc; reflexivity|].
  cbn [andb returncode stdout stderr].
  destruct (proc_returncode _ =? 0); [|reflexivity].
  destruct (first_output_path _); reflexivity.
Qed.

(** [split(None, 1)] gives two parts exactly for a line of at least two
    tokens. *)
Lemma split_max1_parts (line : str) :
  List.length (split_max1 line) = Nat.min 2 (List.length (split_ws line)).
Proof.
  destruct (split_max1 line) as [|a [|b [|c l]]] eqn:E.
  - unfold split_max1 in E.
    destruct (drop_ws line) as [|c s'] eqn:Hd.
    + rewrite <- split_ws_drop, Hd. reflexivity.
    + destruct (span_token (c :: s')) as [t r].
      destruct (drop_ws r); discriminate E.
  - unfold split_max1 in E.
    destruct (drop_ws line) as [|c s'] eqn:Hd; [discriminate E|].
    pose proof (split_ws_cons (c :: s') c s' eq_refl (drop_ws_head _ _ _ Hd)) as H.
    destruct (span_token (c :: s')) as [t r]. cbn [fst snd] in H.
    destruct (drop_ws r) as [|c2 r2] eqn:Hr; [|discriminate E].
    rewrite <- split_ws_drop, Hd, H, <- (split_ws_drop r), Hr. reflexivity.
  - destruct (split_max1_two _ _ _ E) as (H & Hne & _).
    rewrite H. destruct (split_ws b); [contradiction|]. reflexivity.
  - exfalso. unfold split_max1 in E.
    destruct (drop_ws line) as [|c0 s']; [discriminate E|].
    destruct (span_token (c0 :: s')) as [t r].
    destruct (drop_ws r); discriminate E.
Qed.

Lemma first_output_path_none (lines : list str) :
  first_output_path lines = None <-> Forall few_tokens lines.
Proof.
  induction lines as [|line rest IH]; cbn [first_output_path].
  - split; [constructor | reflexivity].
  - pose proof (split_max1_parts line) as Hp.
    destruct (split_max1 line) as [|a [|b [|c l]]] eqn:E; cbn [List.length] in Hp.
    + rewrite IH. split.
      * intros H. constructor; [unfold few_tokens; lia | exact H].
      * intros H. inversion H; assumption.
    + rewrite IH. split.
      * intros H. constructor; [unfold few_tokens; lia | exact H].
      * intros H. inversion H; assumption.
    + split; [discriminate|].
      intros H. inversion H as [|? ? Hf _]. unfold few_tokens in Hf. lia.
    + exfalso. lia.
Qed.

(** X10 -- outcomes of [_buck2_build].  Without buck2 on the path the
    helper raises the skip and does nothing else: no name is drawn, no
    command is run.  Otherwise it runs exactly one command; a run that
    outlives the timeout is killed and its [TimeoutExpired] raised; a
    non-zero exit status gives an assertion error whose message ends with
    the captured standard error, and the standard output is not looked
    at. *)
Theorem buck2_build_errors
  (w : World) (repo_root : Path) (target : str) (timeout : Z) (st : St) :
  let cmd := buck2_cmd w target st in
  let cwd := Some (path_str repo_root) in
  let p := spawn w cmd cwd in
  let r := _buck2_build w repo_root target timeout st in
  (which w (lit "buck2") = None ->
   r = (Raise (Skipped (lit "buck2 not found on PATH")), st))
  /\ (which w (lit "buck2") <> None ->
      (timeout < proc_duration p ->
       fst r = Raise (TimeoutExpired cmd timeout
                        (fst (proc_captured p timeout))
                        (snd (proc_captured p timeout)))
       /\ trace (snd r) = trace st ++ [EvExec cmd cwd; EvKill cmd])
      /\ (proc_duration p <= timeout ->
          trace (snd r) = trace st ++ [EvExec cmd cwd]
          /\ (proc_returncode p <> 0 ->
              fst r = Raise (AssertionError
                               (lit "buck2 build failed for " ++ target
                                ++ lit ":" ++ newline ++ proc_stderr p))))).
Proof.
  intros cmd cwd p r. subst r. rewrite _buck2_build_unfold.
  unfold buck2_unfolded. fold cmd. fold cwd. fold p.
  destruct (which w (lit "buck2")) as [tool|].
  - split; [discriminate|]. intros _. split.
    + intros Hlate. apply Z.ltb_lt in Hlate. rewrite Hlate.
      split; reflexivity.
    + intros Hin. apply Z.ltb_ge in Hin. rewrite Hin.
      destruct (proc_returncode p =? 0) eqn:Hrc.
      * apply Z.eqb_eq in Hrc.
        destruct (first_output_path _);
          (split; [reflexivity | intros H; contradiction]).
      * split; reflexivity.
  - split; [reflexivity | intros H; contradiction].
Qed.

(** X11 -- unparsable output.  After a build that exited with status 0 in
    time, the helper fails with [pytest.fail] exactly when no line of the
    stripped standard output has two white-space separated tokens (an
    empty output is one such case); the message then carries the whole
    standard output.  Otherwise it returns a path. *)
Theorem buck2_build_unparsable
  (w : World) (repo_root : Path) (target : str) (timeout : Z) (st : St) :
  let p := spawn w (buck2_cmd w target st) (Some (path_str repo_root)) in
  let r := _buck2_build w repo_root target timeout st in
  which w (lit "buck2") <> None ->
  proc_duration p <= timeout ->
  proc_returncode p = 0 ->
  (Forall few_tokens (splitlines (strip (proc_stdout p))) ->
   fst r = Raise (Failed (lit "Could not parse output path from: "
                          ++ proc_stdout p)))
  /\ (~ Forall few_tokens (splitlines (strip (proc_stdout p))) ->
      exists out, fst r = Ok out)
  /\ (proc_stdout p = [] ->
      fst r = Raise (Failed (lit "Could not parse output path from: "))).
Proof.
  intros p r Hw Hin Hrc. subst r. rewrite _buck2_build_unfold.
  unfold buck2_unfolded. fold p.
  destruct (which w (lit "buck2")) as [tool|]; [|contradiction].
  apply Z.ltb_ge in Hin. rewrite Hin, Hrc. cbn [Z.eqb].
  destruct (first_output_path (splitlines (strip (proc_stdout p)))) as [out|] eqn:E.
  - assert (Hn : ~ Forall few_tokens (splitlines (strip (proc_stdout p)))).
    { intros H. apply first_output_path_none in H. congruence. }
    split; [intros H; contradiction|].
    split; [intros _; exists out; reflexivity|].
    intros Hs. rewrite Hs in E. discriminate E.
  - apply first_output_path_none in E.
    split; [intros _; reflexivity|].
    split; [intros H; contradiction|].
    intros Hs. rewrite Hs, app_nil_r. reflexivity.
Qed.

Lemma buck2_build_unparsable_witness :
  fst (_buck2_build (sample_world good_qemu (quick 0 [])
                       (quick 0 (lit "BUILD-SUCCEEDED" ++ newline)) true)
                    (mkPath (lit "/repo")) (lit "//t:x") 600 st0)
  = Raise (Failed (lit "Could not parse output path from: "
                   ++ lit "BUILD-SUCCEEDED" ++ newline)).
Proof.
  apply (buck2_build_unparsable
           (sample_world good_qemu (quick 0 [])
              (quick 0 (lit "BUILD-SUCCEEDED" ++ newline)) true)
           (mkPath (lit "/repo")) (lit "//t:x") 600 st0).
  - discriminate.
  - vm_compute. discriminate.
  - reflexivity.
  - vm_compute. repeat constructor.
Defined.

(* ------------------------------------------------------------------ *)
(** ** Shape of the returned path *)
(* ------------------------------------------------------------------ *)

Lemma splitlines_aux_no_linebreak (n : nat) :
  forall s cur,
    (List.length s <= n)%nat -> no_linebreak cur ->
    Forall no_linebreak (splitlines_aux cur s).
Proof.
  induction n as [|n IH]; intros s cur Hlen Hcur.
  - destruct s; [|simpl in Hlen; lia]. simpl.
    destruct cur; constructor; [|constructor].
    apply Forall_rev. exact Hcur.
  - destruct s as [|c s']; cbn [splitlines_aux].
    + destruct cur; constructor; [|constructor].
      apply Forall_rev. exact Hcur.
    + cbn [List.length] in Hlen.
      destruct (is_linebreak c) eqn:Hc.
      * destruct s' as [|c2 s''].
        -- constructor; [apply Forall_rev; exact Hcur|].
           apply IH; [simpl; lia | constructor].
        -- cbn [List.length] in Hlen.
           destruct ((c =? 13)%N && (c2 =? 10)%N);
             (constructor; [apply Forall_rev; exact Hcur|]);
             apply IH; try constructor; cbn [List.length]; lia.
      * apply IH; [lia|]. constructor; assumption.
Qed.

Lemma splitlines_no_linebreak (s : str) : Forall no_linebreak (splitlines s).
Proof.
  apply (splitlines_aux_no_linebreak (List.length s)); [lia | constructor].
Qed.

Lemma drop_ws_forall (P : N -> Prop) (s : str) :
  Forall P s -> Forall P (drop_ws s).
Proof.
  induction 1 as [|c s Hc Hs IH]; simpl; [constructor|].
  destruct (is_space c); [exact IH | constructor; assumption].
Qed.

Lemma span_token_rest_forall (P : N -> Prop) (s : str) :
  Forall P s -> Forall P (snd (span_token s)).
Proof.
  induction 1 as [|c s Hc Hs IH]; simpl; [constructor|].
  destruct (is_space c); [constructor; assumption|].
  destruct (span_token s). exact IH.
Qed.

(** X12 -- shape of the returned path.  A path returned by
    [_buck2_build] is never empty, holds no line boundary, and is written
    as [pathlib] writes it: building a path from its string gives the
    same path again.  It holds white space exactly when the rest of its
    output line does. *)
Theorem buck2_build_path_shape
  (w : World) (repo_root : Path) (target : str) (timeout : Z)
  (st st' : St) (p : Path) :
  _buck2_build w repo_root target timeout st = (Ok p, st') ->
  path_str p <> []
  /\ no_linebreak (path_str p)
  /\ Path_of (path_str p) = p
  /\ exists line tok rest,
       List.In line (splitlines (strip (proc_stdout
                       (spawn w (buck2_cmd w target st)
                              (Some (path_str repo_root))))))
       /\ split_max1 line = [tok; rest]
       /\ p = Path_of rest
       /\ (no_space (path_str p) <-> no_space rest).
Proof.
  rewrite _buck2_build_unfold. unfold buck2_unfolded.
  destruct (which w (lit "buck2")); [|discriminate].
  destruct (timeout <? _); [discriminate|].
  destruct (proc_returncode _ =? 0); [|discriminate].
  destruct (first_output_path _) as [q|] eqn:Hq; [|discriminate].
  intros H. apply (f_equal fst) in H. cbn [fst] in H. apply Ok_inj in H.
  subst q.
  destruct (first_output_path_spec _ _ Hq)
    as (pre & line & post & tok & rest & Hl & _ & Hs & Hp).
  destruct (split_max1_two _ _ _ Hs) as (_ & _ & Hrest).
  assert (Hline : no_linebreak line).
  { pose proof (splitlines_no_linebreak
                  (strip (proc_stdout
                            (spawn w (buck2_cmd w target st)
                                   (Some (path_str repo_root)))))) as Hall.
    rewrite Hl in Hall. apply Forall_app in Hall. destruct Hall as [_ Hall].
    inversion Hall; assumption. }
  assert (Hnl : no_linebreak rest).
  { rewrite Hrest.
    apply drop_ws_forall, span_token_rest_forall, drop_ws_forall.
    exact Hline. }
  subst p. unfold Path_of. cbn [path_str].
  split; [apply posix_str_nonempty|].
  split; [apply posix_str_Forall; [reflexivity | reflexivity | exact Hnl]|].
  split; [rewrite posix_str_idem; reflexivity|].
  exists line, tok, rest.
  split; [rewrite Hl; apply in_or_app; right; left; reflexivity|].
  split; [exact Hs|].
  split; [reflexivity|].
  split; [apply posix_str_space | apply posix_str_no_space].
Qed.

Lemma buck2_build_path_shape_witness :
  no_linebreak (lit "/tmp/out")
  /\ Path_of (lit "/tmp/out") = mkPath (lit "/tmp/out").
Proof.
  assert (Hrun : _buck2_build good_buck2_world (mkPath (lit "/repo"))
                   (lit "//t:x") 600 st0
                 = (Ok (mkPath (lit "/tmp/out")),
                    mkSt 1 [EvExec (buck2_cmd good_buck2_world (lit "//t:x") st0)
                                   (Some (lit "/repo"))]))
    by (vm_compute; reflexivity).
  destruct (buck2_build_path_shape _ _ _ _ _ _ _ Hrun) as (_ & H1 & H2 & _).
  split; [exact H1 | exact H2].
Defined.

(* ------------------------------------------------------------------ *)
(** ** Session teardown *)
(* ------------------------------------------------------------------ *)

Lemma cleanup_loop_removed (w : World) (dv : DirView) (repo_root buck_out : Path)
  (names : list str) :
  forall ts, exists gone,
    removed (snd (cleanup_loop w dv repo_root buck_out names ts))
    = removed ts ++ List.map (fun n => path_str (path_join buck_out n)) gone
    /\ (forall n, List.In n gone ->
                  List.In n names /\ is_ima_dir dv buck_out n = true).
Proof.
  induction names as [|name rest IH]; intros ts; cbn [cleanup_loop].
  - exists []. split; [symmetry; apply app_nil_r | intros n []].
  - destruct (is_ima_dir dv buck_out name) eqn:Hsel.
    + destruct (subprocess_run w (kill_cmd name) (Some (path_str repo_root))
                               false (Some 30) (tear_st ts)) as [[c|e] st'].
      * destruct (IH (mkTear st' (removed ts
                                  ++ [path_str (path_join buck_out name)])))
          as (gone & Hg & Hin).
        exists (name :: gone). split.
        -- rewrite Hg. cbn [removed List.map]. rewrite <- app_assoc. reflexivity.
        -- intros n [<-|Hn]; [split; [left; reflexivity | exact Hsel]|].
           destruct (Hin n Hn). split; [right|]; assumption.
      * exists []. split; [symmetry; apply app_nil_r | intros n []].
    + destruct (IH ts) as (gone & Hg & Hin). exists gone.
      split; [exact Hg|].
      intros n Hn. destruct (Hin n Hn). split; [right|]; assumption.
Qed.

Lemma kill_in_time (w : World) (name cwd : str) (st : St) :
  proc_duration (spawn w (kill_cmd name) (Some cwd)) <= 30 ->
  exists c,
    subprocess_run w (kill_cmd name) (Some cwd) false (Some 30) st
    = (Ok c, mkSt (fresh st) (trace st ++ [EvExec (kill_cmd name) (Some cwd)])).
Proof.
  intros H. unfold subprocess_run, bind, emit, ret, raise.
  replace (30 <? proc_duration (spawn w (kill_cmd name) (Some cwd)))
    with false by (symmetry; apply Z.ltb_ge; exact H).
  cbn [andb fresh trace]. eexists. reflexivity.
Qed.

Lemma kill_late (w : World) (name cwd : str) (st : St) :
  30 < proc_duration (spawn w (kill_cmd name) (Some cwd)) ->
  exists e st',
    subprocess_run w (kill_cmd name) (Some cwd) false (Some 30) st
    = (Raise e, st').
Proof.
  intros H. unfold subprocess_run, bind, emit, ret, raise.
  replace (30 <? proc_duration (spawn w (kill_cmd name) (Some cwd)))
    with true by (symmetry; apply Z.ltb_lt; exact H).
  cbn [fresh trace]. eexists _, _. reflexivity.
Qed.

Lemma cleanup_loop_complete (w : World) (dv : DirView) (repo_root buck_out : Path)
  (names : list str) :
  (forall n, List.In n names -> is_ima_dir dv buck_out n = true ->
             proc_duration (spawn w (kill_cmd n) (Some (path_str repo_root)))
             <= 30) ->
  forall ts,
    let r := cleanup_loop w dv repo_root buck_out names ts in
    fst r = Ok tt
    /\ removed (snd r)
       = removed ts
         ++ List.map (fun n => path_str (path_join buck_out n))
                     (List.filter (is_ima_dir dv buck_out) names)
    /\ trace (tear_st (snd r))
       = trace (tear_st ts)
         ++ List.map (fun n => EvExec (kill_cmd n) (Some (path_str repo_root)))
                     (List.filter (is_ima_dir dv buck_out) names).
Proof.
  induction names as [|name rest IH]; intros Hin ts; cbn [cleanup_loop List.filter].
  - cbn. rewrite !app_nil_r. repeat split; reflexivity.
  - destruct (is_ima_dir dv buck_out name) eqn:Hsel.
    + destruct (kill_in_time w name (path_str repo_root) (tear_st ts)
                  (Hin name (or_introl eq_refl) Hsel)) as [c Hc].
      rewrite Hc.
      destruct (IH (fun n Hn => Hin n (or_intror Hn))
                   (mkTear (mkSt (fresh (tear_st ts))
                                 (trace (tear_st ts)
                                  ++ [EvExec (kill_cmd name)
                                             (Some (path_str repo_root))]))
                           (removed ts
                            ++ [path_str (path_join buck_out name)])))
        as (H1 & H2 & H3).
      cbv zeta in H1, H2, H3.
      split; [exact H1|]. split.
      * rewrite H2. cbn [removed List.map]. rewrite <- app_assoc. reflexivity.
      * rewrite H3. cbn [tear_st trace List.map]. rewrite <- app_assoc.
        reflexivity.
    + apply IH. intros n Hn. apply Hin. right. exact Hn.
Qed.

(** A teardown that ends well has seen every kill return in time. *)
Lemma cleanup_loop_ok (w : World) (dv : DirView) (repo_root buck_out : Path)
  (names : list str) :
  forall ts,
    fst (cleanup_loop w dv repo_root buck_out names ts) = Ok tt ->
    forall n, List.In n names -> is_ima_dir dv buck_out n = true ->
              proc_duration (spawn w (kill_cmd n) (Some (path_str repo_root)))
              <= 30.
Proof.
  induction names as [|name rest IH]; intros ts Hok n Hn Hsel; [destruct Hn|].
  cbn [cleanup_loop] in Hok.
  destruct (is_ima_dir dv buck_out name) eqn:Hname.
  - destruct (Z.le_gt_cases
                (proc_duration (spawn w (kill_cmd name)
                                      (Some (path_str repo_root)))) 30)
      as [Hfast|Hslow].
    + destruct Hn as [<-|Hn]; [exact Hfast|].
      destruct (kill_in_time w name (path_str repo_root) (tear_st ts) Hfast)
        as [c Hc].
      rewrite Hc in Hok. exact (IH _ Hok n Hn Hsel).
    + destruct (kill_late w name (path_str repo_root) (tear_st ts) Hslow)
        as (e & st' & He).
      rewrite He in Hok. discriminate Hok.
  - destruct Hn as [<-|Hn]; [congruence|]. exact (IH _ Hok n Hn Hsel).
Qed.

(** X13 -- the teardown removes isolation directories only.  Whatever
    happens (a kill that hangs ends the loop with its [TimeoutExpired]),
    every tree removed is a directory listed in buck-out whose name starts
    with [ima-]; without a buck-out directory nothing is run or removed.
    With a buck-out directory, the teardown ends well exactly when the
    kill of every selected directory returns within its 30 seconds,
    whatever the exit statuses; it has then killed and removed every
    selected directory, in listing order.  The entries that are not
    selected play no part. *)
Theorem cleanup_removes_ima_dirs_only
  (w : World) (dv : DirView) (repo_root : Path) (ts : TearSt) :
  let buck_out := path_join repo_root (lit "buck-out") in
  let listing := iterdir dv (path_str buck_out) in
  let r := _cleanup_ima_isolation_dirs w dv repo_root ts in
  (exists gone,
      removed (snd r)
      = removed ts ++ List.map (fun n => path_str (path_join buck_out n)) gone
      /\ forall n, List.In n gone ->
                   List.In n listing
                   /\ is_dir dv (path_str (path_join buck_out n)) = true
                   /\ starts_with (lit "ima-") n = true)
  /\ (path_exists w (path_str buck_out) = false -> r = (Ok tt, ts))
  /\ (path_exists w (path_str buck_out) = true ->
      (fst r = Ok tt <->
       forall n, List.In n listing -> is_ima_dir dv buck_out n = true ->
                 proc_duration (spawn w (kill_cmd n) (Some (path_str repo_root)))
                 <= 30)
      /\ (fst r = Ok tt ->
          removed (snd r)
          = removed ts
            ++ List.map (fun n => path_str (path_join buck_out n))
                        (List.filter (is_ima_dir dv buck_out) listing)
          /\ trace (tear_st (snd r))
             = trace (tear_st ts)
               ++ List.map (fun n => EvExec (kill_cmd n)
                                            (Some (path_str repo_root)))
                           (List.filter (is_ima_dir dv buck_out) listing))).
Proof.
  intros buck_out listing r. subst r. unfold _cleanup_ima_isolation_dirs.
  fold buck_out. fold listing.
  destruct (path_exists w (path_str buck_out)).
  - split.
    + destruct (cleanup_loop_removed w dv repo_root buck_out listing ts)
        as (gone & Hg & Hin).
      exists gone. split; [exact Hg|].
      intros n Hn. destruct (Hin n Hn) as [Hl Hsel].
      unfold is_ima_dir in Hsel. apply andb_true_iff in Hsel.
      destruct Hsel. repeat split; assumption.
    + split; [discriminate|]. intros _. split.
      * split.
        -- intros Hok. exact (cleanup_loop_ok w dv repo_root buck_out listing ts Hok).
        -- intros Hfast.
           apply (cleanup_loop_complete w dv repo_root buck_out listing Hfast ts).
      * intros Hok.
        apply (cleanup_loop_complete w dv repo_root buck_out listing
                 (cleanup_loop_ok w dv repo_root buck_out listing ts Hok) ts).
  - split.
    + exists []. split; [symmetry; apply app_nil_r | intros n []].
    + split; [reflexivity | discriminate].
Qed.

(** X14 -- the teardown finds what the build helper made.  When buck2 is
    on the path, [_buck2_build] runs it first thing with
    [--isolation-dir] and a name; once buck2 has made a directory of that
    name in buck-out, a teardown whose kills of the selected directories
    return in time kills the daemon of that name and removes the
    directory. *)
Theorem cleanup_covers_build_isolation
  (w : World) (dv : DirView) (repo_root : Path) (target : str) (timeout : Z)
  (st : St) (ts : TearSt) :
  let buck_out := path_join repo_root (lit "buck-out") in
  let listing := iterdir dv (path_str buck_out) in
  which w (lit "buck2") <> None ->
  exists iso args evs,
    trace (snd (_buck2_build w repo_root target timeout st))
    = trace st
      ++ EvExec (lit "buck2" :: lit "--isolation-dir" :: iso :: args)
                (Some (path_str repo_root)) :: evs
    /\ (path_exists w (path_str buck_out) = true ->
        List.In iso listing ->
        is_dir dv (path_str (path_join buck_out iso)) = true ->
        (forall n, List.In n listing -> is_ima_dir dv buck_out n = true ->
                   proc_duration (spawn w (kill_cmd n)
                                        (Some (path_str repo_root))) <= 30) ->
        let r := _cleanup_ima_isolation_dirs w dv repo_root ts in
        fst r = Ok tt
        /\ List.In (EvExec (kill_cmd iso) (Some (path_str repo_root)))
                   (trace (tear_st (snd r)))
        /\ List.In (path_str (path_join buck_out iso)) (removed (snd r))).
Proof.
  intros buck_out listing Hwhich.
  exists (buck2_iso_name w st),
         [lit "build"; lit "--show-full-output";
          lit "-c"; lit "buckos.use_host_toolchain=true"; target].
  assert (Htrace : exists evs,
            trace (snd (_buck2_build w repo_root target timeout st))
            = trace st
              ++ EvExec (buck2_cmd w target st) (Some (path_str repo_root))
                 :: evs).
  { rewrite _buck2_build_unfold. unfold buck2_unfolded.
    destruct (which w (lit "buck2")); [|contradiction].
    destruct (timeout <? _).
    - cbn [snd trace]. eexists. reflexivity.
    - destruct (proc_returncode _ =? 0).
      + destruct (first_output_path _); cbn [snd trace]; eexists; reflexivity.
      + cbn [snd trace]. eexists. reflexivity. }
  destruct Htrace as [evs Hevs]. exists evs.
  split; [exact Hevs|].
  intros Hex Hin Hdir Hfast r. subst r.
  assert (Hsel : is_ima_dir dv buck_out (buck2_iso_name w st) = true).
  { unfold is_ima_dir. rewrite Hdir. unfold buck2_iso_name.
    rewrite starts_with_app. reflexivity. }
  unfold _cleanup_ima_isolation_dirs. fold buck_out. fold listing.
  rewrite Hex.
  destruct (cleanup_loop_complete w dv repo_root buck_out listing Hfast ts)
    as (Hok & Hrem & Htr).
  split; [exact Hok|]. split.
  - rewrite Htr. apply in_or_app. right.
    apply (in_map (fun n => EvExec (kill_cmd n) (Some (path_str repo_root)))).
    apply filter_In. split; assumption.
  - rewrite Hrem. apply in_or_app. right.
    apply (in_map (fun n => path_str (path_join buck_out n))).
    apply filter_In. split; assumption.
Qed.

Lemma cleanup_covers_build_isolation_witness :
  List.In (lit "/repo/buck-out/ima-0123456789ab")
          (removed (snd (_cleanup_ima_isolation_dirs good_buck2_world
                           sample_dirs (mkPath (lit "/repo"))
                           (mkTear st0 [])))).
Proof.
  assert (Hw : which good_buck2_world (lit "buck2") <> None) by discriminate.
  destruct (cleanup_covers_build_isolation good_buck2_world sample_dirs
              (mkPath (lit "/repo")) (lit "//t:x") 600 st0 (mkTear st0 []) Hw)
    as (iso & args & evs & Htr & Hclean).
  assert (Hiso : iso = lit "ima-0123456789ab").
  { vm_compute in Htr. injection Htr as Hi _ _. symmetry. exact Hi. }
  subst iso.
  apply Hclean.
  - reflexivity.
  - right. left. reflexivity.
  - reflexivity.
  - intros n _ _. vm_compute. discriminate.
Defined.

(* ------------------------------------------------------------------ *)
(** ** The ISO boot check *)
(* ------------------------------------------------------------------ *)

Lemma str_eqb_eq (a b : str) : str_eqb a b = true <-> a = b.
Proof.
  revert b. induction a as [|x a IH]; intros [|y b]; simpl;
    try (split; [discriminate | intros H; discriminate H]);
    try (split; reflexivity).
  rewrite andb_true_iff, N.eqb_eq, IH. split.
  - intros [-> ->]. reflexivity.
  - intros [= -> ->]. split; reflexivity.
Qed.

Lemma existsb_str_eqb (name : str) (l : list str) :
  List.existsb (str_eqb name) l = true <-> List.In name l.
Proof.
  rewrite existsb_exists. split.
  - intros (x & Hx & E). apply str_eqb_eq in E. subst x. exact Hx.
  - intros H. exists name. split; [exact H | apply str_eqb_eq; reflexivity].
Qed.

Lemma find_in_walk_none (name : str) (triples : list (str * list str * list str)) :
  find_in_walk name triples = None
  <-> Forall (fun t => ~ List.In name (files_of t)) triples.
Proof.
  induction triples as [|[[d ds] fs] rest IH]; cbn [find_in_walk].
  - split; [constructor | reflexivity].
  - destruct (List.existsb (str_eqb name) fs) eqn:E.
    + apply existsb_str_eqb in E. split; [discriminate|].
      intros H. inversion H as [|? ? Hn _]. contradiction.
    + rewrite IH. split.
      * intros H. constructor; [|exact H].
        intros Hin. apply existsb_str_eqb in Hin.
        unfold files_of in Hin. cbn [snd] in Hin. congruence.
      * intros H. inversion H; assumption.
Qed.

Lemma find_in_walk_some (name : str) (triples : list (str * list str * list str))
  (p : str) :
  find_in_walk name triples = Some p ->
  exists pre t post,
    triples = pre ++ t :: post
    /\ Forall (fun t' => ~ List.In name (files_of t')) pre
    /\ List.In name (files_of t)
    /\ p = os_path_join (dir_of t) name.
Proof.
  induction triples as [|[[d ds] fs] rest IH]; cbn [find_in_walk];
    [discriminate|].
  destruct (List.existsb (str_eqb name) fs) eqn:E.
  - intros [= <-]. apply existsb_str_eqb in E.
    exists [], (d, ds, fs), rest. repeat split; [constructor | exact E].
  - intros H. destruct (IH H) as (pre & t & post & -> & Hpre & Hin & Hp).
    exists ((d, ds, fs) :: pre), t, post.
    split; [reflexivity|]. split; [|split; assumption].
    constructor; [|exact Hpre].
    intros Hin'. apply existsb_str_eqb in Hin'.
    unfold files_of in Hin'. cbn [snd] in Hin'. congruence.
Qed.

(** X15 -- [find_file].  A base that is a file is returned as it is,
    whatever the name asked for.  Otherwise the result is the name joined
    to the first walked directory that lists it, and there is no result
    exactly when no walked directory lists it. *)
Theorem find_file_first_match (h : IsoHost) (base name : str) :
  (isfile h base = true -> find_file h base name = Some base)
  /\ (isfile h base = false ->
      (find_file h base name = None
       <-> Forall (fun t => ~ List.In name (files_of t)) (walk h base))
      /\ (forall p,
            find_file h base name = Some p ->
            exists pre t post,
              walk h base = pre ++ t :: post
              /\ Forall (fun t' => ~ List.In name (files_of t')) pre
              /\ List.In name (files_of t)
              /\ p = os_path_join (dir_of t) name)).
Proof.
  unfold find_file. split; intros Hf; rewrite Hf; [reflexivity|].
  split; [apply find_in_walk_none | apply find_in_walk_some].
Qed.

Lemma iso_boot_output_unfold (w : World) (qemu_bin iso_file : str) (st : St) :
  let cmd := iso_qemu_cmd qemu_bin iso_file in
  let p := spawn w cmd None in
  iso_boot_output w qemu_bin iso_file st
  = if 60 <? proc_duration p
    then (Ok [], mkSt (fresh st) (trace st ++ [EvExec cmd None; EvKill cmd]))
    else (Ok (proc_stdout p ++ proc_stderr p),
          mkSt (fresh st) (trace st ++ [EvExec cmd None])).
Proof.
  intros cmd p. unfold iso_boot_output, subprocess_run, bind, emit, ret, raise.
  fold (iso_qemu_cmd qemu_bin iso_file). fold cmd. fold p.
  destruct (60 <? proc_duration p); cbn [andb fresh trace stdout stderr].
  - rewrite <- app_assoc. reflexivity.
  - reflexivity.
Qed.

(** The [try] of [main] with its handler, case by case. *)
Lemma iso_boot_result (h : IsoHost) (w : World) (qemu_bin iso_file : str)
  (st : St) :
  let cmd := iso_qemu_cmd qemu_bin iso_file in
  let p := spawn w cmd None in
  fst (iso_boot h w qemu_bin iso_file st)
  = match start_error h cmd with
    | Some e => if is_timeout e then Ok [] else Raise e
    | None =>
        if 60 <? proc_duration p then Ok []
        else match decode_error h cmd with
             | Some e => if is_timeout e then Ok [] else Raise e
             | None => Ok (proc_stdout p ++ proc_stderr p)
             end
    end.
Proof.
  intros cmd p. unfold iso_boot, iso_run. fold cmd.
  destruct (start_error h cmd) as [e|];
    [destruct (is_timeout e); reflexivity|].
  unfold subprocess_run, bind, emit, ret, raise. fold p.
  destruct (60 <? proc_duration p); cbn [andb fresh trace stdout stderr];
    [reflexivity|].
  destruct (decode_error h cmd) as [e|];
    [destruct (is_timeout e)|]; reflexivity.
Qed.

(** Without a start or decoding error the boot step is the one of the
    harness model. *)
Lemma iso_boot_plain (h : IsoHost) (w : World) (qemu_bin iso_file : str)
  (st : St) :
  start_error h (iso_qemu_cmd qemu_bin iso_file) = None ->
  decode_error h (iso_qemu_cmd qemu_bin iso_file) = None ->
  iso_boot h w qemu_bin iso_file st = iso_boot_output w qemu_bin iso_file st.
Proof.
  intros Hs Hd. rewrite iso_boot_output_unfold.
  unfold iso_boot, iso_run. rewrite Hs, Hd.
  unfold subprocess_run, bind, emit, ret, raise.
  destruct (60 <? _); cbn [andb fresh trace stdout stderr is_timeout].
  - rewrite <- app_assoc. reflexivity.
  - reflexivity.
Qed.

Lemma iso_ready_unique (h : IsoHost) (f b f' b' : str) :
  iso_ready h f b -> iso_ready h f' b' -> f = f' /\ b = b'.
Proof.
  intros (i & q & Hi & _ & Hq & _ & _ & Hr & Hf & _)
         (i' & q' & Hi' & _ & Hq' & _ & _ & Hr' & Hf' & _).
  rewrite Hi in Hi'. injection Hi' as <-.
  rewrite Hq in Hq'. injection Hq' as <-.
  rewrite Hr in Hr'. injection Hr' as <-.
  rewrite Hf in Hf'. injection Hf' as <-.
  split; reflexivity.
Qed.

Lemma contains_marker_empty : contains boot_marker [] = false.
Proof. reflexivity. Qed.

(** Either [main] gets as far as the emulator, or it exits with status 1
    before. *)
Lemma iso_main_cases (h : IsoHost) (w : World) (s : IsoSt) :
  (exists iso_file qemu_bin,
      iso_ready h iso_file qemu_bin
      /\ fst (iso_main h w s) = iso_verdict h w iso_file qemu_bin)
  \/ ((forall iso_file qemu_bin, ~ iso_ready h iso_file qemu_bin)
      /\ fst (iso_main h w s) = Ok 1).
Proof.
  unfold iso_main.
  destruct (environ_get h (lit "ISO")) as [[|i0 iso]|] eqn:Hiso;
    try (right; split; [|reflexivity];
         intros f b (i & q & Hi & Hne & _); congruence).
  destruct (environ_get h (lit "QEMU_DIR")) as [[|q0 qd]|] eqn:Hq;
    try (right; split; [|reflexivity];
         intros f b (i & q & _ & _ & Hq' & Hne & _); congruence).
  destruct (kvm_access h) eqn:Hkvm; cbn [negb].
  2: { right. split; [|reflexivity].
       intros f b (i & q & _ & _ & _ & _ & Hk & _). congruence. }
  destruct (resolve_iso h (i0 :: iso)) as [iso_file|] eqn:Hres.
  2: { right. split; [|reflexivity].
       intros f b (i & q & Hi & _ & _ & _ & _ & Hr & _).
       rewrite Hiso in Hi. injection Hi as <-. congruence. }
  destruct (find_file h (q0 :: qd) (lit "qemu-system-x86_64"))
    as [[|b0 qb]|] eqn:Hfind; cbn [truthy negb];
    try (right; split; [|reflexivity];
         intros f b (i & q & _ & _ & Hq' & _ & _ & _ & Hf & Hne);
         rewrite Hq in Hq'; injection Hq' as <-; rewrite Hfind in Hf;
         congruence).
  left. exists iso_file, (b0 :: qb). split.
  { exists (i0 :: iso), (q0 :: qd).
    repeat split; try assumption; try reflexivity; discriminate. }
  unfold iso_verdict.
  destruct (chmod_error h (b0 :: qb)) as [e|]; [reflexivity|].
  pose proof (iso_boot_result h w (b0 :: qb) iso_file (iso_base s)) as Hb.
  cbv zeta in Hb. cbv zeta.
  destruct (iso_boot h w (b0 :: qb) iso_file (iso_base s)) as [r st'].
  cbn [fst] in Hb. subst r.
  destruct (start_error h (iso_qemu_cmd (b0 :: qb) iso_file)) as [e|];
    [destruct (is_timeout e); reflexivity|].
  destruct (60 <? _); [reflexivity|].
  destruct (decode_error h (iso_qemu_cmd (b0 :: qb) iso_file)) as [e|];
    [destruct (is_timeout e); reflexivity|].
  destruct (contains boot_marker _); reflexivity.
Qed.

(** X16 -- verdict of the ISO boot check (printing taken to succeed).  An
    exit status is 0 or 1.  It
    is 0 exactly when ISO and QEMU_DIR are set and not empty, /dev/kvm is
    accessible, an image and the emulator binary are found, [os.chmod]
    and the start of the emulator succeed, the emulator exits within 60
    seconds, its output decodes and holds the boot marker.  An exception
    leaves [main] exactly when, having found image and binary, [os.chmod]
    raises it, or the boot step raises it at the start or on decoding and
    it is not a [TimeoutExpired]: the handler turns every
    [TimeoutExpired] of the boot step into an empty output, so that an
    emulator that outlives the 60 seconds gives status 1. *)
Theorem iso_main_verdict (h : IsoHost) (w : World) (s : IsoSt) :
  let r := fst (iso_main h w s) in
  (forall code, r = Ok code -> code = 0 \/ code = 1)
  /\ (r = Ok 0 <->
      exists iso_file qemu_bin,
        iso_ready h iso_file qemu_bin
        /\ chmod_error h qemu_bin = None
        /\ start_error h (iso_qemu_cmd qemu_bin iso_file) = None
        /\ proc_duration (spawn w (iso_qemu_cmd qemu_bin iso_file) None) <= 60
        /\ decode_error h (iso_qemu_cmd qemu_bin iso_file) = None
        /\ contains boot_marker
             (proc_stdout (spawn w (iso_qemu_cmd qemu_bin iso_file) None)
              ++ proc_stderr (spawn w (iso_qemu_cmd qemu_bin iso_file) None))
           = true)
  /\ (forall e,
        r = Raise e <->
        exists iso_file qemu_bin,
          iso_ready h iso_file qemu_bin
          /\ (chmod_error h qemu_bin = Some e
              \/ (chmod_error h qemu_bin = None
                  /\ is_timeout e = false
                  /\ (start_error h (iso_qemu_cmd qemu_bin iso_file) = Some e
                      \/ (start_error h (iso_qemu_cmd qemu_bin iso_file) = None
                          /\ proc_duration
                               (spawn w (iso_qemu_cmd qemu_bin iso_file) None)
                             <= 60
                          /\ decode_error h (iso_qemu_cmd qemu_bin iso_file)
                             = Some e)))))
  /\ (forall iso_file qemu_bin,
        iso_ready h iso_file qemu_bin ->
        chmod_error h qemu_bin = None ->
        start_error h (iso_qemu_cmd qemu_bin iso_file) = None ->
        60 < proc_duration (spawn w (iso_qemu_cmd qemu_bin iso_file) None) ->
        r = Ok 1).
Proof.
  intros r. subst r.
  destruct (iso_main_cases h w s) as [(f & b & Hrdy & ->)|[Hno ->]].
  2: { split; [intros code [= <-]; right; reflexivity|].
       split; [split; [discriminate | intros (f & b & H & _); destruct (Hno f b H)]|].
       split; [intros e; split;
               [discriminate | intros (f & b & H & _); destruct (Hno f b H)]|].
       intros f b H. destruct (Hno f b H). }
  unfold iso_verdict.
  set (cmd := iso_qemu_cmd b f). set (p := spawn w cmd None).
  destruct (chmod_error h b) as [ec|] eqn:Hch.
  { split; [discriminate|].
    split; [split; [discriminate|]|].
    { intros (f' & b' & H' & Hc' & _).
      destruct (iso_ready_unique h f b f' b' Hrdy H') as [<- <-]. congruence. }
    split.
    - intros e. split.
      + intros [= <-]. exists f, b. split; [exact Hrdy | left; exact Hch].
      + intros (f' & b' & H' & Hcase).
        destruct (iso_ready_unique h f b f' b' Hrdy H') as [<- <-].
        destruct Hcase as [Hc|[Hc _]]; congruence.
    - intros f' b' H' Hc' _ _.
      destruct (iso_ready_unique h f b f' b' Hrdy H') as [<- <-]. congruence. }
  destruct (start_error h cmd) as [es|] eqn:Hst.
  { destruct (is_timeout es) eqn:Hto.
    - split; [intros code [= <-]; right; reflexivity|].
      split; [split; [discriminate|]|].
      { intros (f' & b' & H' & _ & Hs' & _).
        destruct (iso_ready_unique h f b f' b' Hrdy H') as [<- <-].
        fold cmd in Hs'. congruence. }
      split.
      + intros e. split; [discriminate|].
        intros (f' & b' & H' & Hcase).
        destruct (iso_ready_unique h f b f' b' Hrdy H') as [<- <-].
        fold cmd in Hcase.
        destruct Hcase as [Hc|(_ & Hne & [Hs'|(Hs' & _)])]; congruence.
      + intros. reflexivity.
    - split; [discriminate|].
      split; [split; [discriminate|]|].
      { intros (f' & b' & H' & _ & Hs' & _).
        destruct (iso_ready_unique h f b f' b' Hrdy H') as [<- <-].
        fold cmd in Hs'. congruence. }
      split.
      + intros e. split.
        * intros [= <-]. exists f, b. split; [exact Hrdy|]. right.
          split; [exact Hch|]. split; [exact Hto|]. left. exact Hst.
        * intros (f' & b' & H' & Hcase).
          destruct (iso_ready_unique h f b f' b' Hrdy H') as [<- <-].
          fold cmd in Hcase.
          destruct Hcase as [Hc|(_ & Hne & [Hs'|(Hs' & _)])]; congruence.
      + intros f' b' H' _ Hs' _.
        destruct (iso_ready_unique h f b f' b' Hrdy H') as [<- <-].
        fold cmd in Hs'. congruence. }
  destruct (60 <? proc_duration p) eqn:Hlate.
  { apply Z.ltb_lt in Hlate.
    split; [intros code [= <-]; right; reflexivity|].
    split; [split; [discriminate|]|].
    { intros (f' & b' & H' & _ & _ & Hd & _).
      destruct (iso_ready_unique h f b f' b' Hrdy H') as [<- <-].
      fold cmd in Hd. fold p in Hd. lia. }
    split.
    - intros e. split; [discriminate|].
      intros (f' & b' & H' & Hcase).
      destruct (iso_ready_unique h f b f' b' Hrdy H') as [<- <-].
      fold cmd in Hcase. fold p in Hcase.
      destruct Hcase as [Hc|(_ & Hne & [Hs'|(_ & Hd & _)])];
        [congruence | congruence | lia].
    - intros. reflexivity. }
  apply Z.ltb_ge in Hlate.
  destruct (decode_error h cmd) as [ed|] eqn:Hdec.
  { destruct (is_timeout ed) eqn:Hto.
    - split; [intros code [= <-]; right; reflexivity|].
      split; [split; [discriminate|]|].
      { intros (f' & b' & H' & _ & _ & _ & Hd' & _).
        destruct (iso_ready_unique h f b f' b' Hrdy H') as [<- <-].
        fold cmd in Hd'. congruence. }
      split.
      + intros e. split; [discriminate|].
        intros (f' & b' & H' & Hcase).
        destruct (iso_ready_unique h f b f' b' Hrdy H') as [<- <-].
        fold cmd in Hcase.
        destruct Hcase as [Hc|(_ & Hne & [Hs'|(_ & _ & Hd')])]; congruence.
      + intros f' b' H' _ _ Hd'.
        destruct (iso_ready_unique h f b f' b' Hrdy H') as [<- <-].
        fold cmd in Hd'. fold p in Hd'. lia.
    - split; [discriminate|].
      split; [split; [discriminate|]|].
      { intros (f' & b' & H' & _ & _ & _ & Hd' & _).
        destruct (iso_ready_unique h f b f' b' Hrdy H') as [<- <-].
        fold cmd in Hd'. congruence. }
      split.
      + intros e. split.
        * intros [= <-]. exists f, b. split; [exact Hrdy|]. right.
          split; [exact Hch|]. split; [exact Hto|]. right.
          split; [exact Hst|]. split; [exact Hlate | exact Hdec].
        * intros (f' & b' & H' & Hcase).
          destruct (iso_ready_unique h f b f' b' Hrdy H') as [<- <-].
          fold cmd in Hcase.
          destruct Hcase as [Hc|(_ & Hne & [Hs'|(_ & _ & Hd')])]; congruence.
      + intros f' b' H' _ _ Hd'.
        destruct (iso_ready_unique h f b f' b' Hrdy H') as [<- <-].
        fold cmd in Hd'. fold p in Hd'. lia. }
  destruct (contains boot_marker (proc_stdout p ++ proc_stderr p)) eqn:Hmark.
  - split; [intros code [= <-]; left; reflexivity|].
    split; [split; [intros _ | reflexivity]|].
    { exists f, b. repeat split; assumption. }
    split.
    + intros e. split; [discriminate|].
      intros (f' & b' & H' & Hcase).
      destruct (iso_ready_unique h f b f' b' Hrdy H') as [<- <-].
      fold cmd in Hcase.
      destruct Hcase as [Hc|(_ & Hne & [Hs'|(_ & _ & Hd')])]; congruence.
    + intros f' b' H' _ _ Hd'.
      destruct (iso_ready_unique h f b f' b' Hrdy H') as [<- <-].
      fold cmd in Hd'. fold p in Hd'. lia.
  - split; [intros code [= <-]; right; reflexivity|].
    split; [split; [discriminate|]|].
    { intros (f' & b' & H' & _ & _ & _ & _ & Hm).
      destruct (iso_ready_unique h f b f' b' Hrdy H') as [<- <-].
      fold cmd in Hm. fold p in Hm. congruence. }
    split.
    + intros e. split; [discriminate|].
      intros (f' & b' & H' & Hcase).
      destruct (iso_ready_unique h f b f' b' Hrdy H') as [<- <-].
      fold cmd in Hcase.
      destruct Hcase as [Hc|(_ & Hne & [Hs'|(_ & _ & Hd')])]; congruence.
    + intros. reflexivity.
Qed.

Lemma skipn_suffix {A : Type} (n : nat) (l : list A) :
  exists pre, l = pre ++ List.skipn n l.
Proof. exists (List.firstn n l). symmetry. apply firstn_skipn. Qed.

(** X17 -- the printed output is bounded.  What [main] prints of the
    captured output is a suffix of it of at most 3000 code points: the
    whole output when it has at most 3000, its last 3000 otherwise. *)
Theorem output_tail_bounded (output : str) :
  (List.length (output_tail output) <= 3000)%nat
  /\ (exists pre, output = pre ++ output_tail output)
  /\ ((List.length output <= 3000)%nat -> output_tail output = output)
  /\ ((3000 < List.length output)%nat ->
      List.length (output_tail output) = 3000%nat).
Proof.
  unfold output_tail, len.
  destruct (3000 <? Z.of_nat (List.length output)) eqn:E.
  - apply Z.ltb_lt in E.
    split; [rewrite length_skipn; lia|].
    split; [apply skipn_suffix|].
    split; [intros H; lia|].
    intros _. rewrite length_skipn. lia.
  - apply Z.ltb_ge in E.
    split; [lia|].
    split; [exists []; reflexivity|].
    split; [reflexivity | intros H; lia].
Qed.

Lemma os_path_join_nonempty (a b : str) : b <> [] -> os_path_join a b <> [].
Proof.
  intros Hb. unfold os_path_join.
  destruct b as [|c b]; [contradiction|].
  assert (Hcases : forall r : str,
             match r with
             | [] => c :: b
             | 47%N :: _ => a ++ c :: b
             | _ => a ++ lit "/" ++ c :: b
             end <> []).
  { intros r. destruct r as [|x r]; [discriminate|].
    destruct x as [|x]; [destruct a; discriminate|].
    repeat (destruct x as [x|x|]; try (destruct a; discriminate)). }
  destruct c as [|c]; [apply Hcases|].
  repeat (destruct c as [c|c|]; try apply Hcases); discriminate.
Qed.

Lemma walk_any_iso_none (triples : list (str * list str * list str)) :
  (walk_any_iso None triples = None <-> no_iso_listed triples)
  /\ truthy (walk_any_iso None triples)
     = match walk_any_iso None triples with Some _ => true | None => false end.
Proof.
  induction triples as [|[[d ds] fs] rest [IH1 IH2]]; cbn [walk_any_iso].
  - split; [split; [constructor | reflexivity] | reflexivity].
  - destruct (List.find (ends_with (lit ".iso")) fs) as [f|] eqn:E.
    + assert (Hf : f <> []).
      { apply find_some in E. destruct E as [_ E]. intros ->. discriminate E. }
      pose proof (os_path_join_nonempty d f Hf) as Hj.
      destruct (os_path_join d f) as [|c p] eqn:Hp; [contradiction|].
      cbn [truthy]. split; [|reflexivity].
      split; [discriminate|].
      intros H. inversion H as [|? ? Hfs _]. unfold files_of in Hfs.
      cbn [snd] in Hfs. apply find_some in E. destruct E as [Hin E].
      rewrite Forall_forall in Hfs. rewrite (Hfs f Hin) in E. discriminate E.
    + cbn [truthy]. split; [|exact IH2].
      rewrite IH1. unfold no_iso_listed. split.
      * intros H. constructor; [|exact H].
        unfold files_of. cbn [snd]. apply Forall_forall. intros f Hin.
        exact (find_none _ _ E f Hin).
      * intros H. inversion H; assumption.
Qed.

(** X18 -- resolution of the image.  A path that is a file is taken as
    the image.  Otherwise the check ends with "no .iso found" exactly when
    no walked directory under the path lists a file ending in [.iso]. *)
Theorem resolve_iso_spec (h : IsoHost) (iso : str) :
  iso <> [] ->
  (isfile h iso = true -> resolve_iso h iso = Some iso)
  /\ (resolve_iso h iso = None
      <-> isfile h iso = false /\ no_iso_listed (walk h iso)).
Proof.
  intros Hne. unfold resolve_iso, find_file.
  destruct (isfile h iso) eqn:Hf.
  - destruct iso as [|c iso]; [contradiction|]. cbn [truthy].
    split; [reflexivity|]. split; [discriminate | intros [H _]; discriminate H].
  - split; [discriminate|].
    destruct (find_in_walk (lit "buckos.iso") (walk h iso)) as [p|] eqn:Hfind.
    + destruct (find_in_walk_some _ _ _ Hfind)
        as (pre & t & post & Hw & _ & Hin & Hp).
      assert (Hpne : p <> []).
      { rewrite Hp. apply os_path_join_nonempty. discriminate. }
      destruct p as [|c p]; [contradiction|]. cbn [truthy].
      split; [discriminate|].
      intros [_ Hno]. unfold no_iso_listed in Hno. rewrite Hw in Hno.
      apply Forall_app in Hno. destruct Hno as [_ Hno].
      inversion Hno as [|? ? Ht _]. rewrite Forall_forall in Ht.
      specialize (Ht _ Hin). vm_compute in Ht. discriminate Ht.
    + cbn [truthy].
      destruct (walk_any_iso_none (walk h iso)) as [H1 H2].
      rewrite H2.
      destruct (walk_any_iso None (walk h iso)) as [g|] eqn:Hg.
      * split; [discriminate|].
        intros [_ Hno]. apply H1 in Hno. discriminate Hno.
      * split; [intros _; split; [reflexivity | apply H1; reflexivity]
               | reflexivity].
Qed.

Lemma resolve_iso_spec_witness :
  resolve_iso sample_iso_host (lit "/out/iso")
  = Some (lit "/out/iso/boot/buckos.iso")
  /\ (resolve_iso sample_iso_host (lit "/out/iso") = None
      <-> isfile sample_iso_host (lit "/out/iso") = false
          /\ no_iso_listed (walk sample_iso_host (lit "/out/iso"))).
Proof.
  split; [vm_compute; reflexivity|].
  apply (resolve_iso_spec sample_iso_host (lit "/out/iso")). discriminate.
Defined.

(* ------------------------------------------------------------------ *)
(** ** Environment sanitization *)
(* ------------------------------------------------------------------ *)

Lemma str_eqb_refl (a : str) : str_eqb a a = true.
Proof. apply str_eqb_eq. reflexivity. Qed.

Lemma str_eqb_neq (a b : str) : a <> b -> str_eqb a b = false.
Proof.
  intros H. destruct (str_eqb a b) eqn:E; [|reflexivity].
  apply str_eqb_eq in E. contradiction.
Qed.

Lemma str_eq_dec (a b : str) : a = b \/ a <> b.
Proof.
  destruct (str_eqb a b) eqn:E.
  - left. apply str_eqb_eq, E.
  - right. intros ->. rewrite str_eqb_refl in E. discriminate.
Qed.

Lemma dict_get_set (d : dict) (k v k' : str) :
  dict_get (dict_set d k v) k' = if str_eqb k k' then Some v else dict_get d k'.
Proof.
  induction d as [|[k0 v0] d IH]; cbn [dict_set dict_get].
  - destruct (str_eqb k k'); reflexivity.
  - destruct (str_eqb k0 k) eqn:E0.
    + apply str_eqb_eq in E0. subst k0. cbn [dict_get].
      destruct (str_eqb k k'); reflexivity.
    + cbn [dict_get]. destruct (str_eqb k0 k') eqn:E1.
      * apply str_eqb_eq in E1. subst k0.
        destruct (str_eqb k k') eqn:E2; [|reflexivity].
        apply str_eqb_eq in E2. subst k. rewrite str_eqb_refl in E0.
        discriminate.
      * exact IH.
Qed.

Lemma dict_get_update (other : dict) :
  forall d k,
    dict_get (dict_update d other) k
    = match dict_get (List.rev other) k with
      | Some v => Some v
      | None => dict_get d k
      end.
Proof.
  unfold dict_update.
  induction other as [|[k0 v0] other IH]; intros d k; cbn [List.fold_left].
  - reflexivity.
  - rewrite IH. cbn [List.rev fst snd].
    assert (Happ : forall a b, dict_get (a ++ b) k
                               = match dict_get a k with
                                 | Some v => Some v
                                 | None => dict_get b k
                                 end).
    { intros a b. induction a as [|[ka va] a IHa]; cbn [app dict_get];
        [reflexivity|]. destruct (str_eqb ka k); [reflexivity | exact IHa]. }
    rewrite Happ. destruct (dict_get (List.rev other) k); [reflexivity|].
    cbn [dict_get]. rewrite dict_get_set.
    destruct (str_eqb k0 k); reflexivity.
Qed.

Lemma dict_get_in (d : dict) (k : str) :
  dict_get d k <> None -> List.In k (dict_keys d).
Proof.
  induction d as [|[k0 v0] d IH]; cbn [dict_get dict_keys List.map fst];
    [intros H; contradiction|].
  destruct (str_eqb k0 k) eqn:E.
  - intros _. left. apply str_eqb_eq, E.
  - intros H. right. apply IH, H.
Qed.

Lemma copy_passthrough_get (environ : dict) (order : list str) :
  forall acc k,
    dict_get (List.fold_left
                (fun env key =>
                   match dict_get environ key with
                   | Some val => dict_set env key val
                   | None => env
                   end) order acc) k
    = if List.existsb (str_eqb k) order
      then match dict_get environ k with
           | Some v => Some v
           | None => dict_get acc k
           end
      else dict_get acc k.
Proof.
  induction order as [|key order IH]; intros acc k;
    cbn [List.fold_left List.existsb]; [reflexivity|].
  rewrite IH.
  destruct (str_eqb k key) eqn:E; cbn [orb].
  - apply str_eqb_eq in E. subst key.
    destruct (dict_get environ k) as [v|] eqn:Hv.
    + destruct (List.existsb (str_eqb k) order); [reflexivity|].
      rewrite dict_get_set, str_eqb_refl. reflexivity.
    + destruct (List.existsb (str_eqb k) order); reflexivity.
  - assert (Hacc : dict_get
                     match dict_get environ key with
                     | Some val => dict_set acc key val
                     | None => acc
                     end k = dict_get acc k).
    { destruct (dict_get environ key); [|reflexivity].
      rewrite dict_get_set.
      destruct (str_eqb key k) eqn:E2; [|reflexivity].
      apply str_eqb_eq in E2. subst key. rewrite str_eqb_refl in E.
      discriminate. }
    rewrite Hacc. reflexivity.
Qed.

Lemma existsb_passthrough (order : list str) (k : str) :
  iterates_passthrough order ->
  List.existsb (str_eqb k) order = List.existsb (str_eqb k) _PASSTHROUGH.
Proof.
  intros Hord.
  destruct (List.existsb (str_eqb k) _PASSTHROUGH) eqn:E.
  - apply existsb_str_eqb. apply Hord. apply existsb_str_eqb. exact E.
  - destruct (List.existsb (str_eqb k) order) eqn:E'; [|reflexivity].
    apply existsb_str_eqb in E'. apply Hord in E'.
    apply existsb_str_eqb in E'. congruence.
Qed.

Lemma clean_env_get (order : list str) (environ : dict) (k : str) :
  iterates_passthrough order ->
  dict_get (clean_env order environ) k
  = match dict_get _DETERMINISM_PINS k with
    | Some v => Some v
    | None =>
        if List.existsb (str_eqb k) _PASSTHROUGH then dict_get environ k
        else None
    end.
Proof.
  intros Hord. unfold clean_env. rewrite dict_get_update.
  unfold copy_passthrough. rewrite copy_passthrough_get.
  rewrite (existsb_passthrough order k Hord).
  assert (Hrev : dict_get (List.rev _DETERMINISM_PINS) k
                 = dict_get _DETERMINISM_PINS k).
  { cbn [List.rev _DETERMINISM_PINS app dict_get].
    unfold _DETERMINISM_PINS. cbn [dict_get].
    repeat match goal with
           | |- context [str_eqb ?a k] =>
               let E := fresh "E" in
               destruct (str_eqb a k) eqn:E;
               [apply str_eqb_eq in E; subst k; vm_compute; reflexivity|]
           end.
    reflexivity. }
  rewrite Hrev.
  destruct (dict_get _DETERMINISM_PINS k); [reflexivity|].
  destruct (List.existsb (str_eqb k) _PASSTHROUGH); [|reflexivity].
  destruct (dict_get environ k); reflexivity.
Qed.

Lemma clean_env_keys (order : list str) (environ : dict) (k : str) :
  iterates_passthrough order ->
  dict_get (clean_env order environ) k <> None ->
  List.In k _PASSTHROUGH \/ List.In k (dict_keys _DETERMINISM_PINS).
Proof.
  intros Hord Hk. rewrite (clean_env_get order environ k Hord) in Hk.
  destruct (dict_get _DETERMINISM_PINS k) eqn:Hp.
  - right. apply dict_get_in. congruence.
  - destruct (List.existsb (str_eqb k) _PASSTHROUGH) eqn:E; [|contradiction].
    left. apply existsb_str_eqb. exact E.
Qed.

(** X19 -- content of the clean environment.  Whatever order the
    frozenset is iterated in, [clean_env] maps each pinned variable to its
    pinned value, each whitelisted variable to the value the host gives it
    (and to nothing when the host has none), and has no other variable:
    a host variable outside the whitelist never gets through. *)
Theorem clean_env_content (order : list str) (environ : dict) :
  iterates_passthrough order ->
  (forall k v, dict_get _DETERMINISM_PINS k = Some v ->
               dict_get (clean_env order environ) k = Some v)
  /\ (forall k, List.In k _PASSTHROUGH ->
                dict_get (clean_env order environ) k = dict_get environ k)
  /\ (forall k, dict_get (clean_env order environ) k <> None ->
                List.In k _PASSTHROUGH
                \/ List.In k (dict_keys _DETERMINISM_PINS)).
Proof.
  intros Hord. split; [|split].
  - intros k v Hp. rewrite (clean_env_get order environ k Hord), Hp.
    reflexivity.
  - intros k Hk. rewrite (clean_env_get order environ k Hord).
    assert (Hnp : dict_get _DETERMINISM_PINS k = None).
    { unfold _PASSTHROUGH in Hk. cbn [List.In] in Hk.
      repeat (destruct Hk as [<-|Hk]; [vm_compute; reflexivity|]).
      contradiction. }
    rewrite Hnp.
    replace (List.existsb (str_eqb k) _PASSTHROUGH) with true
      by (symmetry; apply existsb_str_eqb; exact Hk).
    reflexivity.
  - intros k Hk. exact (clean_env_keys order environ k Hord Hk).
Qed.

Lemma iterates_passthrough_source : iterates_passthrough _PASSTHROUGH.
Proof. intros k. reflexivity. Qed.

Lemma clean_env_content_witness :
  dict_get (clean_env _PASSTHROUGH sample_environ) (lit "LANG") = Some (lit "C")
  /\ dict_get (clean_env _PASSTHROUGH sample_environ) (lit "HOME")
     = Some (lit "/home/u").
Proof.
  destruct (clean_env_content _PASSTHROUGH sample_environ
              iterates_passthrough_source) as (Hpin & Hpass & _).
  split.
  - apply Hpin. reflexivity.
  - rewrite Hpass; [reflexivity|]. left. reflexivity.
Defined.

Lemma dict_set_keys (d : dict) (k v : str) :
  (List.In k (dict_keys d) -> dict_keys (dict_set d k v) = dict_keys d)
  /\ (~ List.In k (dict_keys d) -> dict_set d k v = d ++ [(k, v)]).
Proof.
  induction d as [|[k0 v0] d [IH1 IH2]];
    cbn [dict_set dict_keys List.map fst List.In app].
  - split; [intros [] | reflexivity].
  - destruct (str_eqb k0 k) eqn:E.
    + apply str_eqb_eq in E. subst k0. split; [reflexivity|].
      intros H. exfalso. apply H. left. reflexivity.
    + split.
      * intros [->|H]; [rewrite str_eqb_refl in E; discriminate|].
        cbn [List.map fst]. f_equal. apply IH1, H.
      * intros H. f_equal. apply IH2. intros Hin. apply H. right. exact Hin.
Qed.

Lemma in_dec_str (k : str) (l : list str) : List.In k l \/ ~ List.In k l.
Proof.
  destruct (List.existsb (str_eqb k) l) eqn:E.
  - left. apply existsb_str_eqb, E.
  - right. intros H. apply existsb_str_eqb in H. congruence.
Qed.

Lemma dict_set_nodup (d : dict) (k v : str) :
  NoDup (dict_keys d) -> NoDup (dict_keys (dict_set d k v)).
Proof.
  intros Hd. destruct (in_dec_str k (dict_keys d)) as [Hin|Hn].
  - rewrite (proj1 (dict_set_keys d k v) Hin). exact Hd.
  - rewrite (proj2 (dict_set_keys d k v) Hn).
    unfold dict_keys. rewrite map_app. cbn [List.map fst].
    apply NoDup_app; [exact Hd | repeat constructor; intros [] |].
    intros a Ha [<-|[]]. contradiction.
Qed.

Lemma copy_passthrough_nodup (environ : dict) (order : list str) :
  NoDup (dict_keys (copy_passthrough order environ)).
Proof.
  unfold copy_passthrough.
  assert (H : forall acc, NoDup (dict_keys acc) ->
                NoDup (dict_keys
                         (List.fold_left
                            (fun env key =>
                               match dict_get environ key with
                               | Some val => dict_set env key val
                               | None => env
                               end) order acc))).
  { induction order as [|key order IH]; intros acc Hacc;
      cbn [List.fold_left]; [exact Hacc|].
    apply IH. destruct (dict_get environ key);
      [apply dict_set_nodup|]; exact Hacc. }
  apply H. constructor.
Qed.

Lemma dict_update_fresh (d : dict) :
  NoDup (dict_keys d) ->
  forall acc,
    (forall k, List.In k (dict_keys d) -> ~ List.In k (dict_keys acc)) ->
    dict_update acc d = acc ++ d.
Proof.
  unfold dict_update.
  induction d as [|[k v] d IH]; intros Hd acc Hdis; cbn [List.fold_left].
  - symmetry. apply app_nil_r.
  - cbn [dict_keys List.map fst] in Hd. inversion Hd as [|? ? Hk Hd']; subst.
    cbn [fst snd].
    rewrite (proj2 (dict_set_keys acc k v)) by (apply Hdis; left; reflexivity).
    rewrite IH; [rewrite <- app_assoc; reflexivity | exact Hd' |].
    intros k' Hin Hacc. unfold dict_keys in Hacc. rewrite map_app in Hacc.
    apply in_app_or in Hacc. destruct Hacc as [Hacc|[<-|[]]].
    + apply (Hdis k'); [right; exact Hin | exact Hacc].
    + contradiction.
Qed.

Lemma sanitize_global_env_eq (order : list str) (environ : dict) :
  sanitize_global_env order environ = clean_env order environ.
Proof.
  unfold sanitize_global_env, clean_env.
  rewrite (dict_update_fresh _ (copy_passthrough_nodup environ order) []);
    [reflexivity | intros k _ []].
Qed.

(** X20 -- [sanitize_global_env] against [clean_env].  The environment
    left by [sanitize_global_env] is the dictionary [clean_env] returns
    for the same host environment; its content does not depend on the
    order the frozenset is iterated in, and sanitizing a second time
    changes nothing. *)
Theorem sanitize_global_env_is_clean_env
  (order order' : list str) (environ : dict) :
  iterates_passthrough order ->
  iterates_passthrough order' ->
  sanitize_global_env order environ = clean_env order environ
  /\ same_content (sanitize_global_env order environ)
                  (clean_env order' environ)
  /\ same_content
       (sanitize_global_env order' (sanitize_global_env order environ))
       (sanitize_global_env order environ).
Proof.
  intros Ho Ho'.
  pose proof sanitize_global_env_eq as Heq.
  split; [apply Heq|].
  split.
  - intros k. rewrite Heq, !clean_env_get by assumption. reflexivity.
  - intros k. rewrite !Heq, (clean_env_get order' _ k Ho').
    rewrite !(clean_env_get order environ k Ho).
    destruct (dict_get _DETERMINISM_PINS k); [reflexivity|].
    destruct (List.existsb (str_eqb k) _PASSTHROUGH); reflexivity.
Qed.

Lemma iterates_passthrough_rev : iterates_passthrough (List.rev _PASSTHROUGH).
Proof. intros k. symmetry. apply in_rev. Qed.

Lemma sanitize_global_env_is_clean_env_witness :
  sanitize_global_env _PASSTHROUGH sample_environ
  = clean_env _PASSTHROUGH sample_environ
  /\ same_content (sanitize_global_env _PASSTHROUGH sample_environ)
                  (clean_env (List.rev _PASSTHROUGH) sample_environ).
Proof.
  destruct (sanitize_global_env_is_clean_env _PASSTHROUGH
              (List.rev _PASSTHROUGH) sample_environ
              iterates_passthrough_source iterates_passthrough_rev)
    as (H1 & H2 & _).
  split; assumption.
Defined.

(* ------------------------------------------------------------------ *)
(** ** The kernel headers installer *)
(* ------------------------------------------------------------------ *)

Lemma kh_prepend_nil (h : KhHost) (args : KhArgs) :
  path_prepend args = [] -> kh_prepend h args = [].
Proof. intros H. unfold kh_prepend. rewrite H. reflexivity. Qed.

Lemma kh_apply_prepend_path (h : KhHost) (args : KhArgs) (environ : dict)
  (p : str) :
  dict_get (kh_apply_prepend h args (dict_set environ PATH p)) PATH
  = Some (kh_final_path h args p).
Proof.
  unfold kh_apply_prepend, kh_final_path.
  destruct (path_prepend args) as [|a l] eqn:Hp.
  - rewrite (kh_prepend_nil h args Hp). cbn [str_truthy].
    rewrite dict_get_set, str_eqb_refl. reflexivity.
  - destruct (str_truthy (kh_prepend h args)).
    + rewrite dict_get_set, str_eqb_refl. unfold environ_or_empty.
      rewrite dict_get_set, str_eqb_refl. reflexivity.
    + rewrite dict_get_set, str_eqb_refl. reflexivity.
Qed.

Lemma kh_apply_prepend_other (h : KhHost) (args : KhArgs) (environ : dict)
  (k : str) :
  k <> PATH ->
  dict_get (kh_apply_prepend h args environ) k = dict_get environ k.
Proof.
  intros Hk. unfold kh_apply_prepend.
  destruct (path_prepend args); [reflexivity|].
  destruct (str_truthy (kh_prepend h args)); [|reflexivity].
  rewrite dict_get_set, str_eqb_neq; [reflexivity|].
  intros E. apply Hk. symmetry. exact E.
Qed.

Lemma kernel_headers_main_environ (h : KhHost) (args : KhArgs) (s : KhSt)
  (p : str) :
  kh_select_path h args (environ_or_empty (kh_environ s) PATH) = Some p ->
  kh_environ (snd (kernel_headers_main h args s))
  = kh_make_environ h args (kh_environ s) p.
Proof.
  intros Hsel. unfold kernel_headers_main. rewrite Hsel.
  unfold kh_make_environ.
  destruct (negb (kh_isdir h (abspath h (source_dir args)))); [reflexivity|].
  destruct (match kh_config_file h args with
            | Some c => str_truthy c && negb (kh_isfile h c)
            | None => false
            end); [reflexivity|].
  destruct (negb (make_returncode h (kh_make_cmd h args) _ =? 0)); reflexivity.
Qed.

(** X21 -- the PATH policy of the installer.  [--hermetic-path] wins over
    [--hermetic-empty], which wins over [--allow-host-path]; without any
    of them [main] exits with status 1 having touched nothing but the
    environment.  Once a PATH is chosen, the environment holds it, with
    the existing [--path-prepend] directories and a colon put in front
    when there are any: the host PATH is used under [--allow-host-path]
    alone. *)
Theorem kh_path_policy (h : KhHost) (args : KhArgs) (s : KhSt) :
  let host_path := environ_or_empty (kh_environ s) PATH in
  let sel := kh_select_path h args host_path in
  let r := kernel_headers_main h args s in
  (hermetic_path args <> [] ->
   sel = Some (join (lit ":") (List.map (abspath h) (hermetic_path args))))
  /\ (hermetic_path args = [] -> hermetic_empty args = true -> sel = Some [])
  /\ (hermetic_path args = [] -> hermetic_empty args = false ->
      allow_host_path args = true -> sel = Some host_path)
  /\ (hermetic_path args = [] -> hermetic_empty args = false ->
      allow_host_path args = false ->
      fst r = 1
      /\ kh_events (snd r) = kh_events s
      /\ kh_stdout (snd r) = kh_stdout s
      /\ kh_environ (snd r)
         = sanitize_global_env (passthrough_order h) (kh_environ s))
  /\ (forall p, sel = Some p ->
                dict_get (kh_environ (snd r)) PATH
                = Some (kh_final_path h args p)).
Proof.
  intros host_path sel r. subst sel r.
  split; [|split; [|split; [|split]]].
  - intros H. unfold kh_select_path.
    destruct (hermetic_path args); [contradiction | reflexivity].
  - intros H1 H2. unfold kh_select_path. rewrite H1, H2. reflexivity.
  - intros H1 H2 H3. unfold kh_select_path. rewrite H1, H2, H3. reflexivity.
  - intros H1 H2 H3. unfold kernel_headers_main, kh_select_path.
    rewrite H1, H2, H3. cbn [fst snd kh_events kh_stdout kh_environ].
    repeat split; reflexivity.
  - intros p Hsel.
    rewrite (kernel_headers_main_environ h args s p Hsel).
    unfold kh_make_environ. apply kh_apply_prepend_path.
Qed.

Lemma copy_passthrough_agree (order : list str) (e1 e2 : dict) :
  agree_on order e1 e2 ->
  copy_passthrough order e1 = copy_passthrough order e2.
Proof.
  unfold copy_passthrough. generalize (@nil (str * str)).
  induction order as [|key order IH]; intros acc Hag;
    cbn [List.fold_left]; [reflexivity|].
  rewrite (Hag key (or_introl eq_refl)).
  apply IH. intros k Hk. apply Hag. right. exact Hk.
Qed.

(** X22 -- the installer is hermetic.  Under [--hermetic-path] or
    [--hermetic-empty], two hosts whose environments agree on the
    variables the frozenset lists give the same run: same exit status,
    same file system operations, same command and same environment for
    [make], same messages.  No other host variable, PATH included, has
    any influence. *)
Theorem kh_hermetic (h : KhHost) (args : KhArgs) (e1 e2 : dict)
  (evs : list kh_event) (out err : list str) :
  hermetic_path args <> [] \/ hermetic_empty args = true ->
  agree_on (passthrough_order h) e1 e2 ->
  kernel_headers_main h args (mkKh e1 evs out err)
  = kernel_headers_main h args (mkKh e2 evs out err).
Proof.
  intros Hflag Hag. unfold kernel_headers_main.
  cbn [kh_environ kh_events kh_stdout kh_stderr].
  assert (Hsan : sanitize_global_env (passthrough_order h) e1
                 = sanitize_global_env (passthrough_order h) e2).
  { unfold sanitize_global_env.
    rewrite (copy_passthrough_agree _ e1 e2 Hag). reflexivity. }
  assert (Hsel : kh_select_path h args (environ_or_empty e1 PATH)
                 = kh_select_path h args (environ_or_empty e2 PATH)).
  { unfold kh_select_path. destruct (hermetic_path args); [|reflexivity].
    destruct Hflag as [H|H]; [contradiction|]. rewrite H. reflexivity. }
  rewrite Hsan, Hsel. reflexivity.
Qed.

Lemma kh_hermetic_witness :
  kernel_headers_main sample_kh_host sample_kh_args
    (mkKh sample_environ [] [] [])
  = kernel_headers_main sample_kh_host sample_kh_args
      (mkKh [(lit "HOME", lit "/home/u"); (lit "TERM", lit "xterm");
             (lit "PATH", lit "/opt/evil")] [] [] []).
Proof.
  apply kh_hermetic.
  - left. discriminate.
  - intros k Hk. cbn [passthrough_order sample_kh_host] in Hk.
    unfold _PASSTHROUGH in Hk. cbn [List.In] in Hk.
    repeat (destruct Hk as [<-|Hk]; [vm_compute; reflexivity|]).
    contradiction.
Defined.

(** X23 -- what [make] can see.  When [make] is run, its environment maps
    every variable but PATH as [clean_env] does: it holds the pinned
    values, the whitelisted host variables and PATH, and nothing else. *)
Theorem kh_make_sees_clean_env (h : KhHost) (args : KhArgs) (s : KhSt) :
  iterates_passthrough (passthrough_order h) ->
  forall cmd env,
    List.In (KhRun cmd env) (kh_events (snd (kernel_headers_main h args s))) ->
    List.In (KhRun cmd env) (kh_events s)
    \/ (cmd = kh_make_cmd h args
        /\ (forall k, k <> PATH ->
                      dict_get env k
                      = dict_get (clean_env (passthrough_order h)
                                            (kh_environ s)) k)
        /\ (forall k, dict_get env k <> None ->
                      k = PATH \/ List.In k _PASSTHROUGH
                      \/ List.In k (dict_keys _DETERMINISM_PINS))).
Proof.
  intros Hord cmd env.
  assert (Henv : forall p k, k <> PATH ->
             dict_get (kh_make_environ h args (kh_environ s) p) k
             = dict_get (clean_env (passthrough_order h) (kh_environ s)) k).
  { intros p k Hk. unfold kh_make_environ.
    rewrite kh_apply_prepend_other by exact Hk.
    rewrite dict_get_set, str_eqb_neq
      by (intros E; apply Hk; symmetry; exact E).
    rewrite sanitize_global_env_eq. reflexivity. }
  assert (Hmake : forall p,
             List.In (KhRun cmd env)
                     (kh_prepare h args
                      ++ [KhRun (kh_make_cmd h args)
                                (kh_make_environ h args (kh_environ s) p)]) ->
             cmd = kh_make_cmd h args
             /\ env = kh_make_environ h args (kh_environ s) p).
  { intros p Hin. apply in_app_or in Hin. destruct Hin as [Hin|[Hin|[]]].
    - exfalso. unfold kh_prepare in Hin.
      repeat (apply in_app_or in Hin; destruct Hin as [Hin|Hin]);
        repeat match type of Hin with
               | List.In _ (if ?c then _ else _) => destruct c
               | List.In _ (match ?c with Some _ => _ | None => _ end) =>
                   destruct c
               end;
        cbn [List.In] in Hin;
        repeat (destruct Hin as [Hin|Hin]; [discriminate Hin|]);
        exact Hin.
    - injection Hin as <- <-. split; reflexivity. }
  assert (Hfin : forall p,
             cmd = kh_make_cmd h args
             /\ env = kh_make_environ h args (kh_environ s) p ->
             cmd = kh_make_cmd h args
             /\ (forall k, k <> PATH ->
                           dict_get env k
                           = dict_get (clean_env (passthrough_order h)
                                                 (kh_environ s)) k)
             /\ (forall k, dict_get env k <> None ->
                           k = PATH \/ List.In k _PASSTHROUGH
                           \/ List.In k (dict_keys _DETERMINISM_PINS))).
  { intros p [-> ->]. split; [reflexivity|]. split; [apply Henv|].
    intros k Hk. destruct (str_eq_dec k PATH) as [->|Hne]; [left; reflexivity|].
    right. rewrite (Henv p k Hne) in Hk.
    exact (clean_env_keys _ _ k Hord Hk). }
  unfold kernel_headers_main.
  destruct (kh_select_path h args (environ_or_empty (kh_environ s) PATH))
    as [p|]; [|cbn [snd kh_events]; intros H; left; exact H].
  fold (kh_make_environ h args (kh_environ s) p).
  destruct (negb (kh_isdir h (abspath h (source_dir args))));
    [cbn [snd kh_events]; intros H; left; exact H|].
  destruct (match kh_config_file h args with
            | Some c => str_truthy c && negb (kh_isfile h c)
            | None => false
            end); [cbn [snd kh_events]; intros H; left; exact H|].
  destruct (negb (make_returncode h (kh_make_cmd h args) _ =? 0));
    cbn [snd kh_events]; intros Hin.
  - apply in_app_or in Hin. destruct Hin as [Hin|Hin]; [left; exact Hin|].
    right. apply (Hfin p), Hmake, Hin.
  - apply in_app_or in Hin. destruct Hin as [Hin|[Hin|[]]]; [|discriminate Hin].
    apply in_app_or in Hin. destruct Hin as [Hin|Hin]; [left; exact Hin|].
    right. apply (Hfin p), Hmake, Hin.
Qed.

Lemma kh_make_sees_clean_env_witness :
  let env := kh_make_environ sample_kh_host sample_kh_args sample_environ
                             (lit "/tools/bin") in
  dict_get env (lit "LANG") = Some (lit "C")
  /\ dict_get env (lit "LD_PRELOAD") = None.
Proof.
  intros env.
  assert (Hin : List.In (KhRun (kh_make_cmd sample_kh_host sample_kh_args) env)
                  (kh_events (snd (kernel_headers_main sample_kh_host
                                     sample_kh_args sample_kh_state)))).
  { vm_compute. right. right. left. reflexivity. }
  destruct (kh_make_sees_clean_env sample_kh_host sample_kh_args
              sample_kh_state iterates_passthrough_source _ _ Hin)
    as [[]|(_ & Heq & _)].
  split; (rewrite Heq by discriminate); reflexivity.
Defined.

(** X24 -- exit status of the installer and the temporary build
    directory.  [main] exits with status 0 exactly when a PATH flag was
    given, the source directory exists, the configuration file (when one
    is given) exists and [make] exits with status 0; only then is the
    temporary build directory removed after the run.  When [make] fails
    the directory is left behind and the status is 1; when an input is
    missing nothing is done to the file system. *)
Theorem kh_exit_status (h : KhHost) (args : KhArgs) (s : KhSt) :
  let sel := kh_select_path h args (environ_or_empty (kh_environ s) PATH) in
  let cmd := kh_make_cmd h args in
  let r := kernel_headers_main h args s in
  (fst r = 0 \/ fst r = 1)
  /\ (fst r = 0 <->
      exists p, sel = Some p /\ kh_inputs_ok h args = true
                /\ make_returncode h cmd
                     (kh_make_environ h args (kh_environ s) p) = 0)
  /\ (forall p,
        sel = Some p -> kh_inputs_ok h args = true ->
        let env := kh_make_environ h args (kh_environ s) p in
        (make_returncode h cmd env = 0 ->
         kh_events (snd r)
         = kh_events s ++ kh_prepare h args
           ++ [KhRun cmd env; KhRmtree (kh_build_dir h args)])
        /\ (make_returncode h cmd env <> 0 ->
            kh_events (snd r)
            = kh_events s ++ kh_prepare h args ++ [KhRun cmd env]
            /\ kh_stderr (snd r)
               = kh_stderr s
                 ++ [lit "error: headers_install failed with exit code "
                     ++ str_of_int (make_returncode h cmd env)]))
  /\ (kh_inputs_ok h args = false -> kh_events (snd r) = kh_events s).
Proof.
  intros sel cmd r. subst sel cmd r.
  unfold kernel_headers_main, kh_inputs_ok.
  destruct (kh_select_path h args (environ_or_empty (kh_environ s) PATH))
    as [p|].
  2: { cbn [fst snd kh_events].
       split; [right; reflexivity|].
       split; [split; [discriminate | intros (p & H & _); discriminate H]|].
       split; [intros p H; discriminate H | reflexivity]. }
  fold (kh_make_environ h args (kh_environ s) p).
  destruct (kh_isdir h (abspath h (source_dir args))); cbn [negb andb].
  2: { cbn [fst snd kh_events].
       split; [right; reflexivity|].
       split; [split; [discriminate | intros (q & _ & H & _); discriminate H]|].
       split; [intros q _ H; discriminate H | reflexivity]. }
  destruct (match kh_config_file h args with
            | Some c => str_truthy c && negb (kh_isfile h c)
            | None => false
            end) eqn:Hcfg.
  - assert (Hok : match kh_config_file h args with
                  | Some c => negb (str_truthy c && negb (kh_isfile h c))
                  | None => true
                  end = false).
    { destruct (kh_config_file h args); [rewrite Hcfg; reflexivity | discriminate]. }
    rewrite Hok. cbn [fst snd kh_events].
    split; [right; reflexivity|].
    split; [split; [discriminate | intros (q & _ & H & _); discriminate H]|].
    split; [intros q _ H; discriminate H | reflexivity].
  - assert (Hok : match kh_config_file h args with
                  | Some c => negb (str_truthy c && negb (kh_isfile h c))
                  | None => true
                  end = true).
    { destruct (kh_config_file h args); [rewrite Hcfg|]; reflexivity. }
    rewrite Hok.
    destruct (make_returncode h (kh_make_cmd h args)
                (kh_make_environ h args (kh_environ s) p) =? 0) eqn:Hrc;
      cbn [negb fst snd kh_events kh_stderr].
    + apply Z.eqb_eq in Hrc.
      split; [left; reflexivity|].
      split.
      { split; [|reflexivity].
        intros _. exists p.
        split; [reflexivity|]. split; [reflexivity | exact Hrc]. }
      split; [|discriminate].
      intros q Hq _. injection Hq as <-. cbv zeta.
      split; [intros _; rewrite <- !app_assoc; reflexivity|].
      intros Hne. contradiction.
    + apply Z.eqb_neq in Hrc.
      split; [right; reflexivity|].
      split; [split; [discriminate|]|].
      { intros (q & Hq & _ & H0). injection Hq as <-. contradiction. }
      split; [|discriminate].
      intros q Hq _. injection Hq as <-. cbv zeta.
      split; [intros H0; contradiction|].
      intros _. split; reflexivity.
Qed.

Lemma kh_exit_status_witness :
  fst (kernel_headers_main sample_kh_host sample_kh_args sample_kh_state) = 0.
Proof.
  destruct (kh_exit_status sample_kh_host sample_kh_args sample_kh_state)
    as (_ & H & _).
  apply H. exists (lit "/tools/bin").
  repeat split; vm_compute; reflexivity.
Defined.
